(** * create-intelligent-textbook: the orchestrator, the stages and the extractors

    A shallow embedding of the TypeScript sources

    - [src/steps/learning-graph.ts]   ([parseConceptTable], [normalizeTaxonomy], [normalizeBloom],
                                       the table of [buildConceptMapMd], the counters of
                                       [buildDependencyGraphMd])
    - [src/steps/chapter-structure.ts] ([generateChapterStructure], [parseChapterOutlines],
                                       [buildChaptersIndex])
    - [src/steps/chapter-content.ts]  ([generateChapterContent])
    - [src/steps/course-description.ts] ([parseCourseDescription])
    - [src/steps/microsims.ts]        ([selectSimTopics], [extractHtml])
    - [src/steps/quizzes.ts]          ([generateQuizzes])
    - [src/steps/glossary.ts]         ([buildGlossaryMd])
    - [src/steps/metrics.ts]          ([countWordsInFile])
    - [src/claude.ts]                 ([generate], [generateParallel])
    - [src/pipeline.ts]               ([steps], [runPipeline])
    - [src/bin/cli.ts]                (the action of the command, [slugify])

    JavaScript strings are sequences of UTF-16 code units.  They are modelled
    by [string], whose characters are the code units below 256 (Basic Latin and
    the Latin-1 supplement).  JavaScript numbers are IEEE 754 binary64 values;
    they are modelled by [spec_float] with precision 53 and maximal exponent
    1024, and arithmetic is the one of [SpecFloat]. *)

From Stdlib Require Import List String Ascii Bool Arith ZArith NArith Lia.
From Stdlib Require Import Floats.SpecFloat.
From Stdlib Require Import Sorting.Permutation Sorting.Sorted.
Import ListNotations.

Local Open Scope string_scope.
Local Open Scope list_scope.

(* ===================================================================== *)
(** ** JavaScript strings *)
(* ===================================================================== *)

Module JSString.

Definition code (c : ascii) : N := N_of_ascii c.

(** [WhiteSpace] and [LineTerminator] code units below 256: TAB, LF, VT, FF,
    CR, SP and NBSP.  This is the set used by [String.prototype.trim], by
    [StringToNumber] and by the regular-expression class [\s]. *)
Definition isWhiteSpace (c : ascii) : bool :=
  let n := code c in
  ((9 <=? n) && (n <=? 13) || (n =? 32) || (n =? 160))%N.

(** [LineTerminator] code units below 256: LF and CR. *)
Definition isLineTerminator (c : ascii) : bool :=
  let n := code c in ((n =? 10) || (n =? 13))%N.

Definition isDigit (c : ascii) : bool :=
  let n := code c in ((48 <=? n) && (n <=? 57))%N.

Fixpoint trimStart (s : string) : string :=
  match s with
  | String c s' => if isWhiteSpace c then trimStart s' else s
  | EmptyString => EmptyString
  end.

(** [trimEnd] drops the trailing white space: a character is kept when it is
    not white space or when something is kept after it. *)
Fixpoint trimEnd (s : string) : string :=
  match s with
  | String c s' =>
      match trimEnd s' with
      | EmptyString => if isWhiteSpace c then EmptyString else String c EmptyString
      | t => String c t
      end
  | EmptyString => EmptyString
  end.

(** [s.trim()] *)
Definition trim (s : string) : string := trimEnd (trimStart s).

(** Truthiness of a string: every string but the empty one. *)
Definition truthy (s : string) : bool :=
  match s with EmptyString => false | String _ _ => true end.

(** [s.split(sep)] for a separator of one code unit.  The result always has
    at least one element. *)
Fixpoint split (sep : ascii) (s : string) : list string :=
  match s with
  | EmptyString => [EmptyString]
  | String c s' =>
      if Ascii.eqb c sep then EmptyString :: split sep s'
      else match split sep s' with
           | x :: xs => String c x :: xs
           | [] => [String c EmptyString]
           end
  end.

(** [s.includes(needle)] *)
Fixpoint includes (needle s : string) : bool :=
  String.prefix needle s ||
  match s with
  | EmptyString => false
  | String _ s' => includes needle s'
  end.

(** [toLowerCase] on one code unit below 256: A-Z, and the Latin-1 capitals
    U+00C0..U+00DE except the multiplication sign U+00D7. *)
Definition lowerChar (c : ascii) : ascii :=
  let n := code c in
  if ((65 <=? n) && (n <=? 90) || (192 <=? n) && (n <=? 222) && negb (n =? 215))%N
  then ascii_of_N (n + 32) else c.

(** The upper-case partner used by case-insensitive regular expressions
    ([Canonicalize] of the pattern character): only ASCII letters occur in
    the patterns of this program. *)
Definition upperAscii (c : ascii) : ascii :=
  let n := code c in
  if ((97 <=? n) && (n <=? 122))%N then ascii_of_N (n - 32) else c.

Fixpoint toLowerCase (s : string) : string :=
  match s with
  | EmptyString => EmptyString
  | String c s' => String (lowerChar c) (toLowerCase s')
  end.

(** [s.replace(/\n/g, ' ')] *)
Fixpoint replaceNewlines (s : string) : string :=
  match s with
  | EmptyString => EmptyString
  | String c s' =>
      String (if Ascii.eqb c "010"%char then " "%char else c) (replaceNewlines s')
  end.

(** [xs.join(sep)] *)
Fixpoint join (sep : string) (xs : list string) : string :=
  match xs with
  | [] => EmptyString
  | [x] => x
  | x :: rest => x ++ sep ++ join sep rest
  end.

End JSString.

(** The nullish-coalescing operator [x ?? d] on a possibly undefined value. *)
Definition nullish {A : Type} (x : option A) (d : A) : A :=
  match x with Some v => v | None => d end.

Notation "x ?? d" := (nullish x d) (at level 45, left associativity).

(* ===================================================================== *)
(** ** JavaScript numbers *)
(* ===================================================================== *)

Module JSNumber.
Import JSString.

Definition prec : Z := 53.
Definition emax : Z := 1024.

(** A Number is a binary64 value. *)
Definition number : Type := spec_float.

Definition NaN : number := S754_nan.
Definition Infinity (neg : bool) : number := S754_infinity neg.

(** The Number nearest to an integer (ties to even). *)
Definition ofZ (z : Z) : number := binary_normalize prec emax z 0 false.
Definition ofN (n : N) : number := ofZ (Z.of_N n).
Definition ofNat (n : nat) : number := ofZ (Z.of_nat n).

(** The global [isNaN] on a Number. *)
Definition isNaN (x : number) : bool :=
  match x with S754_nan => true | _ => false end.

(** [x < y], [x > y], [x <= y] *)
Definition lt (x y : number) : bool := SFltb x y.
Definition gt (x y : number) : bool := SFltb y x.
Definition le (x y : number) : bool := SFleb x y.

(** [x === y] and [x !== y] on Numbers: NaN differs from everything and the
    two zeros are equal. *)
Definition strictEq (x y : number) : bool := SFeqb x y.
Definition strictNeq (x y : number) : bool := negb (SFeqb x y).

(** [SameValueZero], the comparison of [Set.prototype.has]. *)
Definition sameValueZero (x y : number) : bool :=
  match x, y with
  | S754_nan, S754_nan => true
  | _, _ => SFeqb x y
  end.

(** [x - y] *)
Definition sub (x y : number) : number := SFsub prec emax x y.

(** [ToBoolean] of a Number: false exactly for the zeros and NaN. *)
Definition truthy (x : number) : bool :=
  match x with
  | S754_nan | S754_zero _ => false
  | _ => true
  end.

(** [x || d] on Numbers. *)
Definition orElse (x d : number) : number := if truthy x then x else d.

(** *** [StringToNumber] *)

Definition decDigit (c : ascii) : option N :=
  if isDigit c then Some (code c - 48)%N else None.

Definition hexDigit (c : ascii) : option N :=
  let n := code c in
  if isDigit c then Some (n - 48)%N
  else if ((97 <=? n) && (n <=? 102))%N then Some (n - 87)%N
  else if ((65 <=? n) && (n <=? 70))%N then Some (n - 55)%N
  else None.

Definition octDigit (c : ascii) : option N :=
  let n := code c in
  if ((48 <=? n) && (n <=? 55))%N then Some (n - 48)%N else None.

Definition binDigit (c : ascii) : option N :=
  let n := code c in
  if ((48 <=? n) && (n <=? 49))%N then Some (n - 48)%N else None.

(** Reads the longest run of digits of the given base at the head of [s],
    continuing the value [acc]; returns the value, the number of digits read
    and the rest of the string. *)
Fixpoint readDigits (base : N) (digit : ascii -> option N) (s : string)
         (acc : N) (cnt : nat) : N * nat * string :=
  match s with
  | EmptyString => (acc, cnt, s)
  | String c s' =>
      match digit c with
      | Some d => readDigits base digit s' (acc * base + d)%N (S cnt)
      | None => (acc, cnt, s)
      end
  end.

(** An optional sign. *)
Definition readSign (s : string) : bool * string :=
  match s with
  | String "+" s' => (false, s')
  | String "-" s' => (true, s')
  | _ => (false, s)
  end.

(** [ExponentPart] (optional) up to the end of the literal. *)
Definition parseExponent (s : string) : option Z :=
  match s with
  | EmptyString => Some 0%Z
  | String c s1 =>
      if Ascii.eqb c "e" || Ascii.eqb c "E" then
        let (neg, s2) := readSign s1 in
        match readDigits 10 decDigit s2 0 0 with
        | (v, S _, EmptyString) => Some (if neg then (- Z.of_N v)%Z else Z.of_N v)
        | _ => None
        end
      else None
  end.

(** [StrUnsignedDecimalLiteral] without [Infinity]: the decimal mantissa
    and the power of ten that scales it. *)
Definition parseUnsignedDecimal (s : string) : option (N * Z) :=
  let '(ip, ic, r1) := readDigits 10 decDigit s 0 0 in
  match r1 with
  | String "." r2 =>
      let '(m, fc, r3) := readDigits 10 decDigit r2 ip 0 in
      match ic, fc with
      | O, O => None
      | _, _ =>
          match parseExponent r3 with
          | Some e => Some (m, (e - Z.of_nat fc)%Z)
          | None => None
          end
      end
  | _ =>
      match ic with
      | O => None
      | S _ =>
          match parseExponent r1 with
          | Some e => Some (ip, e)
          | None => None
          end
      end
  end.

(** [NonDecimalIntegerLiteral]: [0x], [0o] and [0b] literals (no sign). *)
Definition parseNonDecimal (s : string) : option N :=
  match s with
  | String "0" (String p ds) =>
      let run base digit :=
        match readDigits base digit ds 0 0 with
        | (v, S _, EmptyString) => Some v
        | _ => None
        end in
      if Ascii.eqb p "x" || Ascii.eqb p "X" then run 16%N hexDigit
      else if Ascii.eqb p "o" || Ascii.eqb p "O" then run 8%N octDigit
      else if Ascii.eqb p "b" || Ascii.eqb p "B" then run 2%N binDigit
      else None
  | _ => None
  end.

(** The Number nearest to [(-1)^neg * m * 10^e] (ties to even). *)
Definition ofDecimal (neg : bool) (m : N) (e : Z) : number :=
  match m with
  | N0 => S754_zero neg
  | Npos p =>
      match e with
      | Zneg k =>
          let '(q, e', l) :=
            SFdiv_core_binary prec emax (Zpos p) 0 (Zpos (Pos.pow 10 k)) 0 in
          binary_round_aux prec emax neg q e' l
      | _ => binary_round prec emax neg (p * Z.to_pos (10 ^ e))%positive 0
      end
  end.

(** [Number(s)] for a string [s] ([StringToNumber]). *)
Definition Number (s : string) : number :=
  let t := trim s in
  match t with
  | EmptyString => S754_zero false
  | _ =>
      match parseNonDecimal t with
      | Some n => ofN n
      | None =>
          let (neg, u) := readSign t in
          if String.eqb u "Infinity" then Infinity neg
          else match parseUnsignedDecimal u with
               | Some (m, e) => ofDecimal neg m e
               | None => NaN
               end
      end
  end.

(** [Number(v)] for a value that is a string or [undefined]. *)
Definition NumberOf (v : option string) : number :=
  match v with
  | Some s => Number s
  | None => NaN
  end.

End JSNumber.

Import JSString JSNumber.

(* ===================================================================== *)
(** ** The data model ([src/types.ts]) *)
(* ===================================================================== *)

Module Concept.
Record t : Type := mk {
  id : number;
  name : string;
  chapter : number;
  dependencies : list number;
  taxonomy : string;
  bloomLevel : string
}.
End Concept.

Module ChapterOutline.
Record t : Type := mk {
  number : JSNumber.number;
  title : string;
  summary : string;
  concepts : list JSNumber.number
}.
End ChapterOutline.

(* ===================================================================== *)
(** ** The concept-table extractor ([src/steps/learning-graph.ts]) *)
(* ===================================================================== *)

Definition normalizeTaxonomy (raw : string) : string :=
  let lower := toLowerCase raw in
  if includes "found" lower then "Foundation"
  else if includes "adv" lower then "Advanced"
  else "Core".

Definition normalizeBloom (raw : string) : string :=
  let lower := toLowerCase raw in
  if includes "remember" lower then "Remember"
  else if includes "understand" lower then "Understand"
  else if includes "apply" lower then "Apply"
  else if includes "analyz" lower then "Analyze"
  else if includes "evaluat" lower then "Evaluate"
  else if includes "creat" lower then "Create"
  else trim raw.

(** [line.split('|').map(c => c.trim()).filter(Boolean)] *)
Definition rowCells (line : string) : list string :=
  filter JSString.truthy (map trim (split "|" line)).

(** The predicate of the dependency filter,
    [n => !isNaN(n) && n > 0 && n !== id]. *)
Definition keepDependency (id n : number) : bool :=
  negb (isNaN n) && gt n (ofZ 0) && strictNeq n id.

(** [depsStr.split(',').map(s => Number(s.trim())).filter(...)] *)
Definition parseDependencies (id : number) (depsStr : string) : list number :=
  filter (keepDependency id) (map (fun s => Number (trim s)) (split "," depsStr)).

(** The body of the loop of [parseConceptTable] on one line: [None] stands for
    [continue], [Some c] for [concepts.push(c)]. *)
Definition parseConceptRow (line : string) : option Concept.t :=
  let cells := rowCells line in
  if (List.length cells <? 6)%nat then None
  else
    (* Skip header and separator rows *)
    let idStr := nth_error cells 0 in
    if negb (JSString.truthy (idStr ?? "")) || isNaN (NumberOf idStr) then None
    else
      let id := NumberOf idStr in
      let name := nth_error cells 1 ?? "" in
      let chapter := orElse (NumberOf (nth_error cells 2)) (ofZ 1) in
      let depsStr := nth_error cells 3 ?? "" in
      let taxonomy := normalizeTaxonomy (nth_error cells 4 ?? "") in
      let bloomLevel := normalizeBloom (nth_error cells 5 ?? "") in
      let dependencies := parseDependencies id depsStr in
      Some (Concept.mk id name chapter dependencies taxonomy bloomLevel).

(** [raw.split('\n').filter(l => l.includes('|'))] *)
Definition tableLines (raw : string) : list string :=
  filter (includes "|") (split "010"%char raw).

Definition parseConceptTable (raw : string) : list Concept.t :=
  let lines := tableLines raw in
  fold_left
    (fun concepts line =>
       match parseConceptRow line with
       | Some c => concepts ++ [c]
       | None => concepts
       end)
    lines [].

(* ===================================================================== *)
(** ** Regular expressions *)
(* ===================================================================== *)

(** The backtracking matcher of ECMAScript for the constructs that the
    patterns of this program use: character classes, concatenation, greedy
    repetition and capturing groups. *)
Module RegExp.

Inductive regex : Type :=
| Char (p : ascii -> bool)          (* one character of a class *)
| Empty                             (* the empty pattern *)
| Seq (r1 r2 : regex)               (* r1 r2 *)
| Star (r : regex)                  (* r*, greedy *)
| Group (i : nat) (r : regex).      (* the i-th capturing group *)

(** [r+] *)
Definition Plus (r : regex) : regex := Seq r (Star r).

Definition seqs (rs : list regex) : regex := fold_right Seq Empty rs.

(** A literal character, and a literal character under the flag [i]. *)
Definition chr (c : ascii) : regex := Char (Ascii.eqb c).
Definition chri (c : ascii) : regex :=
  Char (fun x => Ascii.eqb (upperAscii x) (upperAscii c)).

Fixpoint lit (s : string) : regex :=
  match s with
  | EmptyString => Empty
  | String c s' => Seq (chr c) (lit s')
  end.

Fixpoint liti (s : string) : regex :=
  match s with
  | EmptyString => Empty
  | String c s' => Seq (chri c) (liti s')
  end.

Fixpoint charIn (set : string) (c : ascii) : bool :=
  match set with
  | EmptyString => false
  | String x set' => Ascii.eqb x c || charIn set' c
  end.

(** [\s], [\d], [.] and [[^...]] *)
Definition ws : regex := Char isWhiteSpace.
Definition digit : regex := Char isDigit.
Definition dot : regex := Char (fun c => negb (isLineTerminator c)).
Definition notIn (set : string) : regex := Char (fun c => negb (charIn set c)).

(** The captures of a match: the latest value of a group comes first. *)
Definition captures : Type := list (nat * string).

Fixpoint getCapture (i : nat) (c : captures) : option string :=
  match c with
  | [] => None
  | (j, v) :: c' => if Nat.eqb i j then Some v else getCapture i c'
  end.

(** [matchHere r s c k] matches [r] at the head of [s] and hands the rest of
    the input and the captures to the continuation [k]; when [k] fails the
    matcher backtracks.  An iteration of [Star] that consumes nothing is
    refused, as in ECMAScript, so the length of the input bounds the number
    of iterations. *)
Fixpoint matchHere {R : Type} (r : regex) (s : string) (c : captures)
         (k : string -> captures -> option R) {struct r} : option R :=
  match r with
  | Char p =>
      match s with
      | String a s' => if p a then k s' c else None
      | EmptyString => None
      end
  | Empty => k s c
  | Seq r1 r2 => matchHere r1 s c (fun s1 c1 => matchHere r2 s1 c1 k)
  | Star r1 =>
      (fix iterate (fuel : nat) (s : string) (c : captures) {struct fuel} : option R :=
         match fuel with
         | O => k s c
         | S fuel' =>
             match matchHere r1 s c
                     (fun s1 c1 =>
                        if (String.length s1 <? String.length s)%nat
                        then iterate fuel' s1 c1 else None) with
             | Some res => Some res
             | None => k s c
             end
         end) (String.length s) s c
  | Group i r1 =>
      matchHere r1 s c
        (fun s1 c1 =>
           k s1 ((i, substring 0 (String.length s - String.length s1) s) :: c1))
  end.

(** [s.match(r)] for a pattern without the flag [g]: the captures of the
    leftmost match, or [None] for [null]. *)
Fixpoint exec (r : regex) (s : string) : option captures :=
  match matchHere r s [] (fun _ c => Some c) with
  | Some c => Some c
  | None =>
      match s with
      | String _ s' => exec r s'
      | EmptyString => None
      end
  end.

(** The value [m[i]] of a group of a successful match.  A group that took no
    part in the match is [undefined]; the groups that this program reads
    always take part (lemma [groups_read_are_defined]). *)
Definition group (i : nat) (m : captures) : option string := getCapture i m.

(** The loop of [RegExp.prototype[Symbol.split]] for a pattern without
    groups: [cur] is the text between the end of the last separator and the
    position under inspection, [rest] the text from that position on. *)
Fixpoint splitLoop (r : regex) (fuel : nat) (cur rest : string) : list string :=
  match fuel with
  | O => [(cur ++ rest)%string]
  | S fuel' =>
      match rest with
      | EmptyString => [cur]
      | String a rest' =>
          match matchHere r rest [] (fun s' _ => Some s') with
          | None => splitLoop r fuel' (cur ++ String a EmptyString)%string rest'
          | Some s' =>
              if (String.length s' =? String.length rest)%nat then
                (* an empty match *)
                match cur with
                | EmptyString => splitLoop r fuel' (String a EmptyString) rest'
                | _ => cur :: splitLoop r fuel' (String a EmptyString) rest'
                end
              else cur :: splitLoop r fuel' EmptyString s'
          end
      end
  end.

(** [s.split(r)] *)
Definition split (r : regex) (s : string) : list string :=
  match s with
  | EmptyString =>
      match matchHere r s [] (fun _ _ => Some tt) with
      | Some _ => []
      | None => [s]
      end
  | _ => splitLoop r (S (String.length s)) EmptyString s
  end.

End RegExp.

(* ===================================================================== *)
(** ** The chapter-outline extractor ([src/steps/chapter-structure.ts]) *)
(* ===================================================================== *)

Module Patterns.
Import RegExp.

(** [/---+/g] *)
Definition delimiter : regex := seqs [lit "--"; Plus (chr "-")].

(** [/##\s+Chapter\s+(\d+):\s*(.+)/i] *)
Definition header : regex :=
  seqs [liti "##"; Plus ws; liti "Chapter"; Plus ws; Group 1 (Plus digit);
        liti ":"; Star ws; Group 2 (Plus dot)].

(** [/\*\*Summary:\*\*\s*(G)/i], where the group G is [[^\n*]+(?:C)*] and a
    continuation line C is [\n[^*\n][^\n]*]. *)
Definition summary : regex :=
  seqs [liti "**Summary:**"; Star ws;
        Group 1 (Seq (Plus (notIn (String "010" "*")))
                     (Star (seqs [chr "010"; notIn (String "*" (String "010" ""));
                                  Star (notIn (String "010" ""))])))].

(** [/\*\*Concept IDs:\*\*\s*([^\n]+)/i] *)
Definition conceptIds : regex :=
  seqs [liti "**Concept IDs:**"; Star ws; Group 1 (Plus (notIn (String "010" "")))].

End Patterns.

(** The decimal digits of a natural number, as in a template literal. *)
Fixpoint decimalDigits (fuel n : nat) (acc : string) : string :=
  match fuel with
  | O => acc
  | S fuel' =>
      let acc' := String (ascii_of_nat (48 + n mod 10)) acc in
      match n / 10 with
      | O => acc'
      | q => decimalDigits fuel' q acc'
      end
  end.

Definition natToString (n : nat) : string := decimalDigits (S n) n EmptyString.

(** [Number(s.split('.')[0])], the leading token of a piece or of an entry. *)
Definition leadingNumber (s : string) : number :=
  NumberOf (nth_error (JSString.split "." s) 0).

(** The loop over the pieces of a "Concept IDs:" field:
    [for (const p of parts) { const n = Number(p.trim().split('.')[0]);
       if (!isNaN(n) && n > 0) concepts.push(n); }] *)
Definition parseConceptIds (field : string) : list number :=
  let parts := JSString.split "," field in
  fold_left
    (fun concepts p =>
       let n := leadingNumber (trim p) in
       if negb (isNaN n) && gt n (ofZ 0) then concepts ++ [n] else concepts)
    parts [].

(** The loop of the fallback over the entries of the concept map:
    [for (const entry of conceptMap[number]) { const n = Number(entry.split('.')[0]);
       if (!isNaN(n)) concepts.push(n); }] *)
Definition fallbackConceptIds (concepts : list number) (entries : list string) : list number :=
  fold_left
    (fun concepts entry =>
       let n := leadingNumber entry in
       if negb (isNaN n) then concepts ++ [n] else concepts)
    entries concepts.

(** The concept map [Record<number, string[]>], read by [conceptMap[n]]: a
    lookup by the Number used as the key. *)
Definition ConceptMap : Type := number -> option (list string).

(** The body of the loop over the blocks: [None] stands for [continue]. *)
Definition parseBlock (conceptMap : ConceptMap) (block : string) : option ChapterOutline.t :=
  match RegExp.exec Patterns.header block with
  | None => None
  | Some headerMatch =>
      let number := NumberOf (RegExp.group 1 headerMatch) in
      let title := trim (RegExp.group 2 headerMatch ?? "") in
      (* Extract summary *)
      let summary :=
        match RegExp.exec Patterns.summary block with
        | Some summaryMatch => trim (replaceNewlines (RegExp.group 1 summaryMatch ?? ""))
        | None => ""
        end in
      (* Extract concept IDs *)
      let concepts :=
        match RegExp.exec Patterns.conceptIds block with
        | Some conceptsMatch => parseConceptIds (RegExp.group 1 conceptsMatch ?? "")
        | None => []
        end in
      (* Fallback: derive concept IDs from the concept map *)
      let concepts :=
        match concepts, conceptMap number with
        | [], Some entries => fallbackConceptIds concepts entries
        | _, _ => concepts
        end in
      Some (ChapterOutline.mk number title summary concepts)
  end.

(** The record pushed for a chapter number that no block produced. *)
Definition defaultOutline (courseTopics : list string) (conceptMap : ConceptMap)
           (n : nat) : ChapterOutline.t :=
  let title := nth_error courseTopics (n - 1) ?? ("Chapter " ++ natToString n)%string in
  let concepts :=
    filter (fun x => negb (isNaN x))
           (map leadingNumber (conceptMap (ofNat n) ?? [])) in
  ChapterOutline.mk (ofNat n) title
    ("Chapter " ++ natToString n ++ " covers " ++ title ++ ".")%string concepts.

(** The comparator [(a, b) => a.number - b.number]. *)
Definition compareOutlines (a b : ChapterOutline.t) : number :=
  sub (ChapterOutline.number a) (ChapterOutline.number b).

(** [Array.prototype.sort] with a comparator.  The sort is stable, a result of
    the comparator that is NaN counts as zero, and [a] is placed after [b]
    exactly when the comparator is positive on [(a, b)]: for a consistent
    comparator this determines the result, which the insertion sort below
    computes. *)
Section Sort.
Context {A : Type}.
Variable compareFn : A -> A -> number.

Definition sortsAfter (a b : A) : bool := gt (compareFn a b) (ofZ 0).

Fixpoint insertSorted (x : A) (l : list A) : list A :=
  match l with
  | [] => [x]
  | y :: l' => if sortsAfter x y then y :: insertSorted x l' else x :: y :: l'
  end.

Fixpoint sort (l : list A) : list A :=
  match l with
  | [] => []
  | x :: l' => insertSorted x (sort l')
  end.
End Sort.

(** The gap-filling loop [for (let n = 1; n <= chapterCount; n++)] for a
    chapter count that is a natural number: [found] is the set of the chapter
    numbers of the parsed blocks, and the counter takes the values 1, 2, ...
    as Numbers (exact below 2^53). *)
Definition fillGaps (found : list number) (chapterCount : nat)
           (courseTopics : list string) (conceptMap : ConceptMap)
           (outlines : list ChapterOutline.t) : list ChapterOutline.t :=
  fold_left
    (fun outlines n =>
       if negb (existsb (sameValueZero (ofNat n)) found)
       then outlines ++ [defaultOutline courseTopics conceptMap n]
       else outlines)
    (seq 1 chapterCount) outlines.

(** The loop over the blocks. *)
Definition parseBlocks (conceptMap : ConceptMap) (blocks : list string) : list ChapterOutline.t :=
  fold_left
    (fun outlines block =>
       match parseBlock conceptMap block with
       | Some o => outlines ++ [o]
       | None => outlines
       end)
    blocks [].

Definition parseChapterOutlines (raw : string) (chapterCount : nat)
           (courseTopics : list string) (conceptMap : ConceptMap) : list ChapterOutline.t :=
  (* Split on chapter delimiters *)
  let blocks :=
    filter (fun b => JSString.truthy (trim b)) (RegExp.split Patterns.delimiter raw) in
  let outlines := parseBlocks conceptMap blocks in
  (* Ensure we have all chapters: fill gaps with defaults *)
  let found := map ChapterOutline.number outlines in
  let outlines := fillGaps found chapterCount courseTopics conceptMap outlines in
  sort compareOutlines outlines.

(* ===================================================================== *)
(** ** Errors and promises *)
(* ===================================================================== *)

Module Promise.

(** A thrown value: an [Error] object with its message, or another value
    with its string conversion. *)
Inductive thrown : Type :=
| ErrorObject (message : string)
| OtherValue (text : string).

(** [error instanceof Error ? error.message : String(error)] *)
Definition messageOf (error : thrown) : string :=
  match error with
  | ErrorObject message => message
  | OtherValue text => text
  end.

Inductive settled (A : Type) : Type :=
| Fulfilled (value : A)
| Rejected (reason : thrown).
Arguments Fulfilled {A} value.
Arguments Rejected {A} reason.

(** A promise with the instant at which it settles.  Two promises of one
    batch that carry the same instant settle in the order of the batch. *)
Record promise (A : Type) : Type := mkPromise {
  outcome : settled A;
  settledAt : nat
}.
Arguments mkPromise {A} outcome settledAt.
Arguments outcome {A} p.
Arguments settledAt {A} p.

(** The promise of an [async] function that awaits [p] and returns [f] of
    its value. *)
Definition andThen {A B : Type} (f : A -> B) (p : promise A) : promise B :=
  mkPromise
    match outcome p with
    | Fulfilled v => Fulfilled (f v)
    | Rejected e => Rejected e
    end
    (settledAt p).

(** The rejection that settles first, with its instant. *)
Fixpoint firstRejection {A : Type} (ps : list (promise A)) : option (thrown * nat) :=
  match ps with
  | [] => None
  | p :: ps' =>
      match outcome p, firstRejection ps' with
      | Rejected e, Some (e', t') =>
          if (t' <? settledAt p)%nat then Some (e', t') else Some (e, settledAt p)
      | Rejected e, None => Some (e, settledAt p)
      | Fulfilled _, later => later
      end
  end.

Fixpoint fulfilledValues {A : Type} (ps : list (promise A)) : list A :=
  match ps with
  | [] => []
  | p :: ps' =>
      match outcome p with
      | Fulfilled v => v :: fulfilledValues ps'
      | Rejected _ => fulfilledValues ps'
      end
  end.

(** [Promise.all(ps)]: rejected with the reason of the first promise to be
    rejected; fulfilled, once all are, with the values in the order of [ps]. *)
Definition all {A : Type} (ps : list (promise A)) : promise (list A) :=
  match firstRejection ps with
  | Some (e, t) => mkPromise (Rejected e) t
  | None => mkPromise (Fulfilled (fulfilledValues ps))
                      (fold_right Nat.max 0 (map settledAt ps))
  end.

End Promise.

Import Promise.

(* ===================================================================== *)
(** ** Configuration and context ([src/types.ts]) *)
(* ===================================================================== *)

Inductive DeployTarget : Type := GithubPages | NoDeploy.

Module TextbookConfig.
Record t : Type := mk {
  topic : string;
  chapters : number;
  microsims : number;
  concepts : number;
  outputDir : string;
  model : string;
  deploy : DeployTarget;
  repoName : option string
}.
End TextbookConfig.

Module CourseDescription.
Record t : Type := mk {
  title : string;
  subtitle : string;
  targetAudience : string;
  prerequisites : string;
  topics : list string;
  learningOutcomes : list string;
  rawMarkdown : string
}.
End CourseDescription.

Module PipelineContext.
Record t : Type := mk {
  config : TextbookConfig.t;
  courseDescription : option CourseDescription.t;
  concepts : option (list Concept.t);
  chapters : option (list ChapterOutline.t);
  outputDir : string
}.
End PipelineContext.

(* ===================================================================== *)
(** ** The Generation Service ([src/claude.ts]) *)
(* ===================================================================== *)

(** The request of [anthropic.messages.stream]. *)
Record MessageRequest : Type := mkRequest {
  req_model : string;
  req_max_tokens : number;
  req_system : string;
  req_prompt : string
}.

(** A block of the content of the final message. *)
Inductive ContentBlock : Type :=
| TextBlock (text : string)
| OtherBlock (type : string).

(** The effects of the program on the world around it. *)
Inductive Effect : Type :=
| RequestIssued (request : MessageRequest)
| DirectoryMade (path : string)
| FileWritten (path content : string).

(** The options of [generate] and the elements of the list of prompts. *)
Record GenerateOptions : Type := mkOptions {
  opt_system : option string;
  opt_model : option string;
  opt_maxTokens : option number
}.

Record PromptSpec : Type := mkPrompt {
  prompt : string;
  system : option string
}.

Section GenerationService.

(** The state of the world outside the program (the service, the file
    system), and the log of the effects of the program on it. *)
Variable World : Type.

Record Env : Type := mkEnv {
  world : World;
  effects : list Effect
}.

(** The answer of the service to a request: a promise of the content of the
    final message, and the world once the request is issued. *)
Variable finalMessage : MessageRequest -> World -> promise (list ContentBlock) * World.

(** [node:fs/promises]. *)
Variable fsMkdir : string -> World -> settled unit * World.
Variable fsWriteFile : string -> string -> World -> promise unit * World.

Definition stream (request : MessageRequest) (env : Env)
  : promise (list ContentBlock) * Env :=
  let (p, w) := finalMessage request (world env) in
  (p, mkEnv w (effects env ++ [RequestIssued request])).

Definition mkdir (path : string) (env : Env) : settled unit * Env :=
  let (r, w) := fsMkdir path (world env) in
  (r, mkEnv w (effects env ++ [DirectoryMade path])).

Definition writeFile (path content : string) (env : Env) : promise unit * Env :=
  let (p, w) := fsWriteFile path content (world env) in
  (p, mkEnv w (effects env ++ [FileWritten path content])).

(** [x || d] on a string that may be undefined. *)
Definition orDefault (x : option string) (d : string) : string :=
  match x with
  | Some s => if JSString.truthy s then s else d
  | None => d
  end.

(** [response.content.find(b => b.type === 'text')?.text ?? ''] *)
Fixpoint firstText (content : list ContentBlock) : string :=
  match content with
  | [] => ""
  | TextBlock text :: _ => text
  | OtherBlock _ :: rest => firstText rest
  end.

(** The argument of [anthropic.messages.stream] in [generate]. *)
Definition buildRequest (prompt : string) (options : GenerateOptions) : MessageRequest :=
  let model := orDefault (opt_model options) "claude-sonnet-4-5" in
  let maxTokens :=
    match opt_maxTokens options with
    | Some n => orElse n (ofZ 8192)
    | None => ofZ 8192
    end in
  mkRequest model maxTokens
    (orDefault (opt_system options) "You are an expert educational content creator.")
    prompt.

Definition generate (prompt : string) (options : GenerateOptions) (env : Env)
  : promise string * Env :=
  let (response, env') := stream (buildRequest prompt options) env in
  (andThen firstText response, env').

(** [xs.map(f)] for a function [f] that starts an asynchronous operation:
    the operations are started in the order of the list. *)
Fixpoint startAll {A B : Type} (f : A -> Env -> promise B * Env) (xs : list A)
         (env : Env) : list (promise B) * Env :=
  match xs with
  | [] => ([], env)
  | x :: xs' =>
      let (p, env1) := f x env in
      let (ps, env2) := startAll f xs' env1 in
      (p :: ps, env2)
  end.

(** The function mapped over the prompts,
    [p => generate(p.prompt, { system: p.system, model: options.model,
                               maxTokens: options.maxTokens })]. *)
Definition generateOne (options : GenerateOptions) (p : PromptSpec) (env : Env)
  : promise string * Env :=
  generate (prompt p)
    (mkOptions (system p) (opt_model options) (opt_maxTokens options)) env.

Definition generateParallel (prompts : list PromptSpec) (options : GenerateOptions)
           (env : Env) : promise (list string) * Env :=
  let (pending, env') := startAll (generateOne options) prompts env in
  (Promise.all pending, env').

(** The world after the requests of a list have been issued in order. *)
Definition issueAll (requests : list MessageRequest) (w : World) : World :=
  fold_left (fun w request => snd (finalMessage request w)) requests w.

(** The request that [generateParallel] issues for an element of its list. *)
Definition requestOf (options : GenerateOptions) (p : PromptSpec) : MessageRequest :=
  buildRequest (prompt p)
    (mkOptions (system p) (opt_model options) (opt_maxTokens options)).

(* =================================================================== *)
(** ** The Chapter Content stage ([src/steps/chapter-content.ts]) *)
(* =================================================================== *)

(** The text of the prompt of a chapter ([buildChapterPrompt], a template
    filled with the fields of the outline and of the concepts), [path.join]
    and the conversion of a Number to a string are taken as given. *)
Variable buildChapterPrompt : ChapterOutline.t -> list Concept.t -> string -> string -> string.
Variable join : list string -> string.
Variable numberToString : number -> string.

Definition SYSTEM : string :=
  "You are an expert technical author and educator producing content for an intelligent textbook.
Your writing is rigorous, precise, and engaging. You use concrete examples, analogies, and visual structures
(tables, diagrams, callout boxes) to make complex ideas accessible without sacrificing depth.
You write for practitioners who want to genuinely understand a domain, not just pass a test.".

(** [s.padStart(2, '0')] *)
Definition padStart2 (s : string) : string :=
  match s with
  | EmptyString => "00"
  | String c EmptyString => String "0" (String c EmptyString)
  | _ => s
  end.

(** The elements of [chapters.map((ch, i) => ...)] with their indices. *)
Definition indexed {A : Type} (xs : list A) : list (A * nat) :=
  combine xs (seq 0 (List.length xs)).

Definition generateChapterContent (ctx : PipelineContext.t) (env : Env)
  : settled PipelineContext.t * Env :=
  let topic := TextbookConfig.topic (PipelineContext.config ctx) in
  let model := TextbookConfig.model (PipelineContext.config ctx) in
  let title :=
    match PipelineContext.courseDescription ctx with
    | Some d => CourseDescription.title d
    | None => topic
    end in
  let chapters := PipelineContext.chapters ctx ?? [] in
  let concepts := PipelineContext.concepts ctx ?? [] in
  if (List.length chapters =? 0)%nat then
    (Rejected (ErrorObject "Chapter structure must be generated before chapter content."), env)
  else
    (* Build prompts for all chapters *)
    let prompts :=
      map (fun ch => mkPrompt (buildChapterPrompt ch concepts title topic) (Some SYSTEM))
          chapters in
    let (batch, env1) :=
      generateParallel prompts (mkOptions None (Some model) (Some (ofZ 16384))) env in
    match outcome batch with
    | Rejected e => (Rejected e, env1)
    | Fulfilled results =>
        (* Write each chapter as a flat file: docs/chapters/chapter-NN.md *)
        let chaptersDir := join [PipelineContext.outputDir ctx; "docs"; "chapters"] in
        let (made, env2) := mkdir chaptersDir env1 in
        match made with
        | Rejected e => (Rejected e, env2)
        | Fulfilled _ =>
            let (writes, env3) :=
              startAll
                (fun '(ch, i) =>
                   let content :=
                     nth_error results i ??
                       ("# Chapter " ++ numberToString (ChapterOutline.number ch) ++ ": "
                          ++ ChapterOutline.title ch
                          ++ String "010" (String "010" "Content generation failed."))%string in
                   let paddedNum := padStart2 (numberToString (ChapterOutline.number ch)) in
                   let filename := ("chapter-" ++ paddedNum ++ ".md")%string in
                   writeFile (join [chaptersDir; filename]) content)
                (indexed chapters) env2 in
            match outcome (Promise.all writes) with
            | Rejected e => (Rejected e, env3)
            | Fulfilled _ => (Fulfilled ctx, env3)
            end
        end
    end.

(** A reason with which the world around the program rejects an operation:
    a request to the service, the creation of a directory or the writing of
    a file. *)
Definition EnvironmentReason (e : thrown) : Prop :=
  (exists request w, outcome (fst (finalMessage request w)) = Rejected e) \/
  (exists path w, fst (fsMkdir path w) = Rejected e) \/
  (exists path content w, outcome (fst (fsWriteFile path content w)) = Rejected e).

(** The list of prompts that the stage builds for its chapters. *)
Definition chapterPrompts (ctx : PipelineContext.t) (chapters : list ChapterOutline.t)
  : list PromptSpec :=
  let topic := TextbookConfig.topic (PipelineContext.config ctx) in
  let title :=
    match PipelineContext.courseDescription ctx with
    | Some d => CourseDescription.title d
    | None => topic
    end in
  map (fun ch =>
         mkPrompt (buildChapterPrompt ch (PipelineContext.concepts ctx ?? []) title topic)
                  (Some SYSTEM))
      chapters.

Definition chapterOptions (ctx : PipelineContext.t) : GenerateOptions :=
  mkOptions None (Some (TextbookConfig.model (PipelineContext.config ctx)))
            (Some (ofZ 16384)).

End GenerationService.

Arguments mkEnv {World} world effects.
Arguments world {World} e.
Arguments effects {World} e.

(* ===================================================================== *)
(** ** The orchestrator ([src/pipeline.ts]) *)
(* ===================================================================== *)

(** What the orchestrator reports on the terminal. *)
Inductive ConsoleEvent : Type :=
| Log (text : string)
| SpinnerStart (text : string)
| SpinnerSucceed (text : string)
| SpinnerFail (text : string).

Section Orchestrator.

Variable World : Type.

(** A stage function [(ctx: PipelineContext) => Promise<void>]: it runs on
    the shared context and on the world, and its promise is awaited. *)
Definition StageFn : Type :=
  PipelineContext.t -> World -> settled PipelineContext.t * World.

Record PipelineStep : Type := mkStep {
  name : string;
  emoji : string;
  fn : StageFn
}.

(** The twelve imported stage functions. *)
Variables courseDescription learningGraph chapterStructure chapterContent
          microsims glossary faq quizzes references mkdocsConfig metrics
          readme : StageFn.

Definition steps : list PipelineStep :=
  [ mkStep "Course Description" "1" courseDescription;
    mkStep "Learning Graph" "2" learningGraph;
    mkStep "Chapter Structure" "3" chapterStructure;
    mkStep "Chapter Content" "4" chapterContent;
    mkStep "MicroSims" "5" microsims;
    mkStep "Glossary" "6" glossary;
    mkStep "FAQ" "7" faq;
    mkStep "Quizzes" "8" quizzes;
    mkStep "References" "9" references;
    mkStep "MkDocs Config" "10" mkdocsConfig;
    mkStep "Metrics" "11" metrics;
    mkStep "README" "12" readme ].

(** The clock and the conversion of a Number to a string: the text
    [((Date.now() - start) / 1000).toFixed(1)] for the time spent between
    two states of the world. *)
Variable elapsed : World -> World -> string.
Variable numberToString : number -> string.

(** One call [step.fn(ctx)], with the state on which it was made. *)
Record Invocation : Type := mkInvocation {
  inv_step : PipelineStep;
  inv_ctx : PipelineContext.t;
  inv_world : World
}.

(** The state of a run: the context, the world, the terminal and the calls
    made so far. *)
Record RunState : Type := mkRun {
  run_ctx : PipelineContext.t;
  run_world : World;
  run_console : list ConsoleEvent;
  run_calls : list Invocation
}.

(** [[${i + 1}/${steps.length}] ${step.name}] *)
Definition label (i total : nat) (step : PipelineStep) : string :=
  ("[" ++ natToString (i + 1) ++ "/" ++ natToString total ++ "] " ++ name step)%string.

(** The loop [for (let i = 0; i < steps.length; i++)] from the index [i] on:
    [todo] holds the steps from [i] to the end. *)
Fixpoint runSteps (total i : nat) (todo : list PipelineStep) (st : RunState)
  : settled unit * RunState :=
  match todo with
  | [] => (Fulfilled tt, st)
  | step :: todo' =>
      let st1 :=
        mkRun (run_ctx st) (run_world st)
              (run_console st ++ [SpinnerStart (label i total step)])
              (run_calls st ++ [mkInvocation step (run_ctx st) (run_world st)]) in
      match fn step (run_ctx st) (run_world st) with
      | (Fulfilled ctx', w') =>
          runSteps total (S i) todo'
            (mkRun ctx' w'
               (run_console st1 ++
                  [SpinnerSucceed (label i total step ++ " (" ++ elapsed (run_world st) w' ++ "s)")%string])
               (run_calls st1))
      | (Rejected error, w') =>
          let msg := messageOf error in
          (Rejected error,
           mkRun (run_ctx st) w'
             (run_console st1 ++ [SpinnerFail (label i total step ++ ": " ++ msg)%string])
             (run_calls st1))
      end
  end.

(** The discipline of the loop, as a relation between the steps to run, the
    state on which the first of them is called, the calls made and the
    result: each step is called once its predecessor is fulfilled, on the
    context and the world that the predecessor left, and a rejected call is
    the last one. *)
Inductive SequentialRun
  : list PipelineStep -> PipelineContext.t -> World -> list Invocation -> settled unit -> Prop :=
| Run_done : forall ctx w, SequentialRun [] ctx w [] (Fulfilled tt)
| Run_next : forall step rest ctx w ctx' w' calls result,
    fn step ctx w = (Fulfilled ctx', w') ->
    SequentialRun rest ctx' w' calls result ->
    SequentialRun (step :: rest) ctx w (mkInvocation step ctx w :: calls) result
| Run_abort : forall step rest ctx w error w',
    fn step ctx w = (Rejected error, w') ->
    SequentialRun (step :: rest) ctx w [mkInvocation step ctx w] (Rejected error).

Definition banner (config : TextbookConfig.t) : list ConsoleEvent :=
  [ Log (String "010" "  create-intelligent-textbook" ++ String "010" "")%string;
    Log ("  Topic: " ++ TextbookConfig.topic config)%string;
    Log ("  Chapters: " ++ numberToString (TextbookConfig.chapters config)
           ++ " | Concepts: " ++ numberToString (TextbookConfig.concepts config)
           ++ " | MicroSims: " ++ numberToString (TextbookConfig.microsims config))%string;
    Log ("  Model: " ++ TextbookConfig.model config)%string;
    Log ("  Output: " ++ TextbookConfig.outputDir config ++ String "010" "")%string ].

Definition runPipeline (config : TextbookConfig.t) (w : World)
  : settled unit * RunState :=
  let ctx := PipelineContext.mk config None None None (TextbookConfig.outputDir config) in
  let st0 := mkRun ctx w (banner config) [] in
  match runSteps (List.length steps) 0 steps st0 with
  | (Rejected error, st) => (Rejected error, st)
  | (Fulfilled _, st) =>
      let done :=
        [ Log (String "010" "  Done in " ++ elapsed w (run_world st) ++ "s" ++ String "010" "")%string;
          Log ("  Output: " ++ TextbookConfig.outputDir config)%string ] in
      let deployHint :=
        match TextbookConfig.deploy config with
        | GithubPages =>
            [ Log ("  Deploy: Run 'cd " ++ TextbookConfig.outputDir config
                     ++ " && mkdocs gh-deploy' to publish")%string ]
        | NoDeploy => []
        end in
      (Fulfilled tt,
       mkRun (run_ctx st) (run_world st)
             (run_console st ++ done ++ deployHint ++ [Log ""])
             (run_calls st))
  end.

(** The display names of the steps, in the declared order. *)
Definition stageNames : list string :=
  ["Course Description"; "Learning Graph"; "Chapter Structure"; "Chapter Content";
   "MicroSims"; "Glossary"; "FAQ"; "Quizzes"; "References"; "MkDocs Config";
   "Metrics"; "README"].

Definition invokedNames (st : RunState) : list string :=
  map (fun call => name (inv_step call)) (run_calls st).

End Orchestrator.

(* ===================================================================== *)
(** ** The pages of the Learning Graph stage ([src/steps/learning-graph.ts]) *)
(* ===================================================================== *)

(** The binding [cleanTable] of [buildConceptMapMd]: the lines of the answer
    that contain the column separator, joined again,
    [rawTable.split('\n').filter(l => l.includes('|')).join('\n')]. *)
Definition cleanTable (rawTable : string) : string :=
  let tableLines := filter (includes "|") (JSString.split "010" rawTable) in
  JSString.join (String "010" "") tableLines.

(** The counters of [buildDependencyGraphMd]:
    [concepts.filter(c => c.taxonomy === level).length],
    [concepts.filter(c => c.dependencies.length > 0).length] and
    [concepts.filter(c => c.dependencies.length === 0).length]. *)
Definition byTaxonomy (level : string) (concepts : list Concept.t) : nat :=
  List.length (filter (fun c => String.eqb (Concept.taxonomy c) level) concepts).

Definition withDependencies (concepts : list Concept.t) : nat :=
  List.length (filter (fun c => (0 <? List.length (Concept.dependencies c))%nat) concepts).

Definition entryPoints (concepts : list Concept.t) : nat :=
  List.length (filter (fun c => (List.length (Concept.dependencies c) =? 0)%nat) concepts).

(* ===================================================================== *)
(** ** Regular expressions with alternatives and assertions *)
(* ===================================================================== *)

(** The constructs that the patterns of the command line and of the Course
    Description stage add to those of [RegExp]: alternatives, lazy
    repetition, look-ahead and the assertions [^] and [$].  The matcher is the
    backtracking matcher of ECMAScript again; it knows the whole input, which
    the assertions inspect. *)
Module JSRegExp.
Import RegExp.

Inductive pattern : Type :=
| Atom (r : regex)                    (* a pattern of [RegExp] *)
| Cat (p q : pattern)                 (* p q *)
| Alt (p q : pattern)                 (* p|q *)
| Lazy (p : pattern)                  (* p*?, lazy *)
| Capture (i : nat) (p : pattern)     (* the i-th capturing group *)
| Ahead (p : pattern)                 (* (?=p) *)
| Bol (multiline : bool)              (* ^, with or without the flag m *)
| Eol (multiline : bool).             (* $, with or without the flag m *)

(** [p?] *)
Definition Opt (p : pattern) : pattern := Alt p (Atom Empty).

Definition cats (ps : list pattern) : pattern := fold_right Cat (Atom Empty) ps.

(** The assertion [^] at the position where [s] is what is left of [input]. *)
Definition atLineStart (multiline : bool) (input s : string) : bool :=
  let position := String.length input - String.length s in
  (position =? 0)%nat ||
  multiline &&
  match String.get (position - 1) input with
  | Some c => isLineTerminator c
  | None => false
  end.

(** The assertion [$]. *)
Definition atLineEnd (multiline : bool) (s : string) : bool :=
  match s with
  | EmptyString => true
  | String c _ => multiline && isLineTerminator c
  end.

Fixpoint matchAt {R : Type} (input : string) (p : pattern) (s : string) (c : captures)
         (k : string -> captures -> option R) {struct p} : option R :=
  match p with
  | Atom r => matchHere r s c k
  | Cat p1 p2 => matchAt input p1 s c (fun s1 c1 => matchAt input p2 s1 c1 k)
  | Alt p1 p2 =>
      match matchAt input p1 s c k with
      | Some res => Some res
      | None => matchAt input p2 s c k
      end
  | Lazy p1 =>
      (fix iterate (fuel : nat) (s : string) (c : captures) {struct fuel} : option R :=
         match fuel with
         | O => k s c
         | S fuel' =>
             match k s c with
             | Some res => Some res
             | None =>
                 matchAt input p1 s c
                   (fun s1 c1 =>
                      if (String.length s1 <? String.length s)%nat
                      then iterate fuel' s1 c1 else None)
             end
         end) (String.length s) s c
  | Capture i p1 =>
      matchAt input p1 s c
        (fun s1 c1 =>
           k s1 ((i, substring 0 (String.length s - String.length s1) s) :: c1))
  | Ahead p1 =>
      match matchAt input p1 s c (fun _ c1 => Some c1) with
      | Some c1 => k s c1
      | None => None
      end
  | Bol multiline => if atLineStart multiline input s then k s c else None
  | Eol multiline => if atLineEnd multiline s then k s c else None
  end.

(** The leftmost match from the position where [s] is what is left of
    [input]. *)
Fixpoint execFrom (p : pattern) (input s : string) : option captures :=
  match matchAt input p s [] (fun _ c => Some c) with
  | Some c => Some c
  | None =>
      match s with
      | String _ s' => execFrom p input s'
      | EmptyString => None
      end
  end.

(** [input.match(p)] for a pattern without the flag [g], and [p.test(input)]. *)
Definition exec (p : pattern) (input : string) : option captures := execFrom p input input.

Definition test (p : pattern) (input : string) : bool :=
  match exec p input with Some _ => true | None => false end.

(** The loop of [input.replace(p, replacement)] for a pattern with the flag
    [g] and a replacement without [$]: every match is replaced, the text
    between the matches is kept, and after an empty match the search goes on
    one character further. *)
Fixpoint replaceLoop (p : pattern) (replacement input : string) (fuel : nat) (s : string)
  : string :=
  match fuel with
  | O => s
  | S fuel' =>
      let skip :=
        match s with
        | String a rest => String a (replaceLoop p replacement input fuel' rest)
        | EmptyString => EmptyString
        end in
      match matchAt input p s [] (fun s' _ => Some s') with
      | Some s' =>
          if (String.length s' <? String.length s)%nat
          then (replacement ++ replaceLoop p replacement input fuel' s')%string
          else (replacement ++ skip)%string
      | None => skip
      end
  end.

Definition replaceAll (p : pattern) (replacement input : string) : string :=
  replaceLoop p replacement input (S (String.length input)) input.

End JSRegExp.

(* ===================================================================== *)
(** ** The command line ([src/bin/cli.ts]) *)
(* ===================================================================== *)

Module SlugPatterns.
Import RegExp JSRegExp.

Definition isLowerAlnum (c : ascii) : bool :=
  let n := code c in ((97 <=? n) && (n <=? 122) || (48 <=? n) && (n <=? 57))%N.

(** [/[^a-z0-9]+/g] *)
Definition separators : pattern := Atom (Plus (Char (fun c => negb (isLowerAlnum c)))).

(** [/^-|-$/g] *)
Definition edgeHyphen : pattern :=
  Alt (Cat (Bol false) (Atom (chr "-"))) (Cat (Atom (chr "-")) (Eol false)).

End SlugPatterns.

Definition slugify (text : string) : string :=
  JSRegExp.replaceAll SlugPatterns.edgeHyphen ""
    (JSRegExp.replaceAll SlugPatterns.separators "-" (toLowerCase text)).

(** [parseInt(s, 10)]: leading white space is skipped, an optional sign is
    read, and the longest run of decimal digits that follows gives the
    value; without a digit the result is NaN.  (For more than 20 digits
    ECMAScript lets an implementation round the digits after the 20th to
    zero; here the value of the digits is rounded once.) *)
Definition parseInt10 (s : string) : number :=
  let (neg, u) := readSign (trimStart s) in
  match readDigits 10 decDigit u 0 0 with
  | (_, O, _) => NaN
  | (N0, S _, _) => S754_zero neg
  | (Npos p, S _, _) => binary_round prec emax neg p 0
  end.

(** The options of the command as [commander] hands them to the action:
    strings, with the declared default when an option is not given;
    [--repo] has no default. *)
Module CliOptions.
Record t : Type := mk {
  chapters : string;
  microsims : string;
  concepts : string;
  output : string;
  model : string;
  deploy : string;
  repo : option string
}.
End CliOptions.

(** What the action reads of the process: [process.cwd()] and
    [process.env.ANTHROPIC_API_KEY]. *)
Record Process : Type := mkProcess {
  cwd : string;
  apiKey : option string
}.

Section CommandLine.

Variable World : Type.
Variables courseDescription learningGraph chapterStructure chapterContent
          microsims glossary faq quizzes references mkdocsConfig metrics
          readme : StageFn World.
Variable elapsed : World -> World -> string.
Variable numberToString : number -> string.

(** [path.resolve] on two segments. *)
Variable resolve : string -> string -> string.

(** The configuration that the action builds.  The deployment target is
    only ever compared with 'github-pages'. *)
Definition configOf (topic : string) (opts : CliOptions.t) (proc : Process)
  : TextbookConfig.t :=
  let outputDir :=
    if JSString.truthy (CliOptions.output opts) then CliOptions.output opts
    else resolve (cwd proc) (slugify topic) in
  TextbookConfig.mk topic
    (parseInt10 (CliOptions.chapters opts))
    (parseInt10 (CliOptions.microsims opts))
    (parseInt10 (CliOptions.concepts opts))
    outputDir
    (CliOptions.model opts)
    (if String.eqb (CliOptions.deploy opts) "github-pages" then GithubPages else NoDeploy)
    (CliOptions.repo opts).

(** The end of the action: the status with which [process.exit] was called,
    if it was; the lines written with [console.error]; and the run of the
    orchestrator, if it was started. *)
Record Outcome : Type := mkOutcome {
  exitStatus : option nat;
  stderr : list string;
  pipeline : option (settled unit * RunState World)
}.

Definition action (topic : string) (opts : CliOptions.t) (proc : Process) (w : World)
  : Outcome :=
  let config := configOf topic opts proc in
  if negb (JSString.truthy (apiKey proc ?? "")) then
    mkOutcome (Some 1%nat)
      [ (String "010" "  Error: ANTHROPIC_API_KEY environment variable is required."
           ++ String "010" "")%string;
        ("  Set it with: export ANTHROPIC_API_KEY=" ++ String "034" "your-key"
           ++ String "034" (String "010" ""))%string ]
      None
  else
    let run :=
      runPipeline World courseDescription learningGraph chapterStructure chapterContent
                  microsims glossary faq quizzes references mkdocsConfig metrics readme
                  elapsed numberToString config w in
    match fst run with
    | Fulfilled _ => mkOutcome None [] (Some run)
    | Rejected error =>
        let msg := messageOf error in
        mkOutcome (Some 1%nat)
          [ (String "010" "  Pipeline failed: " ++ msg ++ String "010" "")%string ]
          (Some run)
    end.

End CommandLine.

(* ===================================================================== *)
(** ** The course-description extractor ([src/steps/course-description.ts]) *)
(* ===================================================================== *)

Module CoursePatterns.
Import RegExp JSRegExp.

(** [[\s\S]] and [\w] *)
Definition any : regex := Char (fun _ => true).
Definition word : regex :=
  Char (fun c =>
          let n := code c in
          ((97 <=? n) && (n <=? 122) || (65 <=? n) && (n <=? 90)
           || (48 <=? n) && (n <=? 57) || (n =? 95))%N).

(** [/##\s+NAME\s*\n+/i], the heading of the section NAME. *)
Definition heading (name : string) : regex :=
  seqs [liti "##"; Plus ws; liti name; Star ws; Plus (chr "010")].

(** [/##\s+Course Title\s*\n+([^\n#]+)/i] and
    [/##\s+Subtitle\s*\n+([^\n#]+)/i] *)
Definition line (name : string) : regex :=
  Seq (heading name) (Group 1 (Plus (notIn (String "010" "#")))).

(** [/##\s+NAME\s*\n+([\s\S]*?)(?=\n##|\n---)/i], for the sections Target
    Audience, Prerequisites and Topics Covered. *)
Definition section (name : string) : pattern :=
  cats [Atom (heading name); Capture 1 (Lazy (Atom any));
        Ahead (Alt (Atom (lit (String "010" "##"))) (Atom (lit (String "010" "---"))))].

(** [/##\s+Learning Outcomes\s*\n+([\s\S]*?)(?=\n##|\n---|$)/i] *)
Definition lastSection (name : string) : pattern :=
  cats [Atom (heading name); Capture 1 (Lazy (Atom any));
        Ahead (Alt (Atom (lit (String "010" "##")))
                   (Alt (Atom (lit (String "010" "---"))) (Eol false)))].

(** [/^[-*]\s+(?:P)?(.+)/i], where the optional prefix P is
    [Chapter\s+\d+:\s*]. *)
Definition topicLine : pattern :=
  cats [Bol false; Atom (Char (charIn "-*")); Atom (Plus ws);
        Opt (Atom (seqs [liti "Chapter"; Plus ws; Plus digit; liti ":"; Star ws]));
        Capture 1 (Atom (Plus dot))].

(** [/^\d+\.\s+(?:P)?(.+)/], where the optional prefix P is [\w+:\s*]. *)
Definition outcomeLine : pattern :=
  cats [Bol false; Atom (Plus digit); Atom (chr "."); Atom (Plus ws);
        Opt (Atom (seqs [Plus word; chr ":"; Star ws]));
        Capture 1 (Atom (Plus dot))].

End CoursePatterns.

(** The text of a one-line section, or the fallback:
    [m ? m[1].trim() : fallback]. *)
Definition lineOf (name raw fallback : string) : string :=
  match RegExp.exec (CoursePatterns.line name) raw with
  | Some m => trim (RegExp.group 1 m ?? "")
  | None => fallback
  end.

Definition sectionOf (name raw : string) : string :=
  match JSRegExp.exec (CoursePatterns.section name) raw with
  | Some m => trim (RegExp.group 1 m ?? "")
  | None => ""
  end.

(** The loop over the lines of a section,
    [for (const line of m[1].split('\n')) { const x = line.match(p);
       if (x) items.push(x[1].trim()); }],
    which is skipped when the section was not found. *)
Definition itemsOf (found : option RegExp.captures) (p : JSRegExp.pattern) : list string :=
  match found with
  | None => []
  | Some m =>
      fold_left
        (fun items line =>
           match JSRegExp.exec p line with
           | Some x => items ++ [trim (RegExp.group 1 x ?? "")]
           | None => items
           end)
        (JSString.split "010" (RegExp.group 1 m ?? "")) []
  end.

(** [while (topics.length < chapters) topics.push(`Chapter ${topics.length + 1}`)]
    for a chapter count that is a natural number; the loop runs at most
    [chapters] times. *)
Fixpoint padTopics (fuel chapters : nat) (topics : list string) : list string :=
  match fuel with
  | O => topics
  | S fuel' =>
      if (List.length topics <? chapters)%nat
      then padTopics fuel' chapters
             (topics ++ [("Chapter " ++ natToString (List.length topics + 1))%string])
      else topics
  end.

Definition parseCourseDescription (raw topic : string) (chapters : nat)
  : CourseDescription.t :=
  (* Extract title *)
  let title := lineOf "Course Title" raw topic in
  (* Extract subtitle *)
  let subtitle := lineOf "Subtitle" raw "" in
  (* Extract target audience *)
  let targetAudience := sectionOf "Target Audience" raw in
  (* Extract prerequisites *)
  let prerequisites := sectionOf "Prerequisites" raw in
  (* Extract topics: look for bullet lines under Topics section *)
  let topics :=
    itemsOf (JSRegExp.exec (CoursePatterns.section "Topics Covered") raw)
            CoursePatterns.topicLine in
  (* Pad or trim to match chapter count *)
  let topics := padTopics chapters chapters topics in
  (* Extract learning outcomes *)
  let learningOutcomes :=
    itemsOf (JSRegExp.exec (CoursePatterns.lastSection "Learning Outcomes") raw)
            CoursePatterns.outcomeLine in
  CourseDescription.mk title subtitle targetAudience prerequisites topics learningOutcomes raw.

(* ===================================================================== *)
(** ** The topics of the MicroSims ([src/steps/microsims.ts]) *)
(* ===================================================================== *)

Module SimTopic.
Record t : Type := mk {
  name : string;
  description : string;
  conceptName : string;
  chapter : number;
  chartType : string
}.
End SimTopic.

Definition chartTypes : list string :=
  ["bar"; "line"; "scatter"; "radar"; "doughnut"; "bubble"].

(** The first loop of [selectSimTopics], over the prioritized concepts: a
    concept is taken when its chapter has not been used yet; once [count]
    concepts are selected the loop is left, so the rest changes nothing. *)
Definition pickByChapter (count : nat) (prioritized : list Concept.t)
  : list Concept.t * list number :=
  fold_left
    (fun '(selected, usedChapters) c =>
       if (count <=? List.length selected)%nat then (selected, usedChapters)
       else if negb (existsb (sameValueZero (Concept.chapter c)) usedChapters)
            then (selected ++ [c], usedChapters ++ [Concept.chapter c])
            else (selected, usedChapters))
    prioritized ([], []).

(** The second loop, over all the concepts: a concept is added when no
    selected concept has its identifier. *)
Definition fillFromConcepts (count : nat) (concepts selected : list Concept.t)
  : list Concept.t :=
  fold_left
    (fun selected c =>
       if (count <=? List.length selected)%nat then selected
       else if negb (existsb (fun s => strictEq (Concept.id s) (Concept.id c)) selected)
            then selected ++ [c]
            else selected)
    concepts selected.

(** The third loop, [while (selected.length < count)], which adds generic
    concepts; it runs at most [count] times. *)
Fixpoint fillGeneric (fuel count : nat) (topic : string) (selected : list Concept.t)
  : list Concept.t :=
  match fuel with
  | O => selected
  | S fuel' =>
      if (List.length selected <? count)%nat
      then fillGeneric fuel' count topic
             (selected ++
                [Concept.mk (ofNat (List.length selected + 1))
                   (topic ++ " Concept " ++ natToString (List.length selected + 1))%string
                   (ofZ 1) [] "Core" "Apply"])
      else selected
  end.

(** [selectSimTopics] for a count that is a natural number.  The chapters are
    a parameter that the function does not use.  The index [i % 6] is always
    within the list of chart types. *)
Definition selectSimTopics (count : nat) (concepts : list Concept.t)
           (chapters : list ChapterOutline.t) (topic : string) : list SimTopic.t :=
  (* Prefer Core/Advanced concepts with Apply/Analyze/Evaluate/Create bloom levels *)
  let prioritized :=
    firstn (count * 2)
      (filter (fun c => existsb (String.eqb (Concept.bloomLevel c))
                                ["Apply"; "Analyze"; "Evaluate"; "Create"])
              concepts) in
  (* Pick evenly distributed across chapters *)
  let selected := fst (pickByChapter count prioritized) in
  (* Fill remaining if needed *)
  let selected := fillFromConcepts count concepts selected in
  (* If still not enough (e.g., no concepts), generate generic sim topics *)
  let selected := fillGeneric count count topic selected in
  map (fun '(c, i) =>
         SimTopic.mk
           (Concept.name c ++ " Explorer")%string
           ("An interactive simulation for exploring " ++ Concept.name c
              ++ " in the context of " ++ topic ++ ".")%string
           (Concept.name c)
           (Concept.chapter c)
           (nth (i mod List.length chartTypes) chartTypes ""))
      (indexed (firstn count selected)).

(** The HTML of a MicroSim ([extractHtml]). *)

(** [s.indexOf(needle)] and [s.lastIndexOf(needle)]; [None] stands for -1. *)
Fixpoint indexOf (needle s : string) : option nat :=
  if String.prefix needle s then Some 0%nat
  else match s with
       | String _ s' => option_map S (indexOf needle s')
       | EmptyString => None
       end.

Fixpoint lastIndexOf (needle s : string) : option nat :=
  match s with
  | EmptyString => if String.prefix needle s then Some 0%nat else None
  | String _ s' =>
      match lastIndexOf needle s' with
      | Some i => Some (S i)
      | None => if String.prefix needle s then Some 0%nat else None
      end
  end.

(** [s.slice(start, end)] for two indices that are not negative. *)
Definition slice (start stop : nat) (s : string) : string :=
  substring start (stop - start) s.

Module HtmlPatterns.
Import RegExp JSRegExp.

(** The pattern of a fenced block, with the flag [i]: three backquotes, an
    optional [html], [\s*\n], the lazy group [([\s\S]*?)] and three
    backquotes. *)
Definition fence : pattern :=
  cats [Atom (lit "```"); Opt (Atom (liti "html")); Atom (Seq (Star ws) (chr "010"));
        Capture 1 (Lazy (Atom CoursePatterns.any)); Atom (lit "```")].

End HtmlPatterns.

Definition extractHtml (raw : string) : string :=
  (* Strip markdown code fences if present *)
  match JSRegExp.exec HtmlPatterns.fence raw with
  | Some fenceMatch => trim (RegExp.group 1 fenceMatch ?? "")
  | None =>
      (* If it starts with <!DOCTYPE or <html, return as-is *)
      if String.prefix "<!DOCTYPE" (trimStart raw) || String.prefix "<html" (trimStart raw)
      then trim raw
      else
        (* Extract from first DOCTYPE to last </html> *)
        match indexOf "<!DOCTYPE" raw, lastIndexOf "</html>" raw with
        | Some doctypeIdx, Some htmlCloseIdx =>
            slice doctypeIdx (htmlCloseIdx + String.length "</html>") raw
        | _, _ => trim raw
        end
  end.

(* ===================================================================== *)
(** ** The Chapter Structure stage ([src/steps/chapter-structure.ts]) *)
(* ===================================================================== *)

(** [ToLength] of a Number: the integer part, between 0 and 2^53 - 1. *)
Definition toLength (x : number) : N :=
  match x with
  | S754_finite false m e => N.min (Z.to_N (Z.shiftl (Zpos m) e)) (2 ^ 53 - 1)
  | S754_infinity false => (2 ^ 53 - 1)%N
  | _ => 0%N
  end.

(** The number of elements of [Array.from({ length: x }, f)]; the
    construction of an array of 2^32 elements or more throws a RangeError,
    for which [None] stands. *)
Definition arrayFromLength (x : number) : option nat :=
  let len := toLength x in
  if (len <? 2 ^ 32)%N then Some (N.to_nat len) else None.

Module ChapterStructure.

Definition SYSTEM : string :=
  "You are an expert curriculum architect and technical author.
You design clear, coherent chapter structures that build knowledge progressively.
Each chapter outline you write gives authors everything they need to produce rich, substantive content.".

Section Stage.

Variable World : Type.
Variable finalMessage : MessageRequest -> World -> promise (list ContentBlock) * World.
Variable fsMkdir : string -> World -> settled unit * World.
Variable fsWriteFile : string -> string -> World -> promise unit * World.
Variable join : list string -> string.
Variable numberToString : number -> string.

(** The text of the prompt, a template filled with the title, the topic,
    the list of the chapters and the chapter count, is taken as given. *)
Variable outlinePrompt : string -> string -> string -> number -> string.

(** The per-chapter concept summary: for every concept, in order,
    [if (!map[c.chapter]) map[c.chapter] = []; map[c.chapter].push(`${c.id}. ${c.name}`)].
    The keys of the object are the chapters converted to strings; two
    Numbers give the same key exactly when they are the same value, the two
    zeros being one. *)
Definition chapterConceptMap (concepts : list Concept.t) : ConceptMap :=
  fold_left
    (fun (conceptMap : ConceptMap) c =>
       let key := Concept.chapter c in
       let entries := conceptMap key ?? [] in
       let entry := (numberToString (Concept.id c) ++ ". " ++ Concept.name c)%string in
       fun n => if sameValueZero n key then Some (entries ++ [entry]) else conceptMap n)
    concepts (fun _ => None).

(** One element of the list of the chapters of the prompt, for the index
    [i] of [Array.from]. *)
Definition chapterListItem (courseTopics : list string) (conceptMap : ConceptMap) (i : nat)
  : string :=
  let n := (i + 1)%nat in
  let topicTitle := nth_error courseTopics i ?? ("Chapter " ++ natToString n)%string in
  let conceptList := JSString.join ", " (firstn 8 (conceptMap (ofNat n) ?? [])) in
  ("Chapter " ++ natToString n ++ ": " ++ topicTitle ++ String "010" "  Key concepts: "
     ++ (if JSString.truthy conceptList then conceptList else "TBD"))%string.

Definition buildChaptersIndex (title : string) (chapters : list ChapterOutline.t) : string :=
  (* Link to flat chapter files: chapter-NN.md *)
  let rows :=
    JSString.join (String "010" "")
      (map (fun ch =>
              let paddedNum := padStart2 (numberToString (ChapterOutline.number ch)) in
              ("| [Chapter " ++ numberToString (ChapterOutline.number ch) ++ ": "
                 ++ ChapterOutline.title ch ++ "](chapter-" ++ paddedNum ++ ".md) | "
                 ++ natToString (List.length (ChapterOutline.concepts ch)) ++ " concepts | "
                 ++ ChapterOutline.summary ch ++ " |")%string)
           chapters) in
  let links :=
    JSString.join (String "010" "")
      (map (fun ch =>
              let paddedNum := padStart2 (numberToString (ChapterOutline.number ch)) in
              ("- [Chapter " ++ numberToString (ChapterOutline.number ch) ++ ": "
                 ++ ChapterOutline.title ch ++ "](chapter-" ++ paddedNum ++ ".md)")%string)
           chapters) in
  ("# Chapters: " ++ title ++ "

This textbook is organized into " ++ natToString (List.length chapters) ++ " chapters, each building on the concepts and skills developed in previous chapters.

## Chapter Overview

| Chapter | Concepts | Summary |
|---------|----------|---------|
" ++ rows ++ "

## Quick Navigation

" ++ links ++ "
")%string.

(** The stage.  The list of the chapters of the prompt is built with
    [Array.from({ length: chapters }, ...)]; a chapter count of 2^32 or more
    makes it throw before anything is done (the message is that of V8).
    Below 2^32 the rounds of the loop of [parseChapterOutlines] are as many
    as the elements of that list. *)
Definition generateChapterStructure (ctx : PipelineContext.t) (env : Env World)
  : settled PipelineContext.t * Env World :=
  let topic := TextbookConfig.topic (PipelineContext.config ctx) in
  let chapters := TextbookConfig.chapters (PipelineContext.config ctx) in
  let model := TextbookConfig.model (PipelineContext.config ctx) in
  let title :=
    match PipelineContext.courseDescription ctx with
    | Some d => CourseDescription.title d
    | None => topic
    end in
  let courseTopics :=
    match PipelineContext.courseDescription ctx with
    | Some d => CourseDescription.topics d
    | None => []
    end in
  let concepts := PipelineContext.concepts ctx ?? [] in
  (* Build a per-chapter concept summary for the prompt *)
  let conceptMap := chapterConceptMap concepts in
  match arrayFromLength chapters with
  | None => (Rejected (ErrorObject "Invalid array length"), env)
  | Some count =>
      let chapterList :=
        JSString.join (String "010" (String "010" ""))
          (map (chapterListItem courseTopics conceptMap) (seq 0 count)) in
      let prompt := outlinePrompt title topic chapterList chapters in
      let (answer, env1) :=
        generate World finalMessage prompt
          (mkOptions (Some SYSTEM) (Some model) (Some (ofZ 8192))) env in
      match outcome answer with
      | Rejected e => (Rejected e, env1)
      | Fulfilled raw =>
          let chapterOutlines := parseChapterOutlines raw count courseTopics conceptMap in
          let ctx' :=
            PipelineContext.mk (PipelineContext.config ctx)
              (PipelineContext.courseDescription ctx) (PipelineContext.concepts ctx)
              (Some chapterOutlines) (PipelineContext.outputDir ctx) in
          let chaptersDir := join [PipelineContext.outputDir ctx; "docs"; "chapters"] in
          let (made, env2) := mkdir World fsMkdir chaptersDir env1 in
          match made with
          | Rejected e => (Rejected e, env2)
          | Fulfilled _ =>
              (* Write chapters overview index *)
              let indexMd := buildChaptersIndex title chapterOutlines in
              let (written, env3) :=
                writeFile World fsWriteFile (join [chaptersDir; "index.md"]) indexMd env2 in
              match outcome written with
              | Rejected e => (Rejected e, env3)
              | Fulfilled _ => (Fulfilled ctx', env3)
              end
          end
      end
  end.

End Stage.
End ChapterStructure.

(* ===================================================================== *)
(** ** The Quizzes stage ([src/steps/quizzes.ts]) *)
(* ===================================================================== *)

Module Quizzes.

(** An element of the list of the chapters of the stage,
    [{ number, title }]. *)
Record ChapterRef : Type := mkRef {
  number : JSNumber.number;
  title : string
}.

Section Stage.

Variable World : Type.
Variable finalMessage : MessageRequest -> World -> promise (list ContentBlock) * World.
Variable fsMkdir : string -> World -> settled unit * World.
Variable fsWriteFile : string -> string -> World -> promise unit * World.
Variable join : list string -> string.
Variable numberToString : JSNumber.number -> string.

(** The system text of the stage, a constant that holds a character beyond
    U+00FF, and the text of the prompt of a quiz ([buildQuizPrompt], a
    template filled with the number and the title of the chapter, the topic
    and the names of the concepts of the chapter) are taken as given. *)
Variable SYSTEM : string.
Variable buildQuizPrompt : JSNumber.number -> string -> string -> list string -> string.

(** The concept name lookup by chapter, a [Map] from Numbers:
    [const list = map.get(concept.chapter) ?? []; list.push(concept.name);
     map.set(concept.chapter, list)] for every concept, in order.  The keys of
    a [Map] are compared with SameValueZero. *)
Definition conceptsByChapter (concepts : list Concept.t)
  : JSNumber.number -> option (list string) :=
  fold_left
    (fun (lookup : JSNumber.number -> option (list string)) concept =>
       let list := lookup (Concept.chapter concept) ?? [] in
       fun n =>
         if sameValueZero n (Concept.chapter concept)
         then Some (list ++ [Concept.name concept])
         else lookup n)
    concepts (fun _ => None).

(** The list of the chapters: the outlines of the context when there are
    some, and otherwise one element for each configured chapter, built with
    [Array.from({ length: ctx.config.chapters }, ...)], which throws a
    RangeError for a length of 2^32 or more; [None] stands for that. *)
Definition chapterList (ctx : PipelineContext.t) : option (list ChapterRef) :=
  let chapters := PipelineContext.chapters ctx ?? [] in
  if (0 <? List.length chapters)%nat
  then Some (map (fun ch => mkRef (ChapterOutline.number ch) (ChapterOutline.title ch)) chapters)
  else
    match arrayFromLength (TextbookConfig.chapters (PipelineContext.config ctx)) with
    | None => None
    | Some count =>
        Some (map (fun i =>
                     mkRef (ofNat (i + 1))
                       (match PipelineContext.courseDescription ctx with
                        | Some d => nth_error (CourseDescription.topics d) i
                        | None => None
                        end ?? ("Chapter " ++ natToString (i + 1))%string))
                  (seq 0 count))
    end.

(** The prompts of the stage, one for each element of the list. *)
Definition quizPrompts (ctx : PipelineContext.t) (chapterList : list ChapterRef)
  : list PromptSpec :=
  let topic := TextbookConfig.topic (PipelineContext.config ctx) in
  let concepts := PipelineContext.concepts ctx ?? [] in
  map (fun ch =>
         mkPrompt
           (buildQuizPrompt (number ch) (title ch) topic
              (conceptsByChapter concepts (number ch) ?? []))
           (Some SYSTEM))
      chapterList.

Definition quizOptions (ctx : PipelineContext.t) : GenerateOptions :=
  mkOptions None (Some (TextbookConfig.model (PipelineContext.config ctx))) (Some (ofZ 4096)).

(** [xs.map(f)] for a function [f] that may throw before it starts its
    operation: the first throw ends the mapping. *)
Fixpoint startEach {A B : Type}
         (f : A -> Env World -> settled (promise B) * Env World) (xs : list A)
         (env : Env World) : settled (list (promise B)) * Env World :=
  match xs with
  | [] => (Fulfilled [], env)
  | x :: xs' =>
      let (started, env1) := f x env in
      match started with
      | Rejected e => (Rejected e, env1)
      | Fulfilled p =>
          let (rest, env2) := startEach f xs' env1 in
          match rest with
          | Rejected e => (Rejected e, env2)
          | Fulfilled ps => (Fulfilled (p :: ps), env2)
          end
      end
  end.

(** The function mapped over the results.  Reading [number] of an element
    that the list does not have throws a TypeError (the message is that of
    V8). *)
Definition writeQuiz (quizzesDir : string) (chapterList : list ChapterRef)
           (content : string) (index : nat) (env : Env World)
  : settled (promise unit) * Env World :=
  match nth_error chapterList index with
  | None =>
      (Rejected (ErrorObject "Cannot read properties of undefined (reading 'number')"), env)
  | Some ch =>
      let chapterNum := number ch in
      let filename := ("quiz-" ++ padStart2 (numberToString chapterNum) ++ ".md")%string in
      let (written, env') :=
        writeFile World fsWriteFile (join [quizzesDir; filename]) (trim content) env in
      (Fulfilled written, env')
  end.

Definition generateQuizzes (ctx : PipelineContext.t) (env : Env World)
  : settled PipelineContext.t * Env World :=
  (* Fall back: if no chapter outlines yet, generate one quiz per configured chapter count *)
  match chapterList ctx with
  | None => (Rejected (ErrorObject "Invalid array length"), env)
  | Some chapterList =>
      let prompts := quizPrompts ctx chapterList in
      let (batch, env1) := generateParallel World finalMessage prompts (quizOptions ctx) env in
      match outcome batch with
      | Rejected e => (Rejected e, env1)
      | Fulfilled results =>
          let quizzesDir := join [PipelineContext.outputDir ctx; "docs"; "quizzes"] in
          let (made, env2) := mkdir World fsMkdir quizzesDir env1 in
          match made with
          | Rejected e => (Rejected e, env2)
          | Fulfilled _ =>
              let (started, env3) :=
                startEach
                  (fun '(content, index) => writeQuiz quizzesDir chapterList content index)
                  (indexed results) env2 in
              match started with
              | Rejected e => (Rejected e, env3)
              | Fulfilled writes =>
                  match outcome (Promise.all writes) with
                  | Rejected e => (Rejected e, env3)
                  | Fulfilled _ => (Fulfilled ctx, env3)
                  end
              end
          end
      end
  end.

End Stage.
End Quizzes.

(* ===================================================================== *)
(** ** The page of the Glossary stage ([src/steps/glossary.ts]) *)
(* ===================================================================== *)

Module GlossaryPatterns.
Import RegExp JSRegExp.

(** [[A-Z]] *)
Definition isUpperAZ (c : ascii) : bool :=
  let n := code c in ((65 <=? n) && (n <=? 90))%N.

(** [/^##\s+[A-Z]/m] *)
Definition alphaHeader : pattern :=
  Cat (Bol true) (Atom (seqs [lit "##"; Plus ws; Char isUpperAZ])).

End GlossaryPatterns.

Section Glossary.

Variable numberToString : number -> string.

Definition buildGlossaryMd (title topic raw : string) (conceptCount : number) : string :=
  (* Check if raw already has the intro: if so, prepend just a header *)
  let hasAlphaHeaders := JSRegExp.test GlossaryPatterns.alphaHeader raw in
  if hasAlphaHeaders then
    (* The LLM returned well-structured content: prepend a page header *)
    ("# Glossary: " ++ title ++ "

This glossary defines " ++ numberToString conceptCount ++ " key concepts from the domain of " ++ topic ++ ",
following ISO 11179 metadata standards for precision and non-circularity.
Definitions are organized alphabetically and cross-referenced to the chapter where each concept is introduced.

---

" ++ raw ++ "
")%string
  else
    (* Fallback: raw content is usable as-is with a header *)
    ("# Glossary: " ++ title ++ "

This glossary covers " ++ numberToString conceptCount ++ " concepts from the domain of " ++ topic ++ ".

" ++ raw ++ "
")%string.

End Glossary.

(* ===================================================================== *)
(** ** The word count of the Metrics stage ([src/steps/metrics.ts]) *)
(* ===================================================================== *)

Module MetricsPatterns.
Import RegExp JSRegExp.

(** [p{0,n}], greedy. *)
Fixpoint atMost (n : nat) (p : pattern) : pattern :=
  match n with
  | O => Atom Empty
  | S n' => Opt (Cat p (atMost n' p))
  end.

(** The pattern of a code block: three backquotes, [[\s\S]*?] and three
    backquotes, with the flag [g]. *)
Definition codeBlock : pattern :=
  cats [Atom (lit "```"); Lazy (Atom CoursePatterns.any); Atom (lit "```")].

(** The pattern of inline code: a backquote, [[^`]+] and a backquote, with
    the flag [g]. *)
Definition inlineCode : pattern :=
  Atom (seqs [chr "`"; Plus (notIn "`"); chr "`"]).

(** [/#{1,6}\s/g] *)
Definition headingMark : pattern :=
  cats [Atom (chr "#"); atMost 5 (Atom (chr "#")); Atom ws].

(** [/[*_~[\]()#>|]/g] *)
Definition symbol : pattern := Atom (Char (charIn "*_~[]()#>|")).

(** [/https?:\/\/\S+/g] *)
Definition url : pattern :=
  cats [Atom (lit "http"); Opt (Atom (chr "s")); Atom (lit "://");
        Atom (Plus (Char (fun c => negb (isWhiteSpace c))))].

(** [/\s+/g] *)
Definition spaces : pattern := Atom (Plus ws).

End MetricsPatterns.

(** The five removals of [countWordsInFile]: code blocks, inline code,
    headings, markdown symbols and URLs, in this order. *)
Definition stripMarkdown (content : string) : string :=
  JSRegExp.replaceAll MetricsPatterns.url ""
    (JSRegExp.replaceAll MetricsPatterns.symbol ""
       (JSRegExp.replaceAll MetricsPatterns.headingMark ""
          (JSRegExp.replaceAll MetricsPatterns.inlineCode ""
             (JSRegExp.replaceAll MetricsPatterns.codeBlock "" content)))).

(** The count of [countWordsInFile] for the content of a file that was
    read. *)
Definition countWords (content : string) : nat :=
  (* Strip markdown syntax for a rough word count *)
  let stripped :=
    trim (JSRegExp.replaceAll MetricsPatterns.spaces " " (stripMarkdown content)) in
  if JSString.truthy stripped then List.length (JSString.split " " stripped) else 0%nat.

Section Metrics.

Variable World : Type.

(** [readFile(path, 'utf8')] of [node:fs/promises]. *)
Variable fsReadFile : string -> World -> settled string * World.

(** A file that cannot be read counts no word: [catch { return 0; }]. *)
Definition countWordsInFile (filePath : string) (w : World) : nat * World :=
  let (read, w') := fsReadFile filePath w in
  match read with
  | Fulfilled content => (countWords content, w')
  | Rejected _ => (0%nat, w')
  end.

End Metrics.

(* ===================================================================== *)
(** ** Vocabulary of the statements *)
(* ===================================================================== *)

(** [needle] occurs in [s]. *)
Definition Contains (needle s : string) : Prop :=
  exists before after : string, s = (before ++ needle ++ after)%string.

(** The elements that a partial function keeps, in order. *)
Fixpoint collect {A B : Type} (f : A -> option B) (xs : list A) : list B :=
  match xs with
  | [] => []
  | x :: xs' =>
      match f x with
      | Some y => y :: collect f xs'
      | None => collect f xs'
      end
  end.

(** A Number that is neither NaN nor a zero. *)
Definition nonZeroNumber (x : number) : bool := negb (isNaN x) && JSNumber.truthy x.

(** The record that [parseConceptTable] builds from the first six cells of a
    row. *)
Definition conceptOfCells (c1 c2 c3 c4 c5 c6 : string) : Concept.t :=
  Concept.mk (Number c1) c2 (orElse (Number c3) (ofZ 1))
             (parseDependencies (Number c1) c4)
             (normalizeTaxonomy c5) (normalizeBloom c6).

(** The lines of the text that contain the column separator. *)
Definition TableLine (raw line : string) : Prop :=
  In line (JSString.split "010" raw) /\ includes "|" line = true.

(** A string all of whose characters satisfy [p]. *)
Fixpoint allChars (p : ascii -> bool) (s : string) : bool :=
  match s with
  | EmptyString => true
  | String c s' => p c && allChars p s'
  end.

(** The value of a run of decimal digits. *)
Definition decimalValue (s : string) : N := fst (fst (readDigits 10 decDigit s 0 0)).

(** The least exponent of a binary64 value, -1074. *)
Definition emin : Z := SpecFloat.emin prec emax.

(** The exact value of a finite Number, in units of [2 ^ emin]. *)
Definition scaled (x : number) : Z :=
  match x with
  | S754_finite s m e => cond_Zopp s (Zpos m * 2 ^ (e - emin))
  | _ => 0
  end.

(** The order of the exact values of two Numbers, with the infinities at the
    ends; NaN is not comparable. *)
Definition exactLe (x y : number) : Prop :=
  match x, y with
  | S754_nan, _ | _, S754_nan => False
  | _, S754_infinity false => True
  | S754_infinity true, _ => True
  | S754_infinity false, _ => False
  | _, S754_infinity true => False
  | _, _ => (scaled x <= scaled y)%Z
  end.

(** The Numbers that a chapter number can be: zero, a positive finite value
    or infinity. *)
Definition countNumber (x : number) : Prop :=
  x = S754_zero false \/ x = S754_infinity false \/
  exists m e, x = S754_finite false m e /\ (emin <= e)%Z.

(** The words that a pattern matches, with the captures of the match (the
    latest first): the declarative reading of the patterns, without the
    priorities of the backtracking matcher. *)
Inductive Matches : RegExp.regex -> string -> RegExp.captures -> Prop :=
| M_char : forall (p : ascii -> bool) (a : ascii),
    p a = true -> Matches (RegExp.Char p) (String a EmptyString) []
| M_empty : Matches RegExp.Empty EmptyString []
| M_seq : forall r1 r2 w1 w2 c1 c2,
    Matches r1 w1 c1 -> Matches r2 w2 c2 -> Matches (RegExp.Seq r1 r2) (w1 ++ w2)%string (c2 ++ c1)
| M_star_stop : forall r, Matches (RegExp.Star r) EmptyString []
| M_star_more : forall r w1 w2 c1 c2,
    Matches r w1 c1 -> Matches (RegExp.Star r) w2 c2 -> Matches (RegExp.Star r) (w1 ++ w2)%string (c2 ++ c1)
| M_group : forall i r w c, Matches r w c -> Matches (RegExp.Group i r) w ((i, w) :: c).

(** A pattern without capturing groups. *)
Fixpoint groupFree (r : RegExp.regex) : bool :=
  match r with
  | RegExp.Char _ | RegExp.Empty => true
  | RegExp.Seq r1 r2 => groupFree r1 && groupFree r2
  | RegExp.Star r1 => groupFree r1
  | RegExp.Group _ _ => false
  end.

(** The order of two outlines by the exact value of their chapter numbers. *)
Definition outlineLe (a b : ChapterOutline.t) : Prop :=
  exactLe (ChapterOutline.number a) (ChapterOutline.number b).

(** [a.number <= b.number], the comparison of JavaScript. *)
Definition ascending (a b : ChapterOutline.t) : Prop :=
  le (ChapterOutline.number a) (ChapterOutline.number b) = true.

(** The blocks of the text that are not blank. *)
Definition blocksOf (raw : string) : list string :=
  filter (fun b => JSString.truthy (trim b)) (RegExp.split Patterns.delimiter raw).

(** The text of a piece before its first full stop, or the whole piece when
    it has none. *)
Fixpoint beforeFullStop (s : string) : string :=
  match s with
  | EmptyString => EmptyString
  | String c rest => if Ascii.eqb c "." then EmptyString else String c (beforeFullStop rest)
  end.

(** The chapter numbers from 1 to the required total that no parsed record
    carries. *)
Definition missingChapters (found : list number) (chapterCount : nat) : list nat :=
  filter (fun n => negb (existsb (sameValueZero (ofNat n)) found)) (seq 1 chapterCount).

(** A run in which the second stage fails with the error "boom". *)
Definition passStage : StageFn unit := fun ctx w => (Fulfilled ctx, w).
Definition failStage (message : string) : StageFn unit :=
  fun _ w => (Rejected (ErrorObject message), w).

Definition sampleConfig : TextbookConfig.t :=
  TextbookConfig.mk "Widgets" (ofZ 2) (ofZ 0) (ofZ 4) "widgets" "claude-sonnet-4-5" NoDeploy None.

Definition sampleRun : settled unit * RunState unit :=
  runPipeline unit passStage (failStage "boom") passStage passStage passStage passStage
              passStage passStage passStage passStage passStage passStage
              (fun _ _ => "0.0") (fun _ => "n") sampleConfig tt.

Definition sampleSteps : list (PipelineStep unit) :=
  steps unit passStage (failStage "boom") passStage passStage passStage passStage
        passStage passStage passStage passStage passStage passStage.

(** A world in which every request and every file operation succeeds, and a
    context in which the Chapter Structure stage has not run. *)
Definition quietService (request : MessageRequest) (w : unit)
  : promise (list ContentBlock) * unit :=
  (mkPromise (Fulfilled [TextBlock (req_prompt request)]) 0, w).
Definition quietMkdir (path : string) (w : unit) : settled unit * unit := (Fulfilled tt, w).
Definition quietWriteFile (path content : string) (w : unit) : promise unit * unit :=
  (mkPromise (Fulfilled tt) 0, w).

Definition freshContext : PipelineContext.t :=
  PipelineContext.mk sampleConfig None None None "widgets".

Definition sampleChapterContent : PipelineContext.t -> Env unit -> settled PipelineContext.t * Env unit :=
  generateChapterContent unit quietService quietMkdir quietWriteFile
    (fun ch _ _ _ => ChapterOutline.title ch) (JSString.join "/") (fun _ => "1").

(** The kinds of the events on the terminal. *)
Definition isSpinner (e : ConsoleEvent) : bool :=
  match e with Log _ => false | _ => true end.
Definition isStart (e : ConsoleEvent) : bool :=
  match e with SpinnerStart _ => true | _ => false end.
Definition isSucceed (e : ConsoleEvent) : bool :=
  match e with SpinnerSucceed _ => true | _ => false end.
Definition isFail (e : ConsoleEvent) : bool :=
  match e with SpinnerFail _ => true | _ => false end.

(** A service that answers every request with the same content. *)
Definition constantService (content : list ContentBlock) (request : MessageRequest) (w : unit)
  : promise (list ContentBlock) * unit :=
  (mkPromise (Fulfilled content) 0, w).

(** A context with two outlines, the second of which repeats the number of
    the first. *)
Definition twoChapters : PipelineContext.t :=
  PipelineContext.mk sampleConfig None None
    (Some [ChapterOutline.mk (ofZ 1) "One" "" []; ChapterOutline.mk (ofZ 1) "Uno" "" []])
    "widgets".

(** What is left of a string after its leading characters of a class. *)
Fixpoint skipClass (p : ascii -> bool) (s : string) : string :=
  match s with
  | String a r => if p a then skipClass p r else s
  | EmptyString => EmptyString
  end.

(** A string of lower-case letters, digits and hyphens in which every hyphen
    is followed by a letter or a digit or, when [atEnd] holds, by nothing. *)
Fixpoint hyphens (atEnd : bool) (s : string) : bool :=
  match s with
  | EmptyString => true
  | String c s' =>
      (SlugPatterns.isLowerAlnum c ||
       Ascii.eqb c "-" &&
       match s' with
       | String d _ => SlugPatterns.isLowerAlnum d
       | EmptyString => atEnd
       end) && hyphens atEnd s'
  end.

(** A slug: lower-case letters and digits, with single hyphens between them. *)
Definition isSlug (s : string) : bool :=
  match s with
  | EmptyString => true
  | String c _ => SlugPatterns.isLowerAlnum c && hyphens false s
  end.

Definition dropFirstHyphen (s : string) : string :=
  match s with
  | String c r => if Ascii.eqb c "-" then r else s
  | EmptyString => EmptyString
  end.

Fixpoint dropLastHyphen (s : string) : string :=
  match s with
  | EmptyString => EmptyString
  | String c EmptyString => if Ascii.eqb c "-" then EmptyString else s
  | String c r => String c (dropLastHyphen r)
  end.

Definition sampleOptions : CliOptions.t :=
  CliOptions.mk "12" "5" "200" "" "claude-sonnet-4-5" "none" None.

Definition sampleAction (proc : Process) : Outcome unit :=
  action unit passStage (failStage "boom") passStage passStage passStage passStage
         passStage passStage passStage passStage passStage passStage
         (fun _ _ => "0.0") (fun _ => "n") (fun a b => (a ++ "/" ++ b)%string)
         "Widgets" sampleOptions proc tt.

(** The topics that the answer lists under "Topics Covered". *)
Definition listedTopics (raw : string) : list string :=
  itemsOf (JSRegExp.exec (CoursePatterns.section "Topics Covered") raw)
          CoursePatterns.topicLine.

Definition sampleCourse : string :=
  "## Topics Covered
- Chapter 1: Bolts
* Nuts and Washers
- Chapter 3:Assemblies
not a topic

## Learning Outcomes
1. Remember: List the parts
".

(** The generic topic of the position [k] (from 1). *)
Definition genericTopic (topic : string) (k : nat) : SimTopic.t :=
  let name := (topic ++ " Concept " ++ natToString k)%string in
  SimTopic.mk (name ++ " Explorer")%string
    ("An interactive simulation for exploring " ++ name
       ++ " in the context of " ++ topic ++ ".")%string
    name (ofZ 1) (nth ((k - 1) mod 6) chartTypes "").

(** The conversion of a Number to a string on the integers from 0 up: the
    decimal digits of the integer. *)
Definition integerToString (x : number) : string :=
  match x with
  | S754_finite false m e => natToString (Z.to_nat (Z.shiftl (Zpos m) e))
  | _ => "0"
  end.

(** The title and the topics that the stages read from the context:
    [ctx.courseDescription?.title ?? topic] and
    [ctx.courseDescription?.topics ?? []]. *)
Definition titleOf (ctx : PipelineContext.t) : string :=
  match PipelineContext.courseDescription ctx with
  | Some d => CourseDescription.title d
  | None => TextbookConfig.topic (PipelineContext.config ctx)
  end.

Definition topicsOf (ctx : PipelineContext.t) : list string :=
  match PipelineContext.courseDescription ctx with
  | Some d => CourseDescription.topics d
  | None => []
  end.

(** The context once the Chapter Structure stage has set the outlines. *)
Definition withChapters (ctx : PipelineContext.t) (outlines : list ChapterOutline.t)
  : PipelineContext.t :=
  PipelineContext.mk (PipelineContext.config ctx) (PipelineContext.courseDescription ctx)
    (PipelineContext.concepts ctx) (Some outlines) (PipelineContext.outputDir ctx).

(** The Chapter Structure stage in a world in which every request is
    answered with the text of its prompt and every file operation succeeds,
    and the context that it leaves when it starts from the fresh one. *)
Definition sampleChapterStructure : PipelineContext.t -> Env unit -> settled PipelineContext.t * Env unit :=
  ChapterStructure.generateChapterStructure unit quietService quietMkdir quietWriteFile
    (JSString.join "/") integerToString (fun title _ _ _ => title).

Definition sampleAfterStructure : PipelineContext.t :=
  match fst (sampleChapterStructure freshContext (mkEnv tt [])) with
  | Fulfilled ctx => ctx
  | Rejected _ => freshContext
  end.

(** The name of the file of a chapter, [chapter-NN.md]. *)
Definition chapterFile (numberToString : number -> string) (ch : ChapterOutline.t) : string :=
  ("chapter-" ++ padStart2 (numberToString (ChapterOutline.number ch)) ++ ".md")%string.

(** The name of the file of a quiz, [quiz-NN.md]. *)
Definition quizFile (numberToString : number -> string) (ch : Quizzes.ChapterRef) : string :=
  ("quiz-" ++ padStart2 (numberToString (Quizzes.number ch)) ++ ".md")%string.

(** The Quizzes stage in the world in which every request is answered with
    the text of its prompt, padded here with white space, and every file
    operation succeeds. *)
Definition sampleQuizzes : PipelineContext.t -> Env unit -> settled PipelineContext.t * Env unit :=
  Quizzes.generateQuizzes unit quietService quietMkdir quietWriteFile
    (JSString.join "/") integerToString "system"
    (fun _ title _ _ => (" " ++ title ++ String "010" "")%string).

(** A text in which some line starts with [##], white space and a capital
    letter from A to Z.  The white space may hold line breaks. *)
Definition AlphaHeading (raw : string) : Prop :=
  exists (before space : string) (c : ascii) (rest : string),
    raw = (before ++ "##" ++ space ++ String c rest)%string /\
    (before = "" \/
     exists b t, before = (b ++ String t "")%string /\ isLineTerminator t = true) /\
    space <> "" /\ allChars isWhiteSpace space = true /\
    GlossaryPatterns.isUpperAZ c = true.

(** The number of words of a text, a word being a longest run of characters
    that are not white space; [inWord] tells whether the character before
    the text belongs to a word. *)
Fixpoint wordsFrom (inWord : bool) (text : string) : nat :=
  match text with
  | EmptyString => 0
  | String a rest =>
      if isWhiteSpace a then wordsFrom false rest
      else ((if inWord then 0 else 1) + wordsFrom true rest)%nat
  end.

Definition words (text : string) : nat := wordsFrom false text.

(** A text in which every run of white space is replaced by one space;
    [afterSpace] tells whether the character before the text is white
    space. *)
Fixpoint squeezeFrom (afterSpace : bool) (text : string) : string :=
  match text with
  | EmptyString => EmptyString
  | String a rest =>
      if isWhiteSpace a
      then if afterSpace then squeezeFrom true rest else String " " (squeezeFrom true rest)
      else String a (squeezeFrom false rest)
  end.

(** The number of spaces of a text. *)
Fixpoint spacesIn (text : string) : nat :=
  match text with
  | EmptyString => 0
  | String a rest => ((if Ascii.eqb a " " then 1 else 0) + spacesIn rest)%nat
  end.

(** The characters that the removals look for at the start of a match. *)
Definition markupChar (c : ascii) : bool := RegExp.charIn "`*_~[]()#>|" c.

(* ===================================================================== *)
(** * Properties *)
(* ===================================================================== *)

(** ** Strings *)

Lemma prefix_iff (p s : string) :
  String.prefix p s = true <-> exists rest, s = (p ++ rest)%string.
Proof.
  revert s; induction p as [|a p IH]; intros s.
  - split; [intros _; now exists s | intros _; now destruct s].
  - destruct s as [|b s]; simpl.
    + split; [discriminate | intros [rest H]; discriminate].
    + destruct (ascii_dec a b) as [Hab|Hab].
      * rewrite IH. split; intros [rest H]; exists rest; [now subst | now inversion H].
      * split; [discriminate | intros [rest H]; inversion H; congruence].
Qed.

Lemma string_app_assoc (a b c : string) :
  ((a ++ b) ++ c = a ++ (b ++ c))%string.
Proof. induction a as [|x a IH]; simpl; [reflexivity | now rewrite IH]. Qed.

Lemma includes_nil (needle : string) :
  includes needle "" = String.prefix needle "" || false.
Proof. reflexivity. Qed.

Lemma includes_cons (needle : string) (a : ascii) (s : string) :
  includes needle (String a s) = String.prefix needle (String a s) || includes needle s.
Proof. reflexivity. Qed.

Lemma includes_iff (needle s : string) :
  includes needle s = true <-> Contains needle s.
Proof.
  unfold Contains. induction s as [|a s IH].
  - rewrite includes_nil, orb_false_r, prefix_iff. split.
    + intros [rest H]. now exists ""%string, rest.
    + intros [[|b before] [after H]]; [now exists after | discriminate].
  - rewrite includes_cons, orb_true_iff, IH, prefix_iff. split.
    + intros [[rest H] | [before [after H]]].
      * now exists ""%string, rest.
      * exists (String a before), after. simpl. now rewrite H.
    + intros [[|b before] [after H]].
      * left. now exists after.
      * right. simpl in H. inversion H. now exists before, after.
Qed.

Lemma includes_false_iff (needle s : string) :
  includes needle s = false <-> ~ Contains needle s.
Proof.
  rewrite <- includes_iff. destruct (includes needle s); split; congruence.
Qed.

(** ** The loops that push *)

Lemma fold_push_collect {A B : Type} (f : A -> option B) (xs : list A) (acc : list B) :
  fold_left (fun out x => match f x with Some y => out ++ [y] | None => out end) xs acc
  = acc ++ collect f xs.
Proof.
  revert acc; induction xs as [|x xs IH]; intros acc; simpl.
  - now rewrite app_nil_r.
  - rewrite IH. destruct (f x); [now rewrite <- app_assoc | reflexivity].
Qed.

Lemma collect_app {A B : Type} (f : A -> option B) (xs ys : list A) :
  collect f (xs ++ ys) = collect f xs ++ collect f ys.
Proof.
  induction xs as [|x xs IH]; simpl; [reflexivity|].
  destruct (f x); simpl; now rewrite IH.
Qed.

Lemma collect_length {A B : Type} (f : A -> option B) (xs : list A) :
  (List.length (collect f xs) <= List.length xs)%nat.
Proof.
  induction xs as [|x xs IH]; simpl; [lia|]. destruct (f x); simpl; lia.
Qed.

Lemma in_collect {A B : Type} (f : A -> option B) (xs : list A) (y : B) :
  In y (collect f xs) <-> exists x, In x xs /\ f x = Some y.
Proof.
  induction xs as [|x xs IH]; simpl.
  - split; [contradiction | intros [x [[] _]]].
  - destruct (f x) as [y'|] eqn:E; simpl; rewrite IH; split.
    + intros [->|[x' [Hin Hx']]]; [now exists x; auto | exists x'; auto].
    + intros [x' [[->|Hin] Hx']]; [left; congruence | right; now exists x'].
    + intros [x' [Hin Hx']]; exists x'; auto.
    + intros [x' [[->|Hin] Hx']]; [congruence | now exists x'].
Qed.

Lemma parseConceptTable_collect (raw : string) :
  parseConceptTable raw = collect parseConceptRow (tableLines raw).
Proof. unfold parseConceptTable. now rewrite fold_push_collect. Qed.

(** ** Taxonomy *)

(** C8. Taxonomy normalization sends every input whose lower-case form
    contains "found" to Foundation, every other input whose lower-case form
    contains "adv" to Advanced, and everything else to Core; "Foundational",
    "foundation" and "FOUND" give Foundation and an unrecognized text gives
    Core. *)
Theorem normalizeTaxonomy_cases :
  forall raw : string,
    (Contains "found" (toLowerCase raw) -> normalizeTaxonomy raw = "Foundation") /\
    (~ Contains "found" (toLowerCase raw) -> Contains "adv" (toLowerCase raw) ->
     normalizeTaxonomy raw = "Advanced") /\
    (~ Contains "found" (toLowerCase raw) -> ~ Contains "adv" (toLowerCase raw) ->
     normalizeTaxonomy raw = "Core") /\
    normalizeTaxonomy "Foundational" = "Foundation" /\
    normalizeTaxonomy "foundation" = "Foundation" /\
    normalizeTaxonomy "FOUND" = "Foundation" /\
    normalizeTaxonomy "Intermediate" = "Core".
Proof.
  intros raw. unfold normalizeTaxonomy.
  repeat split; try reflexivity.
  - intros H. apply includes_iff in H. now rewrite H.
  - intros Hf Ha. apply includes_false_iff in Hf. apply includes_iff in Ha.
    now rewrite Hf, Ha.
  - intros Hf Ha. apply includes_false_iff in Hf. apply includes_false_iff in Ha.
    now rewrite Hf, Ha.
Qed.

Lemma normalizeTaxonomy_cases_witness :
  Contains "found" (toLowerCase "Pre-FOUNDational") /\
  normalizeTaxonomy "Pre-FOUNDational" = "Foundation" /\
  normalizeTaxonomy "ADVANCED topic" = "Advanced" /\
  normalizeTaxonomy "" = "Core".
Proof.
  assert (H : Contains "found" (toLowerCase "Pre-FOUNDational"))
    by (exists "pre-"%string, "ational"%string; reflexivity).
  split; [exact H|]. split; [|split].
  - exact (proj1 (normalizeTaxonomy_cases "Pre-FOUNDational") H).
  - apply (proj1 (proj2 (normalizeTaxonomy_cases "ADVANCED topic"))).
    + apply includes_false_iff. reflexivity.
    + exists ""%string, "anced topic"%string. reflexivity.
  - apply (proj1 (proj2 (proj2 (normalizeTaxonomy_cases "")))).
    + apply includes_false_iff. reflexivity.
    + apply includes_false_iff. reflexivity.
Defined.

(** ** The concept-table extractor *)

Lemma split_nonempty (sep : ascii) (s : string) : JSString.split sep s <> [].
Proof.
  induction s as [|c s IH]; simpl; [discriminate|].
  destruct (Ascii.eqb c sep); [discriminate|].
  destruct (JSString.split sep s); discriminate.
Qed.

Lemma split_app (sep : ascii) (a b : string) :
  JSString.split sep (a ++ String sep b)%string
  = JSString.split sep a ++ JSString.split sep b.
Proof.
  induction a as [|c a IH]; simpl.
  - now rewrite Ascii.eqb_refl.
  - destruct (Ascii.eqb c sep); [now rewrite IH|].
    rewrite IH. pose proof (split_nonempty sep a) as Hne.
    destruct (JSString.split sep a); [contradiction | reflexivity].
Qed.

Lemma tableLines_iff (raw line : string) :
  In line (tableLines raw) <-> TableLine raw line.
Proof. unfold tableLines, TableLine. apply filter_In. Qed.

Lemma includes_char_cons (x c : ascii) (s : string) :
  includes (String x "") (String c s) = Ascii.eqb x c || includes (String x "") s.
Proof.
  rewrite includes_cons. f_equal. simpl.
  destruct (ascii_dec x c) as [->|Hne].
  - rewrite Ascii.eqb_refl. now destruct s.
  - symmetry. now apply Ascii.eqb_neq.
Qed.

Lemma includes_char_piece (x sep : ascii) (s piece : string) :
  In piece (JSString.split sep s) ->
  includes (String x "") piece = true -> includes (String x "") s = true.
Proof.
  revert piece. induction s as [|c s IH]; intros piece Hin Hp.
  - simpl in Hin. destruct Hin as [<-|[]]. exact Hp.
  - rewrite includes_char_cons. apply orb_true_iff. simpl in Hin.
    destruct (Ascii.eqb c sep).
    + destruct Hin as [<-|Hin]; [discriminate | right; now apply (IH piece)].
    + pose proof (split_nonempty sep s) as Hne.
      destruct (JSString.split sep s) as [|p ps]; [contradiction|].
      destruct Hin as [<-|Hin].
      * rewrite includes_char_cons in Hp. apply orb_true_iff in Hp.
        destruct Hp as [Hp|Hp]; [now left | right; apply (IH p); [now left | exact Hp]].
      * right. apply (IH piece); [now right | exact Hp].
Qed.

Lemma tableLines_without_separator (raw : string) :
  includes "|" raw = false -> tableLines raw = [].
Proof.
  intros H. unfold tableLines.
  assert (Hall : forall l, In l (JSString.split "010" raw) -> includes "|" l = false).
  { intros l Hl. destruct (includes "|" l) eqn:E; [|reflexivity].
    rewrite (includes_char_piece "|" "010" raw l Hl E) in H. discriminate. }
  induction (JSString.split "010" raw) as [|l ls IHl]; simpl; [reflexivity|].
  rewrite (Hall l (or_introl eq_refl)). apply IHl.
  intros l' Hl'. apply Hall. now right.
Qed.

Lemma parseConceptRow_some (line : string) (c : Concept.t) :
  parseConceptRow line = Some c ->
  exists c1 c2 c3 c4 c5 c6 rest,
    rowCells line = c1 :: c2 :: c3 :: c4 :: c5 :: c6 :: rest /\
    isNaN (Number c1) = false /\
    c = conceptOfCells c1 c2 c3 c4 c5 c6.
Proof.
  unfold parseConceptRow.
  destruct (rowCells line) as [|c1 [|c2 [|c3 [|c4 [|c5 [|c6 rest]]]]]]; try discriminate.
  cbn [List.length Nat.ltb Nat.leb nth_error nullish NumberOf].
  destruct (negb (JSString.truthy c1) || isNaN (Number c1)) eqn:E; [discriminate|].
  intros H. inversion H. apply orb_false_iff in E.
  exists c1, c2, c3, c4, c5, c6, rest. repeat split. apply E.
Qed.

Lemma rowCells_truthy (line cell : string) :
  In cell (rowCells line) -> JSString.truthy cell = true.
Proof. unfold rowCells. intros H. now apply filter_In in H. Qed.

Lemma parseConceptRow_six (line c1 c2 c3 c4 c5 c6 : string) (rest : list string) :
  rowCells line = c1 :: c2 :: c3 :: c4 :: c5 :: c6 :: rest ->
  isNaN (Number c1) = false ->
  parseConceptRow line = Some (conceptOfCells c1 c2 c3 c4 c5 c6).
Proof.
  intros Hcells Hnum. unfold parseConceptRow.
  assert (Ht : JSString.truthy c1 = true)
    by (apply (rowCells_truthy line); rewrite Hcells; now left).
  rewrite Hcells.
  cbn [List.length Nat.ltb Nat.leb nth_error nullish NumberOf].
  now rewrite Ht, Hnum.
Qed.

(** C5 (as the code has it).  The records are those of the lines that
    contain the separator, one for each line that gives a record, in the
    order of the lines.  A record comes only from a line whose first
    non-empty trimmed cell parses as a number and which has at least six
    such cells, and it is the record built from the first six cells of that
    line; a line without cells or whose first cell does not parse as a
    number, such as a header or a divider line, gives no record.  Every line
    with the separator, a numeric first cell and at least six cells gives its
    record.  The name of a record is the second cell, and its chapter is the
    number of the third cell, or 1 when that cell does not parse as a number
    or parses as zero. *)
Theorem parseConceptTable_rows :
  forall raw : string,
    parseConceptTable raw = collect parseConceptRow (tableLines raw) /\
    (forall c, In c (parseConceptTable raw) ->
       exists line c1 c2 c3 c4 c5 c6 rest,
         TableLine raw line /\ parseConceptRow line = Some c /\
         rowCells line = c1 :: c2 :: c3 :: c4 :: c5 :: c6 :: rest /\
         isNaN (Number c1) = false /\
         c = conceptOfCells c1 c2 c3 c4 c5 c6) /\
    (forall line,
       rowCells line = [] \/
       (exists c1 rest, rowCells line = c1 :: rest /\ isNaN (Number c1) = true) ->
       parseConceptRow line = None) /\
    (forall line c1 c2 c3 c4 c5 c6 rest,
       TableLine raw line ->
       rowCells line = c1 :: c2 :: c3 :: c4 :: c5 :: c6 :: rest ->
       isNaN (Number c1) = false ->
       parseConceptRow line = Some (conceptOfCells c1 c2 c3 c4 c5 c6) /\
       In (conceptOfCells c1 c2 c3 c4 c5 c6) (parseConceptTable raw)) /\
    (forall c1 c2 c3 c4 c5 c6,
       Concept.id (conceptOfCells c1 c2 c3 c4 c5 c6) = Number c1 /\
       Concept.name (conceptOfCells c1 c2 c3 c4 c5 c6) = c2 /\
       (nonZeroNumber (Number c3) = true ->
        Concept.chapter (conceptOfCells c1 c2 c3 c4 c5 c6) = Number c3) /\
       (nonZeroNumber (Number c3) = false ->
        Concept.chapter (conceptOfCells c1 c2 c3 c4 c5 c6) = ofZ 1)).
Proof.
  intros raw. split; [apply parseConceptTable_collect|].
  rewrite parseConceptTable_collect. split; [|split; [|split]].
  - intros c Hc. apply in_collect in Hc. destruct Hc as [line [Hline Hrow]].
    pose proof Hrow as Hsome. apply parseConceptRow_some in Hrow.
    destruct Hrow as (c1 & c2 & c3 & c4 & c5 & c6 & rest & Hcells & Hnum & Hc).
    exists line, c1, c2, c3, c4, c5, c6, rest.
    split; [now apply tableLines_iff|]. repeat split; assumption.
  - intros line [Hnil|(c1 & rest & Hcells & Hnan)]; unfold parseConceptRow.
    + now rewrite Hnil.
    + rewrite Hcells. destruct (List.length (c1 :: rest) <? 6)%nat; [reflexivity|].
      cbn [nth_error nullish NumberOf]. rewrite Hnan. now rewrite orb_true_r.
  - intros line c1 c2 c3 c4 c5 c6 rest Hline Hcells Hnum.
    pose proof (parseConceptRow_six line c1 c2 c3 c4 c5 c6 rest Hcells Hnum) as Hrow.
    split; [exact Hrow|].
    apply in_collect. exists line. split; [now apply tableLines_iff | exact Hrow].
  - intros c1 c2 c3 c4 c5 c6. unfold conceptOfCells, nonZeroNumber, orElse. simpl.
    repeat split.
    + destruct (Number c3); simpl; congruence.
    + destruct (Number c3); simpl; congruence.
Qed.

Lemma parseConceptTable_rows_witness :
  parseConceptTable "ID|Concept|Chapter|Dependencies|Taxonomy|Bloom
|---|---|---|---|---|---|
1|Alpha|x|,|Foundation|Remember"
  = [conceptOfCells "1" "Alpha" "x" "," "Foundation" "Remember"] /\
  parseConceptRow "ID|Concept|Chapter|Dependencies|Taxonomy|Bloom" = None /\
  parseConceptRow "|---|---|---|---|---|---|" = None /\
  parseConceptRow "1|Alpha|x|,|Foundation|Remember"
  = Some (conceptOfCells "1" "Alpha" "x" "," "Foundation" "Remember") /\
  Concept.chapter (conceptOfCells "1" "Alpha" "x" "," "Foundation" "Remember") = ofZ 1.
Proof.
  destruct (parseConceptTable_rows "ID|Concept|Chapter|Dependencies|Taxonomy|Bloom
|---|---|---|---|---|---|
1|Alpha|x|,|Foundation|Remember") as (Hlist & _ & Hskip & Hrow & Hfields).
  split; [rewrite Hlist; vm_compute; reflexivity|]. split.
  { apply Hskip. right.
    exists "ID", ["Concept"; "Chapter"; "Dependencies"; "Taxonomy"; "Bloom"].
    split; vm_compute; reflexivity. }
  split.
  { apply Hskip. right. exists "---", ["---"; "---"; "---"; "---"; "---"].
    split; vm_compute; reflexivity. }
  split.
  { refine (proj1 (Hrow "1|Alpha|x|,|Foundation|Remember"
                        "1" "Alpha" "x" "," "Foundation" "Remember" [] _ _ _)).
    - split; [vm_compute; right; right; left; reflexivity | vm_compute; reflexivity].
    - vm_compute; reflexivity.
    - vm_compute; reflexivity. }
  refine (proj2 (proj2 (proj2 (Hfields "1" "Alpha" "x" "," "Foundation" "Remember"))) _).
  vm_compute; reflexivity.
Defined.

(** C5 as stated fails: the line [1|Alpha] contains the separator and its
    first cell parses as a number, yet it yields no record, because a row with
    fewer than six non-empty cells is skipped. *)
Lemma numeric_row_with_two_cells_is_skipped :
  includes "|" "1|Alpha" = true /\
  rowCells "1|Alpha" = ["1"; "Alpha"] /\
  isNaN (Number "1") = false /\
  parseConceptTable "1|Alpha" = [].
Proof. repeat split. Qed.

(** A row whose dependency cell is empty has five non-empty cells and is
    skipped as well. *)
Lemma row_with_empty_dependency_cell_is_skipped :
  parseConceptTable "| 1 | Alpha | 1 |  | Foundation | Remember |" = [].
Proof. reflexivity. Qed.

Lemma parseDependencies_kept (id : number) (depsStr : string) (d : number) :
  In d (parseDependencies id depsStr) ->
  isNaN d = false /\ gt d (ofZ 0) = true /\ strictNeq d id = true.
Proof.
  unfold parseDependencies, keepDependency. intros H. apply filter_In in H.
  destruct H as [_ H]. apply andb_true_iff in H. destruct H as [H H3].
  apply andb_true_iff in H. destruct H as [H1 H2].
  apply negb_true_iff in H1. auto.
Qed.

(** X23.  What the dependency filter does guarantee: every dependency of a record
    is a positive number different from the identifier of the record. *)
Lemma dependencies_positive_and_not_self (raw : string) (c : Concept.t) (d : number) :
  In c (parseConceptTable raw) -> In d (Concept.dependencies c) ->
  isNaN d = false /\ gt d (ofZ 0) = true /\ strictNeq d (Concept.id c) = true.
Proof.
  rewrite parseConceptTable_collect. intros Hc Hd.
  apply in_collect in Hc. destruct Hc as [line [_ Hrow]].
  apply parseConceptRow_some in Hrow.
  destruct Hrow as (c1 & c2 & c3 & c4 & c5 & c6 & rest & _ & _ & ->).
  simpl in Hd |- *. now apply parseDependencies_kept in Hd.
Qed.

(** C1.  The code keeps a forward reference: the row of concept 1 that names
    concept 2 as a prerequisite yields a record whose dependency list is [2],
    and 2 is not less than 1.  Two such rows make a cycle. *)
Theorem forward_reference_is_kept :
  parseConceptTable "| 1 | Alpha | 1 | 2 | Core | Apply |"
  = [Concept.mk (ofZ 1) "Alpha" (ofZ 1) [ofZ 2] "Core" "Apply"] /\
  lt (ofZ 2) (ofZ 1) = false /\
  map Concept.dependencies
      (parseConceptTable "| 1 | Alpha | 1 | 2 | Core | Apply |
| 2 | Beta | 1 | 1 | Core | Apply |")
  = [[ofZ 2]; [ofZ 1]].
Proof. repeat split. Qed.

(** C7.  On every input the extractor returns a list, with at most one record
    per line that contains the separator and each record coming from such a
    line; a text without the separator gives the empty list; and the records
    of a text are those of its lines, whatever the other lines hold. *)
Theorem parseConceptTable_total :
  forall raw : string,
    (exists concepts, parseConceptTable raw = concepts /\
       (List.length concepts <= List.length (tableLines raw))%nat /\
       forall c, In c concepts ->
         exists line, TableLine raw line /\ parseConceptRow line = Some c) /\
    (includes "|" raw = false -> parseConceptTable raw = []) /\
    (forall before after : string,
       parseConceptTable (before ++ String "010" after)
       = parseConceptTable before ++ parseConceptTable after).
Proof.
  intros raw. split; [|split].
  - exists (parseConceptTable raw). rewrite parseConceptTable_collect.
    split; [reflexivity|]. split; [apply collect_length|].
    intros c Hc. apply in_collect in Hc. destruct Hc as [line [Hline Hrow]].
    exists line. split; [now apply tableLines_iff | exact Hrow].
  - intros H. rewrite parseConceptTable_collect, tableLines_without_separator; auto.
  - intros before after. rewrite !parseConceptTable_collect. unfold tableLines.
    now rewrite split_app, filter_app, collect_app.
Qed.

Lemma parseConceptTable_total_witness :
  parseConceptTable "The model declined to answer." = [] /\
  parseConceptTable ("garbage | here" ++ String "010" "1|Alpha|1|,|Core|Apply")
  = [] ++ [conceptOfCells "1" "Alpha" "1" "," "Core" "Apply"].
Proof.
  split.
  - apply (proj1 (proj2 (parseConceptTable_total "The model declined to answer."))).
    reflexivity.
  - exact (proj2 (proj2 (parseConceptTable_total "")) "garbage | here"
                 "1|Alpha|1|,|Core|Apply").
Defined.

(** ** Promises *)

Lemma all_of_fulfilled {A : Type} (ps : list (promise A)) (vs : list A) :
  map outcome ps = map Fulfilled vs ->
  outcome (Promise.all ps) = Fulfilled vs.
Proof.
  intros H.
  assert (Hboth : firstRejection ps = None /\ fulfilledValues ps = vs).
  { revert vs H. induction ps as [|p ps IH]; intros [|v vs] H; try discriminate.
    - now split.
    - simpl in H. inversion H as [[Hp Hps]]. destruct (IH vs Hps) as [IH1 IH2].
      simpl. rewrite Hp, IH1, IH2. now split. }
  destruct Hboth as [H1 H2]. unfold Promise.all. now rewrite H1, H2.
Qed.

Lemma firstRejection_sound {A : Type} (ps : list (promise A)) (e : thrown) (t : nat) :
  firstRejection ps = Some (e, t) ->
  exists p, In p ps /\ outcome p = Rejected e /\ settledAt p = t.
Proof.
  revert e t. induction ps as [|p ps IH]; intros e t H; simpl in H; [discriminate|].
  destruct (outcome p) as [v|e0] eqn:Ep.
  - destruct (IH e t H) as [q [Hin Hq]]. exists q. split; [now right | exact Hq].
  - destruct (firstRejection ps) as [[e' t']|] eqn:Er.
    + destruct (t' <? settledAt p)%nat.
      * inversion H; subst. destruct (IH e t eq_refl) as [q [Hin Hq]].
        exists q. split; [now right | exact Hq].
      * inversion H; subst. exists p. split; [now left | now split].
    + inversion H; subst. exists p. split; [now left | now split].
Qed.

Lemma firstRejection_earliest {A : Type} (ps : list (promise A)) (e : thrown) (t : nat) :
  firstRejection ps = Some (e, t) ->
  forall q e', In q ps -> outcome q = Rejected e' -> (t <= settledAt q)%nat.
Proof.
  revert e t. induction ps as [|p ps IH]; intros e t H q e' Hin Hq; [contradiction|].
  simpl in H. destruct (outcome p) as [v|e0] eqn:Ep.
  - destruct Hin as [<-|Hin]; [congruence | now apply (IH e t H q e')].
  - destruct (firstRejection ps) as [[e1 t1]|] eqn:Er.
    + destruct (t1 <? settledAt p)%nat eqn:Elt; inversion H; subst.
      * apply Nat.ltb_lt in Elt. destruct Hin as [<-|Hin]; [lia|].
        now apply (IH e t eq_refl q e').
      * apply Nat.ltb_ge in Elt. destruct Hin as [<-|Hin]; [lia|].
        specialize (IH e1 t1 eq_refl q e' Hin Hq). lia.
    + inversion H; subst. destruct Hin as [<-|Hin]; [lia|].
      exfalso. clear IH H. induction ps as [|r rs IHr]; [contradiction|].
      simpl in Er. destruct Hin as [<-|Hin].
      * rewrite Hq in Er. destruct (firstRejection rs) as [[? ?]|];
          [destruct (_ <? _)%nat|]; discriminate.
      * destruct (outcome r); [now apply IHr|].
        destruct (firstRejection rs) as [[? ?]|]; [destruct (_ <? _)%nat|]; discriminate.
Qed.

Lemma firstRejection_complete {A : Type} (ps : list (promise A)) (q : promise A) (e : thrown) :
  In q ps -> outcome q = Rejected e -> firstRejection ps <> None.
Proof.
  induction ps as [|p ps IH]; intros Hin Hq; [contradiction|].
  simpl. destruct Hin as [<-|Hin].
  - rewrite Hq. destruct (firstRejection ps) as [[? ?]|]; [destruct (_ <? _)%nat|]; discriminate.
  - specialize (IH Hin Hq). destruct (outcome p); [exact IH|].
    destruct (firstRejection ps) as [[? ?]|]; [destruct (_ <? _)%nat|]; discriminate.
Qed.

Lemma all_of_rejected {A : Type} (ps : list (promise A)) (q : promise A) (e : thrown) :
  In q ps -> outcome q = Rejected e ->
  exists e' q', outcome (Promise.all ps) = Rejected e' /\
                In q' ps /\ outcome q' = Rejected e' /\
                forall r e'', In r ps -> outcome r = Rejected e'' ->
                              (settledAt q' <= settledAt r)%nat.
Proof.
  intros Hin Hq. pose proof (firstRejection_complete ps q e Hin Hq) as Hne.
  destruct (firstRejection ps) as [[e' t]|] eqn:Er; [|contradiction].
  destruct (firstRejection_sound ps e' t Er) as [q' [Hin' [Hq' Ht]]].
  exists e', q'. unfold Promise.all. rewrite Er. simpl.
  repeat split; auto. intros r e'' Hr Hre. rewrite Ht.
  now apply (firstRejection_earliest ps e' t Er r e'').
Qed.

(** ** The Generation Service *)

Section GenerationServiceProperties.

Variable World : Type.
Variable finalMessage : MessageRequest -> World -> promise (list ContentBlock) * World.

Local Abbreviation generate' := (generate World finalMessage).
Local Abbreviation generateOne' := (generateOne World finalMessage).
Local Abbreviation generateParallel' := (generateParallel World finalMessage).
Local Abbreviation issueAll' := (issueAll World finalMessage).

Lemma generateOne_eq (options : GenerateOptions) (p : PromptSpec) (env : Env World) :
  generateOne' options p env
  = (andThen firstText (fst (finalMessage (requestOf options p) (world env))),
     mkEnv (snd (finalMessage (requestOf options p) (world env)))
           (effects env ++ [RequestIssued (requestOf options p)])).
Proof.
  unfold generateOne, generate, stream, requestOf.
  now destruct (finalMessage _ (world env)).
Qed.

Lemma startAll_length {A B : Type} (f : A -> Env World -> promise B * Env World)
      (xs : list A) (env : Env World) :
  List.length (fst (startAll World f xs env)) = List.length xs.
Proof.
  revert env. induction xs as [|x xs IH]; intros env; simpl; [reflexivity|].
  destruct (f x env) as [p env1]. specialize (IH env1).
  destruct (startAll World f xs env1). simpl in *. now rewrite IH.
Qed.

Lemma startAll_generate (options : GenerateOptions) (prompts : list PromptSpec)
      (env : Env World) :
  let run := startAll World (generateOne' options) prompts env in
  world (snd run) = issueAll' (map (requestOf options) prompts) (world env) /\
  effects (snd run)
  = effects env ++ map (fun p => RequestIssued (requestOf options p)) prompts /\
  forall i p, nth_error prompts i = Some p ->
    nth_error (fst run) i
    = Some (andThen firstText
              (fst (finalMessage (requestOf options p)
                      (issueAll' (map (requestOf options) (firstn i prompts)) (world env))))).
Proof.
  revert env. induction prompts as [|q prompts IH]; intros env; simpl.
  - split; [reflexivity|]. split; [now rewrite app_nil_r|]. intros [|i] p H; discriminate.
  - rewrite generateOne_eq.
    specialize (IH (mkEnv (snd (finalMessage (requestOf options q) (world env)))
                          (effects env ++ [RequestIssued (requestOf options q)]))).
    destruct (startAll World (generateOne' options) prompts _) as [ps env2].
    simpl in IH |- *. destruct IH as [IHw [IHe IHn]].
    split; [exact IHw|]. split; [now rewrite IHe, <- app_assoc|].
    intros [|i] p H; simpl in H |- *.
    + now inversion H.
    + now apply IHn.
Qed.

(** C6.  For a list of n prompts, [generateParallel] starts n calls, the
    i-th of them for the request built from prompt i once the requests of
    the prompts before it are issued.  When every call is fulfilled the
    batch is fulfilled with the n texts in the order of the prompts; when
    some call is rejected the batch is rejected, with the reason of a
    rejected call (the one that settles first). *)
Theorem generateParallel_aligned :
  forall (prompts : list PromptSpec) (options : GenerateOptions) (env : Env World),
    let batch := fst (generateParallel' prompts options env) in
    let pending := fst (startAll World (generateOne' options) prompts env) in
    List.length pending = List.length prompts /\
    (forall i p, nth_error prompts i = Some p ->
       nth_error pending i
       = Some (andThen firstText
                 (fst (finalMessage (requestOf options p)
                         (issueAll' (map (requestOf options) (firstn i prompts))
                                   (world env)))))) /\
    (forall texts : list string,
       map outcome pending = map Fulfilled texts ->
       outcome batch = Fulfilled texts /\ List.length texts = List.length prompts) /\
    (forall i q e,
       nth_error pending i = Some q -> outcome q = Rejected e ->
       exists e' j q',
         outcome batch = Rejected e' /\
         nth_error pending j = Some q' /\ outcome q' = Rejected e' /\
         forall k r e'', nth_error pending k = Some r -> outcome r = Rejected e'' ->
                         (settledAt q' <= settledAt r)%nat).
Proof.
  intros prompts options env batch pending.
  assert (Hbatch : batch = Promise.all pending).
  { unfold batch, pending, generateParallel.
    now destruct (startAll World (generateOne' options) prompts env). }
  split; [apply startAll_length|]. split; [apply startAll_generate|]. split.
  - intros texts H. rewrite Hbatch. split; [now apply all_of_fulfilled|].
    rewrite <- (length_map Fulfilled texts), <- H, length_map.
    apply startAll_length.
  - intros i q e Hq He. apply nth_error_In in Hq.
    destruct (all_of_rejected pending q e Hq He) as (e' & q' & Hall & Hin & Hq' & Hmin).
    destruct (In_nth_error _ _ Hin) as [j Hj].
    exists e', j, q'. rewrite Hbatch. repeat split; auto.
    intros k r e'' Hr. apply nth_error_In in Hr. now apply Hmin.
Qed.

End GenerationServiceProperties.

Lemma generateParallel_aligned_witness :
  let service := fun (request : MessageRequest) (calls : nat) =>
                   (mkPromise (Fulfilled [OtherBlock "thinking"; TextBlock (req_prompt request)])
                              (10 - calls), S calls) in
  outcome (fst (generateParallel nat service
                  [mkPrompt "first" None; mkPrompt "second" (Some "be brief")]
                  (mkOptions None None None) (mkEnv 0 [])))
  = Fulfilled ["first"; "second"] /\
  List.length ["first"; "second"] = 2%nat.
Proof.
  intros service.
  exact (proj1 (proj2 (proj2 (generateParallel_aligned nat service
                 [mkPrompt "first" None; mkPrompt "second" (Some "be brief")]
                 (mkOptions None None None) (mkEnv 0 []))))
               ["first"; "second"] eq_refl).
Defined.

(** ** The Chapter Content stage *)

Section ChapterContentProperties.

Variable World : Type.
Variable finalMessage : MessageRequest -> World -> promise (list ContentBlock) * World.
Variable fsMkdir : string -> World -> settled unit * World.
Variable fsWriteFile : string -> string -> World -> promise unit * World.
Variable buildChapterPrompt : ChapterOutline.t -> list Concept.t -> string -> string -> string.
Variable join : list string -> string.
Variable numberToString : number -> string.

Local Abbreviation generateChapterContent' :=
  (generateChapterContent World finalMessage fsMkdir fsWriteFile
                          buildChapterPrompt join numberToString).
Local Abbreviation EnvironmentReason' :=
  (EnvironmentReason World finalMessage fsMkdir fsWriteFile).
Local Abbreviation chapterPrompts' := (chapterPrompts buildChapterPrompt).

Lemma startAll_reasons {A B : Type} (f : A -> Env World -> promise B * Env World)
      (P : thrown -> Prop) (xs : list A) (env : Env World) :
  (forall x env0 e, outcome (fst (f x env0)) = Rejected e -> P e) ->
  forall q e, In q (fst (startAll World f xs env)) -> outcome q = Rejected e -> P e.
Proof.
  intros Hf. revert env. induction xs as [|x xs IH]; intros env q e Hin Hq; simpl in Hin.
  - contradiction.
  - specialize (Hf x env). specialize (IH (snd (f x env))).
    destruct (f x env) as [p env1]. simpl in IH.
    destruct (startAll World f xs env1) as [ps env2]. simpl in *.
    destruct Hin as [<-|Hin]; [now apply (Hf env0 e) || now apply Hf | now apply (IH q e)].
Qed.

Lemma all_reason {A : Type} (ps : list (promise A)) (P : thrown -> Prop) (e : thrown) :
  (forall q e0, In q ps -> outcome q = Rejected e0 -> P e0) ->
  outcome (Promise.all ps) = Rejected e -> P e.
Proof.
  intros HP H. unfold Promise.all in H.
  destruct (firstRejection ps) as [[e' t]|] eqn:Er; [|discriminate].
  simpl in H. inversion H; subst.
  destruct (firstRejection_sound ps e t Er) as [q [Hin [Hq _]]]. now apply (HP q).
Qed.

(** C10.  On a context whose chapter outlines are absent or empty the stage
    is rejected with the error "Chapter structure must be generated before
    chapter content." and leaves the world and the log of effects as they
    were: no request is issued and no file is written.  On a context with
    at least one outline it goes on to issue one request per chapter, in
    order, and from there on it is fulfilled, or rejected with a reason
    that comes from the service or from the file system. *)
Theorem generateChapterContent_guard :
  forall (ctx : PipelineContext.t) (env : Env World),
    (PipelineContext.chapters ctx = None \/ PipelineContext.chapters ctx = Some [] ->
     generateChapterContent' ctx env
     = (Rejected (ErrorObject "Chapter structure must be generated before chapter content."),
        env)) /\
    (forall ch rest,
       PipelineContext.chapters ctx = Some (ch :: rest) ->
       (exists later,
          effects (snd (generateChapterContent' ctx env))
          = effects env
              ++ map (fun p => RequestIssued (requestOf (chapterOptions ctx) p))
                     (chapterPrompts' ctx (ch :: rest))
              ++ later) /\
       (fst (generateChapterContent' ctx env) = Fulfilled ctx \/
        exists e, fst (generateChapterContent' ctx env) = Rejected e /\ EnvironmentReason' e)).
Proof.
  intros ctx env. split.
  - intros [H|H]; unfold generateChapterContent; now rewrite H.
  - intros ch rest H. unfold generateChapterContent. rewrite H.
    cbn [nullish List.length Nat.eqb].
    fold (chapterPrompts' ctx (ch :: rest)). fold (chapterOptions ctx).
    unfold generateParallel.
    pose proof (startAll_generate World finalMessage (chapterOptions ctx)
                  (chapterPrompts' ctx (ch :: rest)) env) as [_ [Heff _]].
    pose proof (startAll_reasons (generateOne World finalMessage (chapterOptions ctx))
                  EnvironmentReason' (chapterPrompts' ctx (ch :: rest)) env) as Hreq.
    destruct (startAll World (generateOne World finalMessage (chapterOptions ctx))
                       (chapterPrompts' ctx (ch :: rest)) env) as [pending env1].
    simpl in Heff, Hreq.
    assert (Hreq' : forall q e, In q pending -> outcome q = Rejected e -> EnvironmentReason' e).
    { apply Hreq. intros p env0 e. rewrite generateOne_eq. simpl.
      destruct (outcome (fst (finalMessage _ (world env0)))) eqn:E; [discriminate|].
      intros He. inversion He; subst. left. eauto. }
    destruct (outcome (Promise.all pending)) as [results|e] eqn:Eall.
    + unfold mkdir.
      destruct (fsMkdir (join [PipelineContext.outputDir ctx; "docs"; "chapters"]) (world env1))
        as [made w2] eqn:Emk.
      destruct made as [u|e].
      * match goal with
        | |- context [startAll World ?f ?xs ?e0] =>
            pose proof (startAll_reasons f EnvironmentReason' xs e0) as Hwr;
            destruct (startAll World f xs e0) as [writes env3] eqn:Ew
        end.
        simpl in Hwr.
        assert (Hmono : exists later, effects env3 = effects env1 ++ later).
        { clear Hwr.
          match type of Ew with
          | startAll World ?f ?xs ?e0 = _ =>
              assert (Hgen : forall ys e1 ws e2,
                         startAll World f ys e1 = (ws, e2) ->
                         exists later, effects e2 = effects e1 ++ later)
          end.
          { induction ys as [|[c i] ys IHy]; intros e1 ws e2 Hs; simpl in Hs.
            - inversion Hs; subst. exists []. now rewrite app_nil_r.
            - unfold writeFile in Hs at 1.
              destruct (fsWriteFile _ _ (world e1)) as [pw ww].
              match type of Hs with
              | context [startAll World ?f ys ?e'] =>
                  destruct (startAll World f ys e') as [ws' e2'] eqn:Es
              end.
              inversion Hs; subst. apply IHy in Es. destruct Es as [later Hl].
              simpl in Hl. eexists. rewrite Hl, <- app_assoc. reflexivity. }
          destruct (Hgen _ _ _ _ Ew) as [later Hl]. simpl in Hl.
          exists (DirectoryMade (join [PipelineContext.outputDir ctx; "docs"; "chapters"])
                    :: later).
          rewrite Hl, <- app_assoc. reflexivity. }
        destruct Hmono as [later Hl].
        destruct (outcome (Promise.all writes)) as [done|e] eqn:Ewr; simpl.
        -- split; [|now left]. exists later. now rewrite Hl, Heff, <- app_assoc.
        -- split; [exists later; now rewrite Hl, Heff, <- app_assoc|].
           right. exists e. split; [reflexivity|].
           apply (all_reason writes EnvironmentReason' e); [|exact Ewr].
           apply Hwr. intros [c i] env0 e0. unfold writeFile.
           destruct (fsWriteFile _ _ (world env0)) as [pw ww] eqn:Efw. simpl.
           intros He. right. right. do 3 eexists. rewrite Efw. exact He.
      * simpl. split.
        -- eexists. rewrite Heff, <- app_assoc. reflexivity.
        -- right. exists e. split; [reflexivity|]. right. left.
           exists (join [PipelineContext.outputDir ctx; "docs"; "chapters"]), (world env1).
           now rewrite Emk.
    + simpl. split.
      * exists []. now rewrite app_nil_r.
      * right. exists e. split; [reflexivity|].
        now apply (all_reason pending EnvironmentReason' e).
Qed.

End ChapterContentProperties.

Lemma generateChapterContent_guard_witness :
  sampleChapterContent freshContext (mkEnv tt [])
  = (Rejected (ErrorObject "Chapter structure must be generated before chapter content."),
     mkEnv tt []).
Proof.
  exact (proj1 (generateChapterContent_guard unit quietService quietMkdir quietWriteFile
                  (fun ch _ _ _ => ChapterOutline.title ch) (JSString.join "/")
                  (fun _ => "1") freshContext (mkEnv tt []))
               (or_introl eq_refl)).
Defined.

(** ** The orchestrator *)

Section OrchestratorProperties.

Variable World : Type.
Variables courseDescription learningGraph chapterStructure chapterContent
          microsims glossary faq quizzes references mkdocsConfig metrics
          readme : StageFn World.
Variable elapsed : World -> World -> string.
Variable numberToString : number -> string.

Local Abbreviation steps' :=
  (steps World courseDescription learningGraph chapterStructure chapterContent
         microsims glossary faq quizzes references mkdocsConfig metrics readme).
Local Abbreviation runSteps' := (runSteps World elapsed).
Local Abbreviation runPipeline' :=
  (runPipeline World courseDescription learningGraph chapterStructure chapterContent
               microsims glossary faq quizzes references mkdocsConfig metrics readme
               elapsed numberToString).
Local Abbreviation invokedNames' := (invokedNames World).

(** The twelve stage functions with their display names, in the declared
    order, and the name and the function of a step. *)
Local Abbreviation stageTable' :=
  [ ("Course Description", courseDescription); ("Learning Graph", learningGraph);
    ("Chapter Structure", chapterStructure); ("Chapter Content", chapterContent);
    ("MicroSims", microsims); ("Glossary", glossary); ("FAQ", faq);
    ("Quizzes", quizzes); ("References", references); ("MkDocs Config", mkdocsConfig);
    ("Metrics", metrics); ("README", readme) ].

Local Abbreviation stageOf' :=
  (fun step : PipelineStep World => (name World step, fn World step)).

Lemma runSteps_sequential (total : nat) (todo : list (PipelineStep World)) :
  forall (i : nat) (st : RunState World),
    exists calls,
      run_calls World (snd (runSteps' total i todo st)) = run_calls World st ++ calls /\
      SequentialRun World todo (run_ctx World st) (run_world World st) calls
                    (fst (runSteps' total i todo st)).
Proof.
  induction todo as [|step todo IH]; intros i st; simpl.
  - exists []. split; [now rewrite app_nil_r | constructor].
  - destruct (fn World step (run_ctx World st) (run_world World st)) as [[ctx'|error] w'] eqn:E.
    + match goal with
      | |- context [runSteps' total (S i) todo ?st'] =>
          destruct (IH (S i) st') as [calls [Hc Hs]]
      end.
      simpl in Hc, Hs.
      exists (mkInvocation World step (run_ctx World st) (run_world World st) :: calls).
      split; [now rewrite Hc, <- app_assoc|].
      now apply (Run_next World step todo _ _ ctx' w').
    + simpl. exists [mkInvocation World step (run_ctx World st) (run_world World st)].
      split; [reflexivity|]. now apply (Run_abort World step todo _ _ error w').
Qed.

Lemma sequential_prefix (todo : list (PipelineStep World)) ctx w calls result :
  SequentialRun World todo ctx w calls result ->
  (exists k, map (inv_step World) calls = firstn k todo) /\
  (result = Fulfilled tt -> map (inv_step World) calls = todo) /\
  (forall error, result = Rejected error ->
     exists done failed w',
       calls = done ++ [failed] /\
       fn World (inv_step World failed) (inv_ctx World failed) (inv_world World failed)
       = (Rejected error, w')).
Proof.
  induction 1 as [ctx w | step rest ctx w ctx' w' calls result Hfn Hrun IH
                  | step rest ctx w error w' Hfn].
  - split; [now exists 0%nat|]. split; [reflexivity | discriminate].
  - destruct IH as [[k Hk] [Hall Hfail]]. split; [|split].
    + exists (S k). simpl. now rewrite Hk.
    + intros Hr. simpl. now rewrite (Hall Hr).
    + intros error Hr. destruct (Hfail error Hr) as (done & failed & w'' & Hc & Hf).
      exists (mkInvocation World step ctx w :: done), failed, w''.
      split; [now rewrite Hc | exact Hf].
  - split; [now exists 1%nat|]. split; [discriminate|].
    intros error' Hr. inversion Hr; subst.
    exists [], (mkInvocation World step ctx w), w'. now split.
Qed.

Lemma runPipeline_runSteps (config : TextbookConfig.t) (w : World) :
  let ctx := PipelineContext.mk config None None None (TextbookConfig.outputDir config) in
  let st0 := mkRun World ctx w (banner numberToString config) [] in
  fst (runPipeline' config w) = fst (runSteps' 12 0 steps' st0) /\
  run_calls World (snd (runPipeline' config w))
  = run_calls World (snd (runSteps' 12 0 steps' st0)).
Proof.
  intros ctx st0. unfold runPipeline. fold ctx. fold st0.
  change (List.length steps') with 12%nat.
  destruct (runSteps' 12 0 steps' st0) as [[[]|error] st]; now split.
Qed.


Lemma runSteps_rejected (total : nat) (todo : list (PipelineStep World)) :
  forall (i : nat) (st st' : RunState World) (error : thrown),
    runSteps' total i todo st = (Rejected error, st') ->
    exists j step ctx w w' before,
      nth_error todo j = Some step /\
      fn World step ctx w = (Rejected error, w') /\
      In (mkInvocation World step ctx w) (run_calls World st') /\
      run_console World st'
      = before ++ [SpinnerFail (label World (i + j) total step ++ ": " ++ messageOf error)%string].
Proof.
  induction todo as [|step todo IH]; intros i st st' error H; simpl in H.
  - discriminate.
  - destruct (fn World step (run_ctx World st) (run_world World st)) as [[ctx'|e] w'] eqn:E.
    + apply IH in H. destruct H as (j & step' & ctx & w & w'' & before & Hn & Hf & Hin & Hcon).
      exists (S j), step', ctx, w, w'', before. repeat split; auto.
      rewrite Hcon. now replace (i + S j)%nat with (S i + j)%nat by lia.
    + inversion H; subst. simpl.
      exists 0%nat, step, (run_ctx World st), (run_world World st), w',
             (run_console World st ++ [SpinnerStart (label World i total step)]).
      rewrite Nat.add_0_r. repeat split; auto.
      apply in_or_app. right. now left.
Qed.

(** In a sequential run a call that is rejected is the last one, and its
    reason is the result of the run. *)
Lemma sequential_rejected (todo : list (PipelineStep World)) ctx w calls result :
  SequentialRun World todo ctx w calls result ->
  forall call error w',
    In call calls ->
    fn World (inv_step World call) (inv_ctx World call) (inv_world World call)
    = (Rejected error, w') ->
    result = Rejected error /\ exists done, calls = done ++ [call].
Proof.
  induction 1 as [ctx w | step rest ctx w ctx' w' calls result Hfn Hrun IH
                  | step rest ctx w error w' Hfn]; intros call e w0 Hin Hrej.
  - contradiction.
  - destruct Hin as [<-|Hin].
    + cbn in Hrej. congruence.
    + destruct (IH call e w0 Hin Hrej) as [Hr [done Hd]].
      split; [exact Hr|]. exists (mkInvocation World step ctx w :: done). now rewrite Hd.
  - destruct Hin as [<-|[]]. cbn in Hrej. split; [congruence | now exists []].
Qed.

(** C4 (as the code has it).  Whenever a call of a stage made in a run is
    rejected, the run is rejected with the reason of that call, unchanged;
    the call is the last one of the run, and the last line that the
    orchestrator reports is the failure line made of the position of the
    step, its display name and the message of the reason, which is the only
    place where the name appears.  Conversely a run is rejected only with
    the reason of a call that it made and that was rejected. *)
Theorem runPipeline_rethrows :
  forall (config : TextbookConfig.t) (w : World),
    let result := fst (runPipeline' config w) in
    let final := snd (runPipeline' config w) in
    (forall call error w',
       In call (run_calls World final) ->
       fn World (inv_step World call) (inv_ctx World call) (inv_world World call)
       = (Rejected error, w') ->
       result = Rejected error /\
       (exists done, run_calls World final = done ++ [call]) /\
       exists j before,
         nth_error steps' j = Some (inv_step World call) /\
         run_console World final
         = before ++ [SpinnerFail (label World j 12 (inv_step World call) ++ ": "
                                     ++ messageOf error)%string] /\
         Contains (name World (inv_step World call))
                  (label World j 12 (inv_step World call) ++ ": " ++ messageOf error)%string) /\
    (forall error,
       result = Rejected error ->
       exists call w',
         In call (run_calls World final) /\
         fn World (inv_step World call) (inv_ctx World call) (inv_world World call)
         = (Rejected error, w')).
Proof.
  intros config w result final.
  destruct (runPipeline_runSteps config w) as [Hres Hcalls].
  set (ctx := PipelineContext.mk config None None None (TextbookConfig.outputDir config)) in *.
  destruct (runSteps_sequential 12 steps' 0
              (mkRun World ctx w (banner numberToString config) []))
    as [calls [Hc Hseq]].
  simpl run_calls in Hc at 2. simpl app in Hc. simpl run_ctx in Hseq. simpl run_world in Hseq.
  assert (Hrun : SequentialRun World steps' ctx w (run_calls World final) result).
  { unfold final, result. rewrite Hres, Hcalls, Hc. exact Hseq. }
  split.
  - intros call error w' Hin Hrej.
    destruct (sequential_rejected _ _ _ _ _ Hrun call error w' Hin Hrej) as [Hr [done Hd]].
    split; [exact Hr|]. split; [now exists done|].
    assert (E : runPipeline' config w = (Rejected error, final)).
    { unfold result in Hr. unfold final. destruct (runPipeline' config w) as [r f].
      cbn [fst snd] in *. now rewrite Hr. }
    assert (E' : runSteps' 12 0 steps'
                   (mkRun World ctx w (banner numberToString config) []) = (Rejected error, final)).
    { revert E. unfold runPipeline. change (List.length steps') with 12%nat. fold ctx.
      destruct (runSteps' 12 0 steps' _) as [[[]|e] st]; intros H; [discriminate | exact H]. }
    apply runSteps_rejected in E'.
    destruct E' as (j & step & ctx0 & w0 & w'' & before & Hn & Hf & Hin' & Hcon).
    destruct (sequential_rejected _ _ _ _ _ Hrun (mkInvocation World step ctx0 w0) error w''
                Hin' Hf) as [_ [done' Hd']].
    rewrite Hd in Hd'. apply app_inj_tail in Hd'. destruct Hd' as [_ ->].
    cbn [inv_step]. exists j, before. cbn [Nat.add] in Hcon.
    split; [exact Hn|]. split; [exact Hcon|].
    unfold label.
    exists ("[" ++ natToString (j + 1) ++ "/" ++ natToString 12 ++ "] ")%string,
           (": " ++ messageOf error)%string.
    now rewrite !string_app_assoc.
  - intros error Hr.
    destruct (sequential_prefix _ _ _ _ _ Hrun) as [_ [_ Hfail]].
    destruct (Hfail error Hr) as (done & failed & w' & Hd & Hf).
    exists failed, w'. split; [|exact Hf]. rewrite Hd. apply in_or_app. right. now left.
Qed.

End OrchestratorProperties.


Lemma runPipeline_rethrows_witness :
  fst sampleRun = Rejected (ErrorObject "boom") /\
  (exists done,
     run_calls unit (snd sampleRun)
     = done ++ [mkInvocation unit (mkStep unit "Learning Graph" "2" (failStage "boom"))
                  (PipelineContext.mk sampleConfig None None None "widgets") tt]) /\
  exists j before,
    nth_error sampleSteps j = Some (mkStep unit "Learning Graph" "2" (failStage "boom")) /\
    run_console unit (snd sampleRun)
    = before ++ [SpinnerFail (label unit j 12 (mkStep unit "Learning Graph" "2" (failStage "boom"))
                                ++ ": " ++ messageOf (ErrorObject "boom"))%string] /\
    Contains "Learning Graph"
             (label unit j 12 (mkStep unit "Learning Graph" "2" (failStage "boom"))
                ++ ": " ++ messageOf (ErrorObject "boom"))%string.
Proof.
  apply (proj1 (runPipeline_rethrows unit passStage (failStage "boom") passStage passStage
           passStage passStage passStage passStage passStage passStage passStage passStage
           (fun _ _ => "0.0") (fun _ => "n") sampleConfig tt)
           (mkInvocation unit (mkStep unit "Learning Graph" "2" (failStage "boom"))
              (PipelineContext.mk sampleConfig None None None "widgets") tt)
           (ErrorObject "boom") tt).
  - right. left. reflexivity.
  - reflexivity.
Defined.

(** C4 as stated fails: the second stage is rejected with the error "boom",
    and the caller of the orchestrator receives that very error, whose message
    does not carry the display name "Learning Graph" (nor that of any other
    step). *)
Lemma rejected_run_reason_lacks_stage_name :
  fst sampleRun = Rejected (ErrorObject "boom") /\
  failStage "boom" (PipelineContext.mk sampleConfig None None None "widgets") tt
  = (Rejected (ErrorObject "boom"), tt) /\
  includes "Learning Graph" (messageOf (ErrorObject "boom")) = false /\
  forallb (fun n => negb (includes n (messageOf (ErrorObject "boom")))) stageNames = true.
Proof. repeat split. Qed.

(** ** Numbers *)

Section NumberProperties.

Local Open Scope Z_scope.

Lemma shr_m_of_loc (m : Z) (l : location) : shr_m (shr_record_of_loc m l) = m.
Proof. destruct l as [|[| |]]; reflexivity. Qed.

Lemma shr_1_lower (r : shr_record) (k : Z) :
  0 <= k -> 2 * k <= shr_m r -> k <= shr_m (shr_1 r).
Proof.
  destruct r as [m rr ss]. cbn [shr_m]. intros Hk H.
  destruct m as [|p|p]; [cbn [shr_1 shr_m]; lia | | lia].
  destruct p; cbn [shr_1 shr_m]; lia.
Qed.

Lemma iter_shr_1_lower (n : positive) :
  forall (r : shr_record) (k : Z),
    0 <= k -> 2 ^ Zpos n * k <= shr_m r -> k <= shr_m (iter_pos shr_1 n r).
Proof.
  induction n as [n IH|n IH|]; intros r k Hk H; simpl.
  - apply IH; [exact Hk|]. apply IH; [nia|]. apply shr_1_lower; [nia|].
    replace (Zpos n~1) with (1 + Zpos n + Zpos n) in H by lia.
    rewrite !Z.pow_add_r in H by lia. change (2 ^ 1) with 2 in H.
    assert (0 < 2 ^ Zpos n) by (apply Z.pow_pos_nonneg; lia). nia.
  - apply IH; [exact Hk|]. apply IH; [assert (0 < 2 ^ Zpos n) by (apply Z.pow_pos_nonneg; lia); nia|].
    replace (Zpos n~0) with (Zpos n + Zpos n) in H by lia.
    rewrite Z.pow_add_r in H by lia. nia.
  - apply shr_1_lower; [exact Hk|]. change (2 ^ 1) with 2 in H. lia.
Qed.

Lemma digits2_pos_lower (p : positive) : 2 ^ (Zpos (digits2_pos p) - 1) <= Zpos p.
Proof.
  induction p as [p IH|p IH|]; simpl digits2_pos.
  - rewrite Pos2Z.inj_succ. replace (Z.succ (Zpos (digits2_pos p)) - 1) with (1 + (Zpos (digits2_pos p) - 1)) by lia.
    rewrite Z.pow_add_r by lia. change (2 ^ 1) with 2. lia.
  - rewrite Pos2Z.inj_succ. replace (Z.succ (Zpos (digits2_pos p)) - 1) with (1 + (Zpos (digits2_pos p) - 1)) by lia.
    rewrite Z.pow_add_r by lia. change (2 ^ 1) with 2. lia.
  - simpl. lia.
Qed.

Lemma fexp_ge_emin (e : Z) : emin <= fexp prec emax e.
Proof. unfold fexp, emin. apply Z.le_max_r. Qed.

Lemma shr_fexp_positive (m e : Z) (l : location) :
  0 < m -> emin <= e ->
  0 < shr_m (fst (shr_fexp prec emax m e l)) /\ emin <= snd (shr_fexp prec emax m e l).
Proof.
  intros Hm He. unfold shr_fexp, shr.
  destruct m as [|p|p]; try lia. simpl Zdigits2.
  pose proof (digits2_pos_lower p) as Hd.
  pose proof (fexp_ge_emin (Zpos (digits2_pos p) + e)) as Hf.
  destruct (fexp prec emax (Zpos (digits2_pos p) + e) - e) as [|n|n] eqn:En; simpl;
    rewrite ?shr_m_of_loc; try (split; lia).
  split; [|lia].
  apply Z.lt_le_trans with 1; [lia|].
  apply iter_shr_1_lower; [lia|]. rewrite shr_m_of_loc, Z.mul_1_r.
  apply Z.le_trans with (2 ^ (Zpos (digits2_pos p) - 1)); [|exact Hd].
  apply Z.pow_le_mono_r; [lia|].
  unfold fexp in En. fold emin in En. unfold prec in En. lia.
Qed.

Lemma round_nearest_even_ge (m : Z) (l : location) : m <= round_nearest_even m l.
Proof. destruct l as [|[| |]]; simpl; try lia. destruct (Z.even m); lia. Qed.

Lemma binary_round_aux_signed (s : bool) (m e : Z) (l : location) :
  0 < m -> emin <= e ->
  binary_round_aux prec emax s m e l = S754_infinity s \/
  exists m' e', binary_round_aux prec emax s m e l = S754_finite s m' e' /\ emin <= e'.
Proof.
  intros Hm He. unfold binary_round_aux.
  destruct (shr_fexp_positive m e l Hm He) as [H1 H1e].
  destruct (shr_fexp prec emax m e l) as [mrs' e'] eqn:E1. simpl in H1, H1e.
  pose proof (round_nearest_even_ge (shr_m mrs') (loc_of_shr_record mrs')) as Hr.
  destruct (shr_fexp_positive (round_nearest_even (shr_m mrs') (loc_of_shr_record mrs')) e' loc_Exact)
    as [H2 H2e]; [lia | exact H1e |].
  destruct (shr_fexp prec emax (round_nearest_even (shr_m mrs') (loc_of_shr_record mrs')) e' loc_Exact)
    as [mrs'' e''] eqn:E2. simpl in H2, H2e.
  destruct (shr_m mrs'') as [|p|p]; try lia.
  destruct (e'' <=? emax - prec); [right; now exists p, e'' | now left].
Qed.

Lemma shl_align_value (m : positive) (e e' : Z) :
  e' <= e -> Zpos (fst (shl_align m e e')) = Zpos m * 2 ^ (e - e') /\
             snd (shl_align m e e') = e'.
Proof.
  intros H. unfold shl_align.
  destruct (e' - e) as [|d|d] eqn:Ed; cbn [fst snd].
  - replace (e - e') with 0 by lia. rewrite Z.pow_0_r. split; lia.
  - lia.
  - replace (e - e') with (Zpos d) by lia. split; [|reflexivity].
    change (Pos.iter xO m d) with (Zpower.shift_pos d m).
    rewrite Zpower.shift_pos_correct, Z.mul_comm. reflexivity.
Qed.

Lemma shl_align_min (m : positive) (e e' : Z) :
  emin <= e -> emin <= e' -> emin <= snd (shl_align m e e').
Proof.
  intros. unfold shl_align. destruct (e' - e); simpl; lia.
Qed.

Lemma binary_round_signed (s : bool) (m : positive) (e : Z) :
  emin <= e ->
  binary_round prec emax s m e = S754_infinity s \/
  exists m' e', binary_round prec emax s m e = S754_finite s m' e' /\ emin <= e'.
Proof.
  intros He. unfold binary_round.
  pose proof (shl_align_min m e (fexp prec emax (Zpos (digits2_pos m) + e)) He (fexp_ge_emin _)) as Hz.
  destruct (shl_align m e (fexp prec emax (Zpos (digits2_pos m) + e))) as [mz ez].
  simpl in Hz. apply binary_round_aux_signed; [lia | exact Hz].
Qed.

Lemma ofN_count (n : N) : countNumber (ofN n).
Proof.
  unfold ofN, ofZ. destruct n as [|p]; simpl.
  - now left.
  - right. destruct (binary_round_signed false p 0) as [H|[m' [e' [H He]]]].
    + unfold emin, SpecFloat.emin, prec, emax. lia.
    + now left.
    + right. now exists m', e'.
Qed.

Lemma pow2_split (a b c : Z) : c <= b -> b <= a -> 2 ^ (a - c) = 2 ^ (a - b) * 2 ^ (b - c).
Proof. intros. rewrite <- Z.pow_add_r by lia. f_equal. lia. Qed.

Lemma gt_zero_signed (s : bool) (x : number) :
  (x = S754_infinity s \/ exists m e, x = S754_finite s m e /\ emin <= e) ->
  gt x (ofZ 0) = negb s.
Proof. intros [->|[m [e [-> _]]]]; now destruct s. Qed.

Lemma sub_decides (x y : number) :
  countNumber x -> countNumber y ->
  (gt (sub x y) (ofZ 0) = true -> exactLe y x) /\
  (gt (sub x y) (ofZ 0) = false -> exactLe x y).
Proof.
  intros [->|[->|[mx [ex [-> Hex]]]]] [->|[->|[my [ey [-> Hey]]]]];
    try (split; simpl; intros; (exact I || discriminate || lia)).
  - split; intros H; [discriminate|]. unfold exactLe, scaled. cbn [cond_Zopp].
    apply Z.mul_nonneg_nonneg; [lia | apply Z.pow_nonneg; lia].
  - split; intros H; [|discriminate]. unfold exactLe, scaled. cbn [cond_Zopp].
    apply Z.mul_nonneg_nonneg; [lia | apply Z.pow_nonneg; lia].
  - unfold sub, SFsub.
    set (ez := Z.min ex ey).
    destruct (shl_align_value mx ex ez) as [HX _]; [lia|].
    destruct (shl_align_value my ey ez) as [HY _]; [lia|].
    set (X := Zpos (fst (shl_align mx ex ez))) in *.
    set (Y := Zpos (fst (shl_align my ey ez))) in *.
    assert (Hez : emin <= ez) by lia.
    assert (Hsx : scaled (S754_finite false mx ex) = X * 2 ^ (ez - emin)).
    { unfold scaled. cbn [cond_Zopp]. rewrite (pow2_split ex ez emin), HX by lia. apply Z.mul_assoc. }
    assert (Hsy : scaled (S754_finite false my ey) = Y * 2 ^ (ez - emin)).
    { unfold scaled. cbn [cond_Zopp]. rewrite (pow2_split ey ez emin), HY by lia. apply Z.mul_assoc. }
    assert (Hp : 0 < 2 ^ (ez - emin)) by (apply Z.pow_pos_nonneg; lia).
    unfold exactLe. rewrite Hsx, Hsy. cbn [cond_Zopp].
    destruct (X - Y) as [|p|p] eqn:ED; cbn [binary_normalize].
    + split; [discriminate|]. intros _. nia.
    + rewrite (gt_zero_signed false) by (apply binary_round_signed; exact Hez).
      split; [intros _; nia | discriminate].
    + rewrite (gt_zero_signed true) by (apply binary_round_signed; exact Hez).
      split; [discriminate | intros _; nia].
Qed.

Lemma exactLe_trans (x y z : number) :
  countNumber x -> countNumber y -> countNumber z ->
  exactLe x y -> exactLe y z -> exactLe x z.
Proof.
  intros [->|[->|[mx [ex [-> Hex]]]]] [->|[->|[my [ey [-> Hey]]]]]
         [->|[->|[mz [ez [-> Hez]]]]]; simpl; try tauto; try lia.
Qed.

Lemma digits2_pos_upper (p : positive) : Zpos p < 2 ^ Zpos (digits2_pos p).
Proof.
  induction p as [p IH|p IH|]; simpl digits2_pos.
  - rewrite Pos2Z.inj_succ, Z.pow_succ_r by lia. lia.
  - rewrite Pos2Z.inj_succ, Z.pow_succ_r by lia. lia.
  - simpl. lia.
Qed.

Lemma Zdigits2_log2 (m : Z) : 0 < m -> Zdigits2 m = Z.log2 m + 1.
Proof.
  destruct m as [|p|p]; try lia. intros _. simpl Zdigits2.
  pose proof (digits2_pos_lower p). pose proof (digits2_pos_upper p).
  rewrite (Z.log2_unique (Zpos p) (Zpos (digits2_pos p) - 1)); [lia | lia |].
  replace (Z.succ (Zpos (digits2_pos p) - 1)) with (Zpos (digits2_pos p)) by lia. lia.
Qed.

Lemma shr_1_div (r : shr_record) : 0 <= shr_m r -> shr_m (shr_1 r) = shr_m r / 2.
Proof.
  destruct r as [m rr ss]. cbn [shr_m]. intros H.
  destruct m as [|p|p]; [reflexivity | | lia].
  destruct p as [p|p|]; cbn [shr_1 shr_m].
  - rewrite Pos2Z.inj_xI. apply Z.div_unique with 1; lia.
  - rewrite Pos2Z.inj_xO. apply Z.div_unique with 0; lia.
  - reflexivity.
Qed.

Lemma iter_shr_1_div (n : positive) :
  forall r : shr_record,
    0 <= shr_m r -> shr_m (iter_pos shr_1 n r) = shr_m r / 2 ^ Zpos n.
Proof.
  assert (Hpos : forall k, 0 < 2 ^ Zpos k) by (intros; apply Z.pow_pos_nonneg; lia).
  assert (Hdiv : forall a k, 0 <= a -> 0 <= a / 2 ^ Zpos k)
    by (intros; apply Z.div_pos; auto).
  induction n as [n IH|n IH|]; intros r H; simpl iter_pos.
  - assert (H1 : 0 <= shr_m (shr_1 r)) by (rewrite shr_1_div by exact H; apply Z.div_pos; lia).
    rewrite IH, IH, shr_1_div; auto.
    + pose proof (Hpos n). rewrite !Z.div_div by lia.
      f_equal. replace (Zpos n~1) with (1 + Zpos n + Zpos n) by lia.
      rewrite !Z.pow_add_r by lia. change (2 ^ 1) with 2. lia.
    + rewrite IH by exact H1. now apply Hdiv.
  - rewrite IH, IH; auto.
    + pose proof (Hpos n). rewrite Z.div_div by lia. f_equal.
      replace (Zpos n~0) with (Zpos n + Zpos n) by lia. now rewrite Z.pow_add_r by lia.
    + rewrite IH by exact H. now apply Hdiv.
  - rewrite shr_1_div by exact H. reflexivity.
Qed.

Lemma fexp_mono (a b : Z) : a <= b -> fexp prec emax a <= fexp prec emax b.
Proof. unfold fexp. lia. Qed.

Lemma Zdigits2_mono (a b : Z) : 0 < a -> a <= b -> Zdigits2 a <= Zdigits2 b.
Proof.
  intros Ha Hab. rewrite !Zdigits2_log2 by lia.
  pose proof (Z.log2_le_mono a b Hab). lia.
Qed.

(** [shr_fexp] brings a mantissa whose exponent is not above the canonical
    one to the canonical exponent. *)
Lemma shr_fexp_canonical (m e : Z) (l : location) :
  0 < m -> emin <= e -> e <= fexp prec emax (Zdigits2 m + e) ->
  0 < shr_m (fst (shr_fexp prec emax m e l)) /\
  emin <= snd (shr_fexp prec emax m e l) /\
  fexp prec emax (Zdigits2 (shr_m (fst (shr_fexp prec emax m e l)))
                  + snd (shr_fexp prec emax m e l))
  = snd (shr_fexp prec emax m e l).
Proof.
  intros Hm He Hc.
  destruct (shr_fexp_positive m e l Hm He) as [Hp1 Hp2].
  split; [exact Hp1|]. split; [exact Hp2|].
  unfold shr_fexp, shr in *.
  destruct (fexp prec emax (Zdigits2 m + e) - e) as [|n|n] eqn:En; cbn [fst snd] in *.
  - rewrite shr_m_of_loc. lia.
  - rewrite iter_shr_1_div in * by (rewrite shr_m_of_loc; lia).
    rewrite shr_m_of_loc in *.
    rewrite (Zdigits2_log2 (m / 2 ^ Zpos n)) by exact Hp1.
    rewrite <- Z.shiftr_div_pow2, Z.log2_shiftr by lia.
    rewrite Zdigits2_log2 in En by exact Hm.
    assert (Hn : Zpos n <= Z.log2 m).
    { destruct (Z_le_gt_dec (Zpos n) (Z.log2 m)) as [Hle|Hgt]; [exact Hle|].
      exfalso. rewrite <- Z.shiftr_div_pow2 in Hp1 by lia.
      rewrite (proj2 (Z.shiftr_eq_0_iff m (Zpos n))) in Hp1; [lia|].
      right. split; lia. }
    rewrite Z.max_r by lia.
    replace (Z.log2 m - Zpos n + 1 + (e + Zpos n)) with (Z.log2 m + 1 + e) by lia. lia.
  - lia.
Qed.

Lemma binary_round_aux_valid (s : bool) (m e : Z) (l : location) :
  0 < m -> emin <= e -> e <= fexp prec emax (Zdigits2 m + e) ->
  valid_binary prec emax (binary_round_aux prec emax s m e l) = true.
Proof.
  intros Hm He Hc. unfold binary_round_aux.
  pose proof (shr_fexp_canonical m e l Hm He Hc) as H1.
  destruct (shr_fexp prec emax m e l) as [mrs' e1]. cbn [fst snd] in H1.
  destruct H1 as (H1 & H1e & H1c).
  pose proof (round_nearest_even_ge (shr_m mrs') (loc_of_shr_record mrs')) as Hr.
  set (m2 := round_nearest_even (shr_m mrs') (loc_of_shr_record mrs')) in *.
  assert (H2c : e1 <= fexp prec emax (Zdigits2 m2 + e1)).
  { rewrite <- H1c at 1. apply fexp_mono.
    pose proof (Zdigits2_mono (shr_m mrs') m2 H1 Hr). lia. }
  pose proof (shr_fexp_canonical m2 e1 loc_Exact ltac:(lia) H1e H2c) as H2.
  destruct (shr_fexp prec emax m2 e1 loc_Exact) as [mrs'' e2]. cbn [fst snd] in H2.
  destruct H2 as (H2 & H2e & H2k).
  destruct (shr_m mrs'') as [|p|p] eqn:Ep; try lia.
  destruct (e2 <=? emax - prec) eqn:Eb; [|reflexivity].
  cbn [valid_binary]. unfold bounded, canonical_mantissa. rewrite Eb, andb_true_r.
  apply Z.eqb_eq. exact H2k.
Qed.

Lemma binary_round_valid (s : bool) (m : positive) (e : Z) :
  emin <= e -> valid_binary prec emax (binary_round prec emax s m e) = true.
Proof.
  intros He. unfold binary_round.
  set (f := fexp prec emax (Zpos (digits2_pos m) + e)).
  pose proof (fexp_ge_emin (Zpos (digits2_pos m) + e)) as Hf. fold f in Hf.
  destruct (Z_le_gt_dec e f) as [Hle|Hgt].
  - assert (Hs : shl_align m e f = (m, e)).
    { unfold shl_align. destruct (f - e) eqn:E; try reflexivity. lia. }
    rewrite Hs. apply binary_round_aux_valid; [lia | exact He |]. exact Hle.
  - destruct (shl_align_value m e f ltac:(lia)) as [Hv Hsnd].
    destruct (shl_align m e f) as [mz ez]. cbn [fst snd] in Hv, Hsnd. subst ez.
    apply binary_round_aux_valid; [lia | exact Hf |].
    cbn [Zdigits2]. change (Zpos (digits2_pos mz)) with (Zdigits2 (Zpos mz)).
    rewrite Zdigits2_log2, Hv, Z.log2_mul_pow2 by lia.
    pose proof (Zdigits2_log2 (Zpos m) ltac:(lia)) as Hd. cbn [Zdigits2] in Hd.
    replace (e - f + Z.log2 (Zpos m) + 1 + f) with (Zpos (digits2_pos m) + e) by lia.
    fold f. lia.
Qed.

Lemma ofN_valid (n : N) : valid_binary prec emax (ofN n) = true.
Proof.
  unfold ofN, ofZ. destruct n as [|p]; [reflexivity|]. cbn [Z.of_N binary_normalize].
  apply binary_round_valid. unfold emin, SpecFloat.emin, prec, emax. lia.
Qed.

(** On valid Numbers the comparison [<=] of JavaScript is the order of the
    exact values. *)
Lemma le_exactLe (x y : number) :
  countNumber x -> countNumber y ->
  valid_binary prec emax x = true -> valid_binary prec emax y = true ->
  exactLe x y -> le x y = true.
Proof.
  intros [->|[->|[mx [ex [-> Hex]]]]] [->|[->|[my [ey [-> Hey]]]]] Vx Vy H;
    try reflexivity; try (simpl in H; contradiction).
  - exfalso. unfold exactLe, scaled in H. cbn [cond_Zopp] in H.
    assert (0 < 2 ^ (ex - emin)) by (apply Z.pow_pos_nonneg; lia). nia.
  - unfold exactLe, scaled in H. cbn [cond_Zopp] in H.
    cbn [valid_binary] in Vx, Vy. unfold bounded, canonical_mantissa in Vx, Vy.
    apply andb_true_iff in Vx, Vy. destruct Vx as [Cx _], Vy as [Cy _].
    apply Z.eqb_eq in Cx, Cy. unfold fexp in Cx, Cy. fold emin in Cx, Cy. unfold prec in Cx, Cy.
    pose proof (digits2_pos_lower mx) as Lx. pose proof (digits2_pos_upper mx) as Ux.
    pose proof (digits2_pos_lower my) as Ly. pose proof (digits2_pos_upper my) as Uy.
    unfold le, SFleb, SFcompare.
    destruct (Z.compare_spec ex ey) as [Heq|Hlt|Hgt]; [| reflexivity |].
    + subst ey. rewrite Pos.compare_cont_spec. cbn [Pos.switch_Eq].
      assert (Hp : 0 < 2 ^ (ex - emin)) by (apply Z.pow_pos_nonneg; lia).
      assert (Hm : Zpos mx <= Zpos my) by nia.
      destruct (Pos.compare_spec mx my); try reflexivity. lia.
    + exfalso.
      assert (Hdx : Zpos (digits2_pos mx) = 53) by lia.
      assert (Hdy : Zpos (digits2_pos my) <= 53) by lia.
      rewrite Hdx in Lx. change (2 ^ (53 - 1)) with (2 ^ 52) in Lx.
      assert (Uy' : Zpos my < 2 ^ 53).
      { apply Z.lt_le_trans with (2 ^ Zpos (digits2_pos my)); [exact Uy|].
        apply Z.pow_le_mono_r; lia. }
      assert (Hpy : 0 < 2 ^ (ey - emin)) by (apply Z.pow_pos_nonneg; lia).
      assert (Hsplit : 2 ^ (ex - emin) = 2 ^ (ex - ey) * 2 ^ (ey - emin))
        by (apply pow2_split; lia).
      assert (Hge : 2 <= 2 ^ (ex - ey)).
      { change 2 with (2 ^ 1) at 1. apply Z.pow_le_mono_r; lia. }
      rewrite Hsplit in H.
      assert (Zpos mx * 2 ^ (ex - ey) <= Zpos my) by nia.
      nia.
Qed.

End NumberProperties.

(** ** Numbers written in digits *)

Lemma digit_facts (c : ascii) :
  isDigit c = true ->
  isWhiteSpace c = false /\
  readSign (String c "") = (false, String c "") /\
  Ascii.eqb c "I" = false /\
  (Ascii.eqb c "x" || Ascii.eqb c "X") = false /\
  (Ascii.eqb c "o" || Ascii.eqb c "O") = false /\
  (Ascii.eqb c "b" || Ascii.eqb c "B") = false /\
  Ascii.eqb c "." = false /\
  exists d, decDigit c = Some d.
Proof.
  destruct c as [[] [] [] [] [] [] [] []]; intros H; vm_compute in H; try discriminate H;
    repeat split; eexists; reflexivity.
Qed.

Lemma trimStart_digits (s : string) : allChars isDigit s = true -> trimStart s = s.
Proof.
  destruct s as [|c s]; simpl; [reflexivity|]. intros H. apply andb_true_iff in H.
  destruct H as [Hc _]. now rewrite (proj1 (digit_facts c Hc)).
Qed.

Lemma trimEnd_digits (s : string) : allChars isDigit s = true -> trimEnd s = s.
Proof.
  induction s as [|c s IH]; simpl; [reflexivity|]. intros H. apply andb_true_iff in H.
  destruct H as [Hc Hs]. rewrite (IH Hs).
  destruct s; [now rewrite (proj1 (digit_facts c Hc)) | reflexivity].
Qed.

Lemma trim_digits (s : string) : allChars isDigit s = true -> trim s = s.
Proof. intros H. unfold trim. now rewrite trimStart_digits, trimEnd_digits. Qed.

Lemma readDigits_all (s : string) :
  forall acc cnt, allChars isDigit s = true ->
    exists v, readDigits 10 decDigit s acc cnt = (v, (cnt + String.length s)%nat, EmptyString).
Proof.
  induction s as [|c s IH]; intros acc cnt H; simpl.
  - exists acc. now rewrite Nat.add_0_r.
  - simpl in H. apply andb_true_iff in H. destruct H as [Hc Hs].
    destruct (digit_facts c Hc) as (_ & _ & _ & _ & _ & _ & _ & [d Hd]). rewrite Hd.
    destruct (IH (acc * 10 + d)%N (S cnt) Hs) as [v Hv]. exists v. rewrite Hv.
    now rewrite Nat.add_succ_r.
Qed.

Lemma parseNonDecimal_digits (s : string) : allChars isDigit s = true -> parseNonDecimal s = None.
Proof.
  destruct s as [|c [|p ds]]; intros H; [reflexivity | |].
  - destruct c as [[] [] [] [] [] [] [] []]; reflexivity.
  - simpl in H. apply andb_true_iff in H. destruct H as [_ H].
    apply andb_true_iff in H. destruct H as [Hp _].
    destruct (digit_facts p Hp) as (_ & _ & _ & Hx & Ho & Hb & _).
    destruct c as [[] [] [] [] [] [] [] []]; try reflexivity.
    cbn -[readDigits]. now rewrite Hx, Ho, Hb.
Qed.

Lemma readSign_digits (s : string) :
  s <> EmptyString -> allChars isDigit s = true -> readSign s = (false, s).
Proof.
  destruct s as [|c s]; [congruence|]. intros _ H. simpl in H.
  apply andb_true_iff in H. destruct H as [Hc _].
  destruct c as [[] [] [] [] [] [] [] []]; vm_compute in Hc; try discriminate Hc; reflexivity.
Qed.

Lemma Number_digits (s : string) :
  s <> EmptyString -> allChars isDigit s = true -> Number s = ofN (decimalValue s).
Proof.
  intros Hne H. unfold Number. rewrite (trim_digits s H).
  rewrite (parseNonDecimal_digits s H), (readSign_digits s Hne H).
  destruct s as [|c s]; [congruence|].
  assert (Hc : isDigit c = true) by (simpl in H; now apply andb_true_iff in H).
  assert (Hinf : String.eqb (String c s) "Infinity" = false).
  { simpl. destruct (digit_facts c Hc) as (_ & _ & HI & _). now rewrite HI. }
  rewrite Hinf. unfold parseUnsignedDecimal, decimalValue.
  destruct (readDigits_all (String c s) 0%N 0%nat H) as [v Hv]. rewrite Hv.
  cbn [plus String.length parseExponent fst].
  unfold ofDecimal, ofN, ofZ. destruct v as [|p]; [reflexivity|].
  cbn [binary_normalize Z.of_N]. change (Z.to_pos (10 ^ 0)) with 1%positive.
  now rewrite Pos.mul_1_r.
Qed.

Lemma Number_digits_count (s : string) :
  s <> EmptyString -> allChars isDigit s = true -> countNumber (Number s).
Proof. intros Hne H. rewrite (Number_digits s Hne H). apply ofN_count. Qed.

(** ** Regular expressions *)

Section RegExpProperties.

Import RegExp.

Lemma string_app_nil_r (s : string) : (s ++ "")%string = s.
Proof. induction s as [|c s IH]; simpl; [reflexivity | now rewrite IH]. Qed.

Lemma string_app_length (a b : string) :
  String.length (a ++ b) = (String.length a + String.length b)%nat.
Proof. induction a as [|c a IH]; simpl; [reflexivity | now rewrite IH]. Qed.

Lemma substring_prefix (w s : string) :
  substring 0 (String.length (w ++ s) - String.length s) (w ++ s) = w.
Proof.
  rewrite string_app_length, Nat.add_sub.
  induction w as [|c w IH]; simpl.
  - now destruct s.
  - now rewrite IH.
Qed.

Lemma matchHere_sound {R : Type} (r : regex) :
  forall (s : string) (c : captures) (k : string -> captures -> option R) (res : R),
    matchHere r s c k = Some res ->
    exists w s' cs,
      s = (w ++ s')%string /\ Matches r w cs /\ k s' (cs ++ c) = Some res.
Proof.
  induction r as [p | | r1 IH1 r2 IH2 | r1 IH1 | i r1 IH1]; intros s c k res H; simpl in H.
  - destruct s as [|a s]; [discriminate|]. destruct (p a) eqn:Ep; [|discriminate].
    exists (String a EmptyString), s, []. repeat split; [now constructor | exact H].
  - exists EmptyString, s, []. repeat split; [constructor | exact H].
  - apply IH1 in H. destruct H as (w1 & s1 & c1 & -> & M1 & H).
    apply IH2 in H. destruct H as (w2 & s2 & c2 & -> & M2 & H).
    exists (w1 ++ w2)%string, s2, (c2 ++ c1). rewrite string_app_assoc, <- app_assoc.
    repeat split; [now constructor | exact H].
  - revert H. generalize (String.length s) at 1. intros fuel. revert s c.
    induction fuel as [|fuel IHf]; intros s c H.
    + exists EmptyString, s, []. repeat split; [constructor | exact H].
    + match type of H with
      | match ?m with _ => _ end = _ => destruct m as [res'|] eqn:E
      end.
      * inversion H; subst res'. apply IH1 in E.
        destruct E as (w1 & s1 & c1 & -> & M1 & E).
        destruct (String.length s1 <? String.length (w1 ++ s1))%nat; [|discriminate].
        apply IHf in E. destruct E as (w2 & s2 & c2 & -> & M2 & E).
        exists (w1 ++ w2)%string, s2, (c2 ++ c1). rewrite string_app_assoc, <- app_assoc.
        repeat split; [now constructor | exact E].
      * exists EmptyString, s, []. repeat split; [constructor | exact H].
  - apply IH1 in H. destruct H as (w & s' & cs & -> & M & H).
    rewrite substring_prefix in H.
    exists w, s', ((i, w) :: cs). repeat split; [now constructor | exact H].
Qed.

Lemma exec_sound (r : regex) (s : string) (m : captures) :
  exec r s = Some m -> exists w, Matches r w m.
Proof.
  induction s as [|a s IH]; simpl; intros H.
  - destruct (matchHere r "" [] (fun _ c => Some c)) as [c|] eqn:E; [|discriminate].
    inversion H; subst. apply matchHere_sound in E.
    destruct E as (w & s' & cs & _ & M & E). inversion E. rewrite app_nil_r. now exists w.
  - destruct (matchHere r (String a s) [] (fun _ c => Some c)) as [c|] eqn:E.
    + inversion H; subst. apply matchHere_sound in E.
      destruct E as (w & s' & cs & _ & M & E). inversion E. rewrite app_nil_r. now exists w.
    + now apply IH.
Qed.

Lemma allChars_app (p : ascii -> bool) (a b : string) :
  allChars p (a ++ b) = allChars p a && allChars p b.
Proof. induction a as [|c a IH]; simpl; [reflexivity | now rewrite IH, andb_assoc]. Qed.

Lemma Matches_groupFree (r : regex) (w : string) (c : captures) :
  Matches r w c -> groupFree r = true -> c = [].
Proof.
  induction 1; simpl; intros G; try reflexivity.
  - apply andb_true_iff in G. destruct G as [G1 G2]. now rewrite IHMatches1, IHMatches2.
  - now rewrite IHMatches1, IHMatches2.
  - discriminate.
Qed.

Lemma Matches_star_chars (p : ascii -> bool) (w : string) (c : captures) :
  Matches (Star (Char p)) w c -> allChars p w = true.
Proof.
  remember (Star (Char p)) as r eqn:Er. induction 1; try discriminate.
  - reflexivity.
  - inversion Er; subst. rewrite allChars_app, IHMatches2 by reflexivity.
    inversion H; subst. simpl.
    match goal with Hp : p _ = true |- _ => now rewrite Hp end.
Qed.

Lemma Matches_plus_chars (p : ascii -> bool) (w : string) (c : captures) :
  Matches (Plus (Char p)) w c -> w <> EmptyString /\ allChars p w = true /\ c = [].
Proof.
  intros H. pose proof (Matches_groupFree _ _ _ H eq_refl) as Hc.
  assert (Hw : w <> EmptyString /\ allChars p w = true); [|tauto].
  clear Hc. unfold Plus in H. inversion H; subst.
  match goal with
  | H1 : Matches (Char p) _ _, H2 : Matches (Star (Char p)) _ _ |- _ =>
      inversion H1; subst; apply Matches_star_chars in H2; simpl; rewrite H2
  end.
  split; [discriminate|].
  match goal with Hp : p _ = true |- _ => now rewrite Hp end.
Qed.

Lemma Matches_seq_inv (r1 r2 : regex) (w : string) (c : captures) :
  Matches (Seq r1 r2) w c ->
  exists w1 w2 c1 c2,
    w = (w1 ++ w2)%string /\ c = c2 ++ c1 /\ Matches r1 w1 c1 /\ Matches r2 w2 c2.
Proof. intros H. inversion H; subst. now exists w1, w2, c1, c2. Qed.

Lemma Matches_group_inv (i : nat) (r : regex) (w : string) (c : captures) :
  Matches (Group i r) w c -> exists c', c = (i, w) :: c' /\ Matches r w c'.
Proof. intros H. inversion H; subst. now eexists. Qed.

Lemma header_groups (w : string) (m : captures) :
  Matches Patterns.header w m ->
  exists g1 g2,
    m = [(2%nat, g2); (1%nat, g1)] /\
    g1 <> EmptyString /\ allChars isDigit g1 = true /\ g2 <> EmptyString.
Proof.
  unfold Patterns.header, seqs. cbn [fold_right]. intros H.
  apply Matches_seq_inv in H. destruct H as (w1 & t1 & c1 & d1 & -> & -> & M1 & H).
  apply Matches_seq_inv in H. destruct H as (w2 & t2 & c2 & d2 & -> & -> & M2 & H).
  apply Matches_seq_inv in H. destruct H as (w3 & t3 & c3 & d3 & -> & -> & M3 & H).
  apply Matches_seq_inv in H. destruct H as (w4 & t4 & c4 & d4 & -> & -> & M4 & H).
  apply Matches_seq_inv in H. destruct H as (w5 & t5 & c5 & d5 & -> & -> & M5 & H).
  apply Matches_seq_inv in H. destruct H as (w6 & t6 & c6 & d6 & -> & -> & M6 & H).
  apply Matches_seq_inv in H. destruct H as (w7 & t7 & c7 & d7 & -> & -> & M7 & H).
  apply Matches_seq_inv in H. destruct H as (w8 & t8 & c8 & d8 & -> & -> & M8 & H).
  inversion H; subst.
  apply Matches_groupFree in M1; [|reflexivity].
  apply Matches_groupFree in M2; [|reflexivity].
  apply Matches_groupFree in M3; [|reflexivity].
  apply Matches_groupFree in M4; [|reflexivity].
  apply Matches_groupFree in M6; [|reflexivity].
  apply Matches_groupFree in M7; [|reflexivity].
  apply Matches_group_inv in M5. destruct M5 as (e5 & -> & M5).
  apply Matches_group_inv in M8. destruct M8 as (e8 & -> & M8).
  apply Matches_plus_chars in M5. destruct M5 as (N5 & A5 & ->).
  apply Matches_plus_chars in M8. destruct M8 as (N8 & A8 & ->).
  subst. exists w5, w8. simpl. repeat split; auto.
Qed.

Lemma summary_groups (w : string) (m : captures) :
  Matches Patterns.summary w m -> exists g, m = [(1%nat, g)].
Proof.
  unfold Patterns.summary, seqs. cbn [fold_right]. intros H.
  apply Matches_seq_inv in H. destruct H as (w1 & t1 & c1 & d1 & -> & -> & M1 & H).
  apply Matches_seq_inv in H. destruct H as (w2 & t2 & c2 & d2 & -> & -> & M2 & H).
  apply Matches_seq_inv in H. destruct H as (w3 & t3 & c3 & d3 & -> & -> & M3 & H).
  inversion H; subst.
  apply Matches_groupFree in M1; [|reflexivity].
  apply Matches_groupFree in M2; [|reflexivity].
  apply Matches_group_inv in M3. destruct M3 as (e3 & -> & M3).
  apply Matches_groupFree in M3; [|reflexivity].
  subst. now exists w3.
Qed.

Lemma conceptIds_groups (w : string) (m : captures) :
  Matches Patterns.conceptIds w m -> exists g, m = [(1%nat, g)].
Proof.
  unfold Patterns.conceptIds, seqs. cbn [fold_right]. intros H.
  apply Matches_seq_inv in H. destruct H as (w1 & t1 & c1 & d1 & -> & -> & M1 & H).
  apply Matches_seq_inv in H. destruct H as (w2 & t2 & c2 & d2 & -> & -> & M2 & H).
  apply Matches_seq_inv in H. destruct H as (w3 & t3 & c3 & d3 & -> & -> & M3 & H).
  inversion H; subst.
  apply Matches_groupFree in M1; [|reflexivity].
  apply Matches_groupFree in M2; [|reflexivity].
  apply Matches_group_inv in M3. destruct M3 as (e3 & -> & M3).
  apply Matches_groupFree in M3; [|reflexivity].
  subst. now exists w3.
Qed.

(** Every group that [parseChapterOutlines] reads after a successful match
    took part in the match. *)
Lemma groups_read_are_defined (block : string) (m : captures) :
  (exec Patterns.header block = Some m ->
   exists g1 g2, group 1 m = Some g1 /\ group 2 m = Some g2) /\
  (exec Patterns.summary block = Some m -> exists g, group 1 m = Some g) /\
  (exec Patterns.conceptIds block = Some m -> exists g, group 1 m = Some g).
Proof.
  repeat split; intros H; apply exec_sound in H; destruct H as [w M].
  - apply header_groups in M. destruct M as (g1 & g2 & -> & _). now exists g1, g2.
  - apply summary_groups in M. destruct M as [g ->]. now exists g.
  - apply conceptIds_groups in M. destruct M as [g ->]. now exists g.
Qed.

End RegExpProperties.

(** ** Sorting *)

Section SortProperties.
Context {A : Type}.
Variable compareFn : A -> A -> number.
Variable P : A -> Prop.
Variable R : A -> A -> Prop.
Hypothesis after_R : forall a b, P a -> P b -> sortsAfter compareFn a b = true -> R b a.
Hypothesis before_R : forall a b, P a -> P b -> sortsAfter compareFn a b = false -> R a b.
Hypothesis R_trans : forall a b c, P a -> P b -> P c -> R a b -> R b c -> R a c.

Lemma insertSorted_perm (x : A) (l : list A) :
  Permutation (insertSorted compareFn x l) (x :: l).
Proof.
  induction l as [|y l IH]; simpl; [reflexivity|].
  destruct (sortsAfter compareFn x y); [|reflexivity].
  rewrite IH. apply perm_swap.
Qed.

Lemma sort_perm (l : list A) : Permutation (sort compareFn l) l.
Proof.
  induction l as [|x l IH]; simpl; [reflexivity|].
  rewrite insertSorted_perm. now constructor.
Qed.

Lemma insertSorted_sorted (x : A) (l : list A) :
  P x -> Forall P l -> StronglySorted R l -> StronglySorted R (insertSorted compareFn x l).
Proof.
  intros Px. induction l as [|y l IH]; intros Pl Hs; simpl.
  - repeat constructor.
  - inversion Pl as [|? ? Py Pl']; subst. inversion Hs as [|? ? Hs' Hy]; subst.
    destruct (sortsAfter compareFn x y) eqn:E.
    + constructor; [now apply IH|].
      apply (Permutation_Forall (x := x :: l)).
      * symmetry. apply insertSorted_perm.
      * constructor; [now apply after_R | exact Hy].
    + constructor; [exact Hs|]. constructor; [now apply before_R|].
      rewrite Forall_forall in Hy, Pl' |- *. intros z Hz.
      apply (R_trans x y z); auto.
Qed.

Lemma sort_sorted (l : list A) : Forall P l -> StronglySorted R (sort compareFn l).
Proof.
  induction l as [|x l IH]; intros Pl; simpl; [constructor|].
  inversion Pl; subst. apply insertSorted_sorted; auto.
  apply (Permutation_Forall (x := l)); [symmetry; apply sort_perm | assumption].
Qed.

End SortProperties.

(** ** The chapter-outline extractor *)

Lemma fold_push_filter {A B : Type} (g : A -> B) (test : B -> bool) (xs : list A) (acc : list B) :
  fold_left (fun out x => if test (g x) then out ++ [g x] else out) xs acc
  = acc ++ filter test (map g xs).
Proof.
  revert acc; induction xs as [|x xs IH]; intros acc; simpl.
  - now rewrite app_nil_r.
  - rewrite IH. destruct (test (g x)); [now rewrite <- app_assoc | reflexivity].
Qed.

Lemma sameValueZero_refl (x : number) : sameValueZero x x = true.
Proof.
  destruct x as [[]|[]| |[] m e]; try reflexivity;
    unfold sameValueZero, SFeqb, SFcompare;
    now rewrite Z.compare_refl, Pos.compare_cont_refl.
Qed.

Lemma ofNat_count (n : nat) : countNumber (ofNat n).
Proof.
  unfold ofNat. replace (Z.of_nat n) with (Z.of_N (N.of_nat n)) by lia. apply ofN_count.
Qed.

Lemma parseBlock_number (conceptMap : ConceptMap) (block : string) (o : ChapterOutline.t) :
  parseBlock conceptMap block = Some o -> exists n, ChapterOutline.number o = ofN n.
Proof.
  unfold parseBlock. destruct (RegExp.exec Patterns.header block) as [m|] eqn:E; [|discriminate].
  intros H. inversion H; subst. cbn [ChapterOutline.number].
  apply exec_sound in E. destruct E as [w M].
  apply header_groups in M. destruct M as (g1 & g2 & -> & N1 & A1 & _).
  cbn. exists (decimalValue g1). now apply Number_digits.
Qed.

Lemma StronglySorted_weaken {A : Type} (P : A -> Prop) (R S : A -> A -> Prop) (l : list A) :
  (forall a b, P a -> P b -> R a b -> S a b) ->
  Forall P l -> StronglySorted R l -> StronglySorted S l.
Proof.
  intros HRS. induction l as [|x l IH]; intros HP Hs; [constructor|].
  inversion HP as [|? ? Px Pl]; subst. inversion Hs as [|? ? Hs' Hx]; subst.
  constructor; [now apply IH|].
  rewrite Forall_forall in Hx, Pl |- *. intros y Hy. apply HRS; auto.
Qed.

Lemma parseBlocks_collect (conceptMap : ConceptMap) (blocks : list string) :
  parseBlocks conceptMap blocks = collect (parseBlock conceptMap) blocks.
Proof. unfold parseBlocks. now rewrite fold_push_collect. Qed.

Lemma fillGaps_eq (found : list number) (chapterCount : nat) (courseTopics : list string)
      (conceptMap : ConceptMap) (outlines : list ChapterOutline.t) :
  fillGaps found chapterCount courseTopics conceptMap outlines
  = outlines ++ map (defaultOutline courseTopics conceptMap) (missingChapters found chapterCount).
Proof.
  unfold fillGaps, missingChapters. generalize (seq 1 chapterCount) as ns. intros ns.
  revert outlines. induction ns as [|n ns IH]; intros outlines; simpl.
  - now rewrite app_nil_r.
  - rewrite IH. destruct (existsb (sameValueZero (ofNat n)) found); simpl;
      [reflexivity | now rewrite <- app_assoc].
Qed.

Lemma compareOutlines_decides (a b : ChapterOutline.t) :
  countNumber (ChapterOutline.number a) -> countNumber (ChapterOutline.number b) ->
  (sortsAfter compareOutlines a b = true -> outlineLe b a) /\
  (sortsAfter compareOutlines a b = false -> outlineLe a b).
Proof. intros Ha Hb. apply (sub_decides _ _ Ha Hb). Qed.

(** C2 (as the code has it).  The result is the list of the records parsed
    from the blocks of the text together with one synthesized record for each
    chapter number from 1 to the required total that no parsed record carries,
    sorted ascending by chapter number.  So every chapter number from 1 to the
    total occurs in the result.  A synthesized record carries that number, the
    fallback title for it (or "Chapter n" when the list of titles is too
    short) and the numbers read from the entries of the mapping for it (none
    when the mapping has no entry). *)
Theorem parseChapterOutlines_complete :
  forall (raw : string) (chapterCount : nat) (courseTopics : list string)
         (conceptMap : ConceptMap),
    let parsed := parseBlocks conceptMap (blocksOf raw) in
    let missing := missingChapters (map ChapterOutline.number parsed) chapterCount in
    let result := parseChapterOutlines raw chapterCount courseTopics conceptMap in
    Permutation result (parsed ++ map (defaultOutline courseTopics conceptMap) missing) /\
    StronglySorted ascending result /\
    (forall o, In o result -> exists k : N, ChapterOutline.number o = ofN k) /\
    (forall n, (1 <= n <= chapterCount)%nat ->
       exists o, In o result /\ sameValueZero (ofNat n) (ChapterOutline.number o) = true) /\
    NoDup missing /\
    (forall n, In n missing ->
       (1 <= n <= chapterCount)%nat /\
       (forall o, In o parsed -> sameValueZero (ofNat n) (ChapterOutline.number o) = false) /\
       ChapterOutline.number (defaultOutline courseTopics conceptMap n) = ofNat n /\
       ChapterOutline.title (defaultOutline courseTopics conceptMap n)
       = nth_error courseTopics (n - 1) ?? ("Chapter " ++ natToString n)%string /\
       ChapterOutline.concepts (defaultOutline courseTopics conceptMap n)
       = filter (fun x => negb (isNaN x)) (map leadingNumber (conceptMap (ofNat n) ?? []))).
Proof.
  intros raw chapterCount courseTopics conceptMap parsed missing result.
  assert (Hres : result = sort compareOutlines
                           (parsed ++ map (defaultOutline courseTopics conceptMap) missing)).
  { unfold result, parseChapterOutlines. fold (blocksOf raw). fold parsed.
    now rewrite fillGaps_eq. }
  assert (Hperm : Permutation result
                    (parsed ++ map (defaultOutline courseTopics conceptMap) missing)).
  { rewrite Hres. apply sort_perm. }
  assert (Hnum : Forall (fun o => exists k, ChapterOutline.number o = ofN k)
                        (parsed ++ map (defaultOutline courseTopics conceptMap) missing)).
  { apply Forall_app. split; apply Forall_forall; intros o Ho.
    - unfold parsed in Ho. rewrite parseBlocks_collect in Ho. apply in_collect in Ho.
      destruct Ho as [block [_ Hb]]. now apply (parseBlock_number conceptMap block).
    - apply in_map_iff in Ho. destruct Ho as [n [<- _]]. exists (N.of_nat n).
      cbn [defaultOutline ChapterOutline.number]. unfold ofNat, ofN. f_equal. lia. }
  assert (Hmissing : forall n, In n missing <->
            (1 <= n <= chapterCount)%nat /\
            existsb (sameValueZero (ofNat n)) (map ChapterOutline.number parsed) = false).
  { intros n. unfold missing, missingChapters. rewrite filter_In, in_seq, negb_true_iff.
    split; intros [H1 H2]; split; auto; lia. }
  assert (Hresnum : Forall (fun o => exists k, ChapterOutline.number o = ofN k) result).
  { apply (Permutation_Forall (Permutation_sym Hperm)). exact Hnum. }
  split; [exact Hperm|]. split; [|split; [|split; [|split]]].
  - apply (StronglySorted_weaken
             (fun o => exists k, ChapterOutline.number o = ofN k) outlineLe ascending).
    + intros a b [ka Ha] [kb Hb] Hab. unfold ascending, outlineLe in *.
      rewrite Ha, Hb in *. apply le_exactLe; auto using ofN_count, ofN_valid.
    + exact Hresnum.
    + rewrite Hres.
      apply (sort_sorted compareOutlines
               (fun o => exists k, ChapterOutline.number o = ofN k) outlineLe).
      * intros a b [ka Ha] [kb Hb]. apply compareOutlines_decides;
          [rewrite Ha | rewrite Hb]; apply ofN_count.
      * intros a b [ka Ha] [kb Hb]. apply compareOutlines_decides;
          [rewrite Ha | rewrite Hb]; apply ofN_count.
      * intros a b c [ka Ha] [kb Hb] [kc Hc]. unfold outlineLe. rewrite Ha, Hb, Hc.
        apply exactLe_trans; apply ofN_count.
      * exact Hnum.
  - apply Forall_forall. exact Hresnum.
  - intros n Hn.
    destruct (existsb (sameValueZero (ofNat n)) (map ChapterOutline.number parsed)) eqn:E.
    + apply existsb_exists in E. destruct E as [x [Hx Hs]].
      apply in_map_iff in Hx. destruct Hx as [o [<- Ho]].
      exists o. split; [|exact Hs].
      apply (Permutation_in o (Permutation_sym Hperm)). apply in_or_app. now left.
    + exists (defaultOutline courseTopics conceptMap n). split; [|apply sameValueZero_refl].
      apply (Permutation_in _ (Permutation_sym Hperm)). apply in_or_app. right.
      apply in_map. apply Hmissing. now split.
  - unfold missing, missingChapters. apply NoDup_filter, seq_NoDup.
  - intros n Hn. apply Hmissing in Hn. destruct Hn as [Hn E]. split; [exact Hn|].
    split; [|repeat split].
    intros o Ho. destruct (sameValueZero (ofNat n) (ChapterOutline.number o)) eqn:Es; [|reflexivity].
    assert (Hex : existsb (sameValueZero (ofNat n)) (map ChapterOutline.number parsed) = true).
    { apply existsb_exists. exists (ChapterOutline.number o). split; [now apply in_map | exact Es]. }
    congruence.
Qed.

Lemma parseChapterOutlines_complete_witness :
  exists o,
    In o (parseChapterOutlines ("## Chapter 1: One" ++ String "010" "---" ++ String "010" "## Chapter 3: Three")
                               3 ["Alpha"; "Beta"; "Gamma"] (fun _ => None)) /\
    sameValueZero (ofNat 2) (ChapterOutline.number o) = true.
Proof.
  exact (proj1 (proj2 (proj2 (proj2 (parseChapterOutlines_complete
           ("## Chapter 1: One" ++ String "010" "---" ++ String "010" "## Chapter 3: Three")
           3 ["Alpha"; "Beta"; "Gamma"] (fun _ => None)))))
         2%nat (conj (le_S 1 1 (le_n 1)) (le_S 2 2 (le_n 2)))).
Defined.

(** C2 as stated fails: two blocks that both claim chapter 1 both survive, so
    chapter 1 has two records; and a block that claims chapter 7 survives when
    the required total is 1, so the result holds a record outside 1..1. *)
Lemma duplicate_and_foreign_chapters_survive :
  map ChapterOutline.number
      (parseChapterOutlines ("## Chapter 1: First" ++ String "010" "---" ++ String "010" "## Chapter 1: Again")
                            1 [] (fun _ => None))
  = [ofNat 1; ofNat 1] /\
  map ChapterOutline.number
      (parseChapterOutlines "## Chapter 7: Seventh" 1 [] (fun _ => None))
  = [ofNat 1; ofNat 7].
Proof. split; vm_compute; reflexivity. Qed.


Lemma split_without_separator (sep : ascii) (s : string) :
  allChars (fun c => negb (Ascii.eqb c sep)) s = true -> JSString.split sep s = [s].
Proof.
  induction s as [|c s IH]; simpl; [reflexivity|]. intros H.
  apply andb_true_iff in H. destruct H as [Hc Hs]. apply negb_true_iff in Hc.
  now rewrite Hc, (IH Hs).
Qed.

Lemma digits_without_dot (s : string) :
  allChars isDigit s = true -> allChars (fun c => negb (Ascii.eqb c ".")) s = true.
Proof.
  induction s as [|c s IH]; simpl; [reflexivity|]. intros H.
  apply andb_true_iff in H. destruct H as [Hc Hs]. rewrite (IH Hs), andb_true_r.
  destruct (digit_facts c Hc) as (_ & _ & _ & _ & _ & _ & Hdot & _). now rewrite Hdot.
Qed.


(** ** Trimming and lower case *)

Lemma trimEnd_cons (c : ascii) (s : string) :
  trimEnd (String c s)
  = match trimEnd s with
    | EmptyString => if isWhiteSpace c then EmptyString else String c EmptyString
    | t => String c t
    end.
Proof. reflexivity. Qed.

Lemma trimEnd_idempotent (s : string) : trimEnd (trimEnd s) = trimEnd s.
Proof.
  induction s as [|c s IH]; [reflexivity|].
  rewrite trimEnd_cons. destruct (trimEnd s) as [|d t] eqn:E.
  - destruct (isWhiteSpace c) eqn:W; [reflexivity|].
    rewrite trimEnd_cons. simpl. now rewrite W.
  - rewrite trimEnd_cons. now rewrite IH.
Qed.

Lemma trimEnd_head (c : ascii) (s : string) :
  isWhiteSpace c = false -> exists t, trimEnd (String c s) = String c t.
Proof.
  intros W. simpl. destruct (trimEnd s) as [|d t].
  - rewrite W. now exists EmptyString.
  - now exists (String d t).
Qed.

Lemma trimStart_head (s : string) (c : ascii) (t : string) :
  trimStart s = String c t -> isWhiteSpace c = false.
Proof.
  induction s as [|a s IH]; simpl; [discriminate|].
  destruct (isWhiteSpace a) eqn:W; [exact IH|]. intros H. inversion H; subst. exact W.
Qed.

Lemma trimStart_fixed (c : ascii) (t : string) :
  isWhiteSpace c = false -> trimStart (String c t) = String c t.
Proof. intros W. simpl. now rewrite W. Qed.

Lemma trim_idempotent (s : string) : trim (trim s) = trim s.
Proof.
  unfold trim. destruct (trimStart s) as [|c t] eqn:E; [reflexivity|].
  pose proof (trimStart_head s c t E) as W.
  destruct (trimEnd_head c t W) as [u Hu]. rewrite Hu.
  rewrite (trimStart_fixed c u W), <- Hu. apply trimEnd_idempotent.
Qed.

Lemma trimStart_decompose (s : string) : exists pre, s = (pre ++ trimStart s)%string.
Proof.
  induction s as [|c s [pre IH]]; simpl.
  - now exists EmptyString.
  - destruct (isWhiteSpace c).
    + exists (String c pre). simpl. now rewrite <- IH.
    + now exists EmptyString.
Qed.

Lemma trimEnd_decompose (s : string) : exists post, s = (trimEnd s ++ post)%string.
Proof.
  induction s as [|c s [post IH]]; simpl.
  - now exists EmptyString.
  - destruct (trimEnd s) as [|d t] eqn:E.
    + destruct (isWhiteSpace c).
      * now exists (String c s).
      * exists s. reflexivity.
    + exists post. simpl. simpl in IH. now rewrite <- IH.
Qed.

Lemma trim_decompose (s : string) : exists pre post, s = (pre ++ trim s ++ post)%string.
Proof.
  unfold trim. destruct (trimStart_decompose s) as [pre Hpre].
  destruct (trimEnd_decompose (trimStart s)) as [post Hpost].
  exists pre, post. now rewrite <- Hpost.
Qed.

Lemma toLowerCase_app (a b : string) :
  toLowerCase (a ++ b) = (toLowerCase a ++ toLowerCase b)%string.
Proof. induction a as [|c a IH]; simpl; [reflexivity | now rewrite IH]. Qed.

Lemma Contains_trans (needle s t : string) :
  Contains needle s -> Contains s t -> Contains needle t.
Proof.
  intros [b1 [a1 ->]] [b2 [a2 ->]].
  exists (b2 ++ b1)%string, (a1 ++ a2)%string. now rewrite !string_app_assoc.
Qed.

Lemma includes_trim_lower (needle raw : string) :
  includes needle (toLowerCase raw) = false ->
  includes needle (toLowerCase (trim raw)) = false.
Proof.
  intros H. apply includes_false_iff. intros C. apply includes_false_iff in H. apply H.
  apply (Contains_trans _ _ _ C).
  destruct (trim_decompose raw) as [pre [post E]].
  exists (toLowerCase pre), (toLowerCase post).
  rewrite E at 1. now rewrite !toLowerCase_app.
Qed.

(** ** The normalizers *)

(** X1.  Both normalizers are idempotent: a level that has been normalized
    is left as it is by a second normalization. *)
Theorem normalizers_idempotent :
  forall raw : string,
    normalizeTaxonomy (normalizeTaxonomy raw) = normalizeTaxonomy raw /\
    normalizeBloom (normalizeBloom raw) = normalizeBloom raw.
Proof.
  intros raw. split.
  - unfold normalizeTaxonomy at 2 3.
    destruct (includes "found" (toLowerCase raw)); [reflexivity|].
    destruct (includes "adv" (toLowerCase raw)); reflexivity.
  - unfold normalizeBloom at 2 3.
    destruct (includes "remember" (toLowerCase raw)) eqn:E1; [reflexivity|].
    destruct (includes "understand" (toLowerCase raw)) eqn:E2; [reflexivity|].
    destruct (includes "apply" (toLowerCase raw)) eqn:E3; [reflexivity|].
    destruct (includes "analyz" (toLowerCase raw)) eqn:E4; [reflexivity|].
    destruct (includes "evaluat" (toLowerCase raw)) eqn:E5; [reflexivity|].
    destruct (includes "creat" (toLowerCase raw)) eqn:E6; [reflexivity|].
    unfold normalizeBloom.
    rewrite !includes_trim_lower by assumption. apply trim_idempotent.
Qed.

(** X2.  Bloom normalization looks for the six keywords in the order
    remember, understand, apply, analyz, evaluat, creat in the lower-case
    form of its input: the first keyword found decides the level, and an
    input without any keyword is returned trimmed. *)
Theorem normalizeBloom_cases :
  forall raw : string,
    let lower := toLowerCase raw in
    (Contains "remember" lower -> normalizeBloom raw = "Remember") /\
    (~ Contains "remember" lower -> Contains "understand" lower ->
     normalizeBloom raw = "Understand") /\
    (~ Contains "remember" lower -> ~ Contains "understand" lower ->
     Contains "apply" lower -> normalizeBloom raw = "Apply") /\
    (~ Contains "remember" lower -> ~ Contains "understand" lower ->
     ~ Contains "apply" lower -> Contains "analyz" lower ->
     normalizeBloom raw = "Analyze") /\
    (~ Contains "remember" lower -> ~ Contains "understand" lower ->
     ~ Contains "apply" lower -> ~ Contains "analyz" lower ->
     Contains "evaluat" lower -> normalizeBloom raw = "Evaluate") /\
    (~ Contains "remember" lower -> ~ Contains "understand" lower ->
     ~ Contains "apply" lower -> ~ Contains "analyz" lower ->
     ~ Contains "evaluat" lower -> Contains "creat" lower ->
     normalizeBloom raw = "Create") /\
    (~ Contains "remember" lower -> ~ Contains "understand" lower ->
     ~ Contains "apply" lower -> ~ Contains "analyz" lower ->
     ~ Contains "evaluat" lower -> ~ Contains "creat" lower ->
     normalizeBloom raw = trim raw).
Proof.
  intros raw lower. unfold normalizeBloom. fold lower.
  repeat split; intros;
    repeat match goal with
           | H : Contains _ _ |- _ => apply includes_iff in H; rewrite ?H
           | H : ~ Contains _ _ |- _ => apply includes_false_iff in H; rewrite ?H
           end; reflexivity.
Qed.

Lemma normalizeBloom_cases_witness :
  normalizeBloom "Analyzing and creating" = "Analyze" /\
  normalizeBloom "  Synthesis " = "Synthesis".
Proof.
  split.
  - apply (proj1 (proj2 (proj2 (proj2 (normalizeBloom_cases "Analyzing and creating")))));
      try (apply includes_false_iff; reflexivity).
    apply includes_iff. reflexivity.
  - apply (proj2 (proj2 (proj2 (proj2 (proj2 (proj2 (normalizeBloom_cases "  Synthesis ")))))));
      apply includes_false_iff; reflexivity.
Defined.

(** ** Integers below 2^53 *)

Section ExactIntegers.
Local Open Scope Z_scope.

Lemma shr_fexp_fixed (m e : Z) (l : location) :
  fexp prec emax (Zdigits2 m + e) = e ->
  shr_fexp prec emax m e l = (shr_record_of_loc m l, e).
Proof. intros H. unfold shr_fexp. rewrite H, Z.sub_diag. reflexivity. Qed.

Lemma binary_round_aux_fixed (s : bool) (m : positive) (e : Z) :
  fexp prec emax (Zdigits2 (Zpos m) + e) = e -> e <= emax - prec ->
  binary_round_aux prec emax s (Zpos m) e loc_Exact = S754_finite s m e.
Proof.
  intros H He. unfold binary_round_aux. rewrite (shr_fexp_fixed _ _ _ H).
  cbn [shr_record_of_loc shr_m loc_of_shr_record shr_r shr_s round_nearest_even].
  rewrite (shr_fexp_fixed _ _ _ H). cbn [shr_record_of_loc shr_m].
  apply Z.leb_le in He. now rewrite He.
Qed.

Lemma digits2_pos_unique (p : positive) (d : Z) :
  2 ^ (d - 1) <= Zpos p < 2 ^ d -> Zpos (digits2_pos p) = d.
Proof.
  intros [Hl Hu].
  pose proof (digits2_pos_lower p) as L. pose proof (digits2_pos_upper p) as U.
  assert (Hd : 0 < d).
  { destruct (Z.lt_ge_cases 0 d) as [|Hneg]; [assumption|].
    rewrite Z.pow_neg_r in Hl by lia.
    destruct (Z.eq_dec d 0) as [->|]; [simpl in Hu; lia|].
    rewrite Z.pow_neg_r in Hu by lia. lia. }
  assert (A : Zpos (digits2_pos p) - 1 < d).
  { apply (Z.pow_lt_mono_r_iff 2); lia. }
  assert (B : d - 1 < Zpos (digits2_pos p)).
  { apply (Z.pow_lt_mono_r_iff 2); lia. }
  lia.
Qed.

(** An integer from 1 to 2^53 - 1 is a Number, exactly. *)
Lemma ofZ_exact (k : Z) :
  0 < k < 2 ^ 53 ->
  exists m e, ofZ k = S754_finite false m e /\ emin <= e /\ e <= 0 /\
              Zpos m = k * 2 ^ (- e) /\
              Zpos m * 2 ^ (e - emin) = k * 2 ^ (- emin).
Proof.
  intros [Hk Hu]. destruct k as [|p|p]; try lia. unfold ofZ. cbn [binary_normalize].
  unfold binary_round.
  pose proof (digits2_pos_lower p) as L. pose proof (digits2_pos_upper p) as U.
  set (d := Zpos (digits2_pos p)) in *.
  assert (Hd1 : 1 <= d) by (unfold d; lia).
  assert (Hd : d <= 53).
  { assert (d - 1 < 53) by (apply (Z.pow_lt_mono_r_iff 2); lia). lia. }
  assert (Hf : fexp prec emax (d + 0) = d - 53).
  { unfold fexp, SpecFloat.emin, prec, emax. lia. }
  rewrite Hf.
  destruct (shl_align_value p 0 (d - 53)) as [Hm He]; [lia|].
  destruct (shl_align p 0 (d - 53)) as [mz ez]. cbn [fst snd] in Hm, He. subst ez.
  replace (0 - (d - 53)) with (53 - d) in Hm by lia.
  assert (Hsplit : 2 ^ 53 = 2 ^ d * 2 ^ (53 - d)).
  { rewrite <- Z.pow_add_r by lia. f_equal. lia. }
  assert (Hsplit' : 2 ^ 52 = 2 ^ (d - 1) * 2 ^ (53 - d)).
  { rewrite <- Z.pow_add_r by lia. f_equal. lia. }
  assert (Hpos : 0 < 2 ^ (53 - d)) by (apply Z.pow_pos_nonneg; lia).
  assert (Hdz : Zpos (digits2_pos mz) = 53).
  { apply digits2_pos_unique. change (53 - 1) with 52. rewrite Hm. nia. }
  rewrite binary_round_aux_fixed.
  - exists mz, (d - 53). split; [reflexivity|]. split.
    + unfold emin, SpecFloat.emin, prec, emax. lia.
    + split; [lia|]. split.
      * rewrite Hm. f_equal. f_equal. lia.
      * rewrite Hm. rewrite <- Z.mul_assoc. f_equal.
        rewrite <- Z.pow_add_r; [f_equal; lia | lia |].
        unfold emin, SpecFloat.emin, prec, emax. lia.
  - cbn [Zdigits2]. rewrite Hdz. unfold fexp, SpecFloat.emin, prec, emax. lia.
  - unfold prec, emax. lia.
Qed.

Lemma ofNat_order (i j : nat) :
  (i <= j)%nat -> Z.of_nat j < 2 ^ 53 -> exactLe (ofNat i) (ofNat j).
Proof.
  intros Hij Hj. unfold ofNat.
  assert (P : 0 < 2 ^ (- emin)) by (apply Z.pow_pos_nonneg; unfold emin, SpecFloat.emin, prec, emax; lia).
  destruct (Nat.eq_dec i 0) as [->|Hi].
  - change (ofZ (Z.of_nat 0)) with (S754_zero false).
    destruct (Nat.eq_dec j 0) as [->|Hj0]; [simpl; lia|].
    destruct (ofZ_exact (Z.of_nat j)) as (m & e & -> & He & _ & _ & Hv); [lia|].
    unfold exactLe, scaled. cbn [cond_Zopp]. rewrite Hv. nia.
  - destruct (ofZ_exact (Z.of_nat i)) as (mi & ei & -> & Hei & _ & _ & Hvi); [lia|].
    destruct (ofZ_exact (Z.of_nat j)) as (mj & ej & -> & Hej & _ & _ & Hvj); [lia|].
    unfold exactLe, scaled. cbn [cond_Zopp]. rewrite Hvi, Hvj. nia.
Qed.

End ExactIntegers.

(** ** The records of the concept table *)

Lemma rowCells_trimmed (line cell : string) :
  In cell (rowCells line) -> cell <> "" /\ trim cell = cell.
Proof.
  unfold rowCells. intros H. apply filter_In in H. destruct H as [Hin Ht].
  apply in_map_iff in Hin. destruct Hin as [x [<- _]]. split.
  - intros E. rewrite E in Ht. discriminate.
  - apply trim_idempotent.
Qed.

Lemma normalizeTaxonomy_range (raw : string) :
  In (normalizeTaxonomy raw) ["Foundation"; "Advanced"; "Core"].
Proof.
  unfold normalizeTaxonomy.
  destruct (includes "found" (toLowerCase raw)); [now left|].
  destruct (includes "adv" (toLowerCase raw)); simpl; auto.
Qed.

Lemma normalizeBloom_trimmed (raw : string) :
  trim raw <> "" ->
  normalizeBloom raw <> "" /\ trim (normalizeBloom raw) = normalizeBloom raw.
Proof.
  intros Hne. unfold normalizeBloom.
  repeat match goal with
         | |- context [if ?b then _ else _] => destruct b; [split; [discriminate | reflexivity]|]
         end.
  split; [exact Hne | apply trim_idempotent].
Qed.

(** X3.  Every record of the concept table has an identifier that is a
    number, a name that is not empty and has no white space around it, a
    chapter that is a number other than zero, one of the three taxonomy
    levels, and a Bloom level that is not empty and has no white space around
    it. *)
Theorem parseConceptTable_records :
  forall (raw : string) (c : Concept.t),
    In c (parseConceptTable raw) ->
    isNaN (Concept.id c) = false /\
    Concept.name c <> "" /\ trim (Concept.name c) = Concept.name c /\
    nonZeroNumber (Concept.chapter c) = true /\
    In (Concept.taxonomy c) ["Foundation"; "Advanced"; "Core"] /\
    Concept.bloomLevel c <> "" /\ trim (Concept.bloomLevel c) = Concept.bloomLevel c.
Proof.
  intros raw c Hc. rewrite parseConceptTable_collect in Hc.
  apply in_collect in Hc. destruct Hc as [line [_ Hrow]].
  apply parseConceptRow_some in Hrow.
  destruct Hrow as (c1 & c2 & c3 & c4 & c5 & c6 & rest & Hcells & Hnum & ->).
  assert (H2 : In c2 (rowCells line)) by (rewrite Hcells; simpl; auto).
  assert (H6 : In c6 (rowCells line)) by (rewrite Hcells; simpl; auto 10).
  apply rowCells_trimmed in H2, H6. destruct H2 as [N2 T2], H6 as [N6 T6].
  unfold conceptOfCells. cbn [Concept.id Concept.name Concept.chapter Concept.taxonomy
                               Concept.bloomLevel].
  split; [exact Hnum|]. split; [exact N2|]. split; [exact T2|]. split.
  - unfold orElse, nonZeroNumber. destruct (Number c3); reflexivity.
  - split; [apply normalizeTaxonomy_range|]. apply normalizeBloom_trimmed. now rewrite T6.
Qed.

Lemma parseConceptTable_records_witness :
  Concept.name (conceptOfCells "7" "Alpha" "" "" "" "Apply") = "Alpha" /\
  nonZeroNumber (Concept.chapter (conceptOfCells "7" "Alpha" "0" "" "core" "Apply")) = true.
Proof.
  assert (H : In (conceptOfCells "7" "Alpha" "0" "" "core" "Apply")
                 (parseConceptTable "|7| Alpha |0|x| core |Apply|")) by (left; reflexivity).
  split; [reflexivity|].
  exact (proj1 (proj2 (proj2 (proj2 (parseConceptTable_records _ _ H))))).
Defined.

(** ** The table of the concept-map page *)

Lemma split_pieces (sep : ascii) (s piece : string) :
  In piece (JSString.split sep s) ->
  allChars (fun c => negb (Ascii.eqb c sep)) piece = true.
Proof.
  revert piece. induction s as [|c s IH]; intros piece Hin; simpl in Hin.
  - destruct Hin as [<-|[]]. reflexivity.
  - destruct (Ascii.eqb c sep) eqn:E.
    + destruct Hin as [<-|Hin]; [reflexivity | now apply IH].
    + pose proof (split_nonempty sep s) as Hne.
      destruct (JSString.split sep s) as [|p ps]; [contradiction|].
      destruct Hin as [<-|Hin].
      * simpl. rewrite E. simpl. apply IH. now left.
      * apply IH. now right.
Qed.

Lemma split_join (sep : ascii) (ls : list string) :
  ls <> [] ->
  Forall (fun l => allChars (fun c => negb (Ascii.eqb c sep)) l = true) ls ->
  JSString.split sep (JSString.join (String sep "") ls) = ls.
Proof.
  induction ls as [|x [|y r] IH]; intros Hne Hall.
  - contradiction.
  - simpl. apply split_without_separator. now inversion Hall.
  - change (JSString.join (String sep "") (x :: y :: r))
      with (x ++ String sep (JSString.join (String sep "") (y :: r)))%string.
    rewrite split_app. inversion Hall as [|? ? Hx Hr]; subst.
    rewrite (split_without_separator sep x Hx), IH; [reflexivity | discriminate | exact Hr].
Qed.

Lemma filter_idempotent {A : Type} (f : A -> bool) (l : list A) :
  filter f (filter f l) = filter f l.
Proof.
  induction l as [|x l IH]; simpl; [reflexivity|].
  destruct (f x) eqn:E; simpl; [now rewrite E, IH | exact IH].
Qed.

Lemma tableLines_cleanTable (raw : string) : tableLines (cleanTable raw) = tableLines raw.
Proof.
  unfold cleanTable. fold (tableLines raw).
  destruct (tableLines raw) as [|l ls] eqn:E; [reflexivity|].
  unfold tableLines at 1. rewrite split_join.
  - rewrite <- E. unfold tableLines. apply filter_idempotent.
  - discriminate.
  - rewrite Forall_forall. intros x Hx. rewrite <- E in Hx. unfold tableLines in Hx.
    apply filter_In in Hx. now apply (split_pieces "010" raw).
Qed.

(** X4.  The table that the concept-map page shows, made of the lines of the
    answer that contain the column separator, carries the same records as the
    answer itself: parsing it again gives the same list of concepts, and
    cleaning it again changes nothing. *)
Theorem cleanTable_round_trip :
  forall raw : string,
    parseConceptTable (cleanTable raw) = parseConceptTable raw /\
    cleanTable (cleanTable raw) = cleanTable raw.
Proof.
  intros raw. split.
  - now rewrite !parseConceptTable_collect, tableLines_cleanTable.
  - unfold cleanTable at 1. fold (tableLines (cleanTable raw)).
    now rewrite tableLines_cleanTable.
Qed.

(** ** The counters of the dependency-graph page *)

Lemma byTaxonomy_partition (concepts : list Concept.t) :
  Forall (fun c => In (Concept.taxonomy c) ["Foundation"; "Advanced"; "Core"]) concepts ->
  (byTaxonomy "Foundation" concepts + byTaxonomy "Core" concepts
   + byTaxonomy "Advanced" concepts = List.length concepts)%nat.
Proof.
  unfold byTaxonomy. induction concepts as [|c cs IH]; intros H; [reflexivity|].
  inversion H as [|? ? Hc Hcs]; subst. specialize (IH Hcs). simpl.
  destruct Hc as [E|[E|[E|[]]]]; rewrite <- E; simpl; lia.
Qed.

(** X5.  On the records of a concept table the three taxonomy rows of the
    dependency-graph page add up to the total, and so do the number of
    concepts with a dependency and the number of entry points. *)
Theorem dependency_graph_counts :
  forall raw : string,
    let concepts := parseConceptTable raw in
    (byTaxonomy "Foundation" concepts + byTaxonomy "Core" concepts
     + byTaxonomy "Advanced" concepts = List.length concepts)%nat /\
    (withDependencies concepts + entryPoints concepts = List.length concepts)%nat.
Proof.
  intros raw concepts. split.
  - apply byTaxonomy_partition. rewrite Forall_forall. intros c Hc.
    unfold concepts in Hc. rewrite parseConceptTable_collect in Hc.
    apply in_collect in Hc. destruct Hc as [line [_ Hrow]].
    apply parseConceptRow_some in Hrow.
    destruct Hrow as (c1 & c2 & c3 & c4 & c5 & c6 & rest & _ & _ & ->).
    apply normalizeTaxonomy_range.
  - unfold withDependencies, entryPoints. generalize concepts as cs.
    induction cs as [|c cs IH]; [reflexivity|]. simpl.
    destruct (List.length (Concept.dependencies c)); simpl; lia.
Qed.

(** ** Outlines of an answer without headings *)

Section OrderOfNumbers.
Local Open Scope Z_scope.

(** The comparator is not positive on two Numbers in ascending order. *)
Lemma sub_ascending (x y : number) :
  countNumber x -> countNumber y -> exactLe x y -> gt (sub x y) (ofZ 0) = false.
Proof.
  intros [->|[->|[mx [ex [-> Hex]]]]] [->|[->|[my [ey [-> Hey]]]]] H;
    try reflexivity; try (simpl in H; contradiction).
  - exfalso. unfold exactLe, scaled in H. cbn [cond_Zopp] in H.
    assert (0 < 2 ^ (ex - emin)) by (apply Z.pow_pos_nonneg; lia). nia.
  - unfold sub, SFsub.
    set (ez := Z.min ex ey).
    destruct (shl_align_value mx ex ez) as [HX _]; [lia|].
    destruct (shl_align_value my ey ez) as [HY _]; [lia|].
    set (X := Zpos (fst (shl_align mx ex ez))) in *.
    set (Y := Zpos (fst (shl_align my ey ez))) in *.
    assert (Hez : emin <= ez) by lia.
    assert (Hsx : scaled (S754_finite false mx ex) = X * 2 ^ (ez - emin)).
    { unfold scaled. cbn [cond_Zopp]. rewrite (pow2_split ex ez emin), HX by lia. apply Z.mul_assoc. }
    assert (Hsy : scaled (S754_finite false my ey) = Y * 2 ^ (ez - emin)).
    { unfold scaled. cbn [cond_Zopp]. rewrite (pow2_split ey ez emin), HY by lia. apply Z.mul_assoc. }
    assert (Hp : 0 < 2 ^ (ez - emin)) by (apply Z.pow_pos_nonneg; lia).
    unfold exactLe in H. rewrite Hsx, Hsy in H. cbn [cond_Zopp].
    destruct (X - Y) as [|p|p] eqn:ED; cbn [binary_normalize].
    + reflexivity.
    + exfalso. nia.
    + now rewrite (gt_zero_signed true) by (apply binary_round_signed; exact Hez).
Qed.

End OrderOfNumbers.

Lemma sort_ascending {A : Type} (compareFn : A -> A -> number) (l : list A) :
  StronglySorted (fun a b => sortsAfter compareFn a b = false) l -> sort compareFn l = l.
Proof.
  induction 1 as [|x l Hs IH Hx]; [reflexivity|]. simpl. rewrite IH.
  destruct l as [|y l']; [reflexivity|]. simpl.
  inversion Hx as [|? ? Hy _]; subst. now rewrite Hy.
Qed.

Lemma StronglySorted_map_seq {A : Type} (R : A -> A -> Prop) (f : nat -> A) (len : nat) :
  forall start,
    (forall i j, (start <= i)%nat -> (i <= j)%nat -> (j < start + len)%nat -> R (f i) (f j)) ->
    StronglySorted R (map f (seq start len)).
Proof.
  induction len as [|len IH]; intros start H; simpl; [constructor|].
  constructor.
  - apply IH. intros i j Hi Hij Hj. apply H; lia.
  - rewrite Forall_forall. intros y Hy. apply in_map_iff in Hy.
    destruct Hy as [j [<- Hj]]. apply in_seq in Hj. apply H; lia.
Qed.

Lemma upper_hash (a : ascii) :
  Ascii.eqb "#" a = false -> Ascii.eqb (upperAscii a) (upperAscii "#") = false.
Proof. destruct a as [[] [] [] [] [] [] [] []]; vm_compute; congruence. Qed.

Lemma header_needs_hash {R : Type} (s : string) (c : RegExp.captures)
      (k : string -> RegExp.captures -> option R) :
  match s with String a _ => Ascii.eqb "#" a = false | EmptyString => True end ->
  RegExp.matchHere Patterns.header s c k = None.
Proof.
  destruct s as [|a s]; intros H; [reflexivity|].
  apply upper_hash in H. unfold Patterns.header, RegExp.seqs.
  cbn [fold_right RegExp.liti RegExp.matchHere]. unfold RegExp.chri at 1.
  cbn [RegExp.matchHere]. now rewrite H.
Qed.

Lemma exec_header_none (s : string) :
  includes "#" s = false -> RegExp.exec Patterns.header s = None.
Proof.
  induction s as [|a s IH]; intros H.
  - cbn [RegExp.exec]. now rewrite header_needs_hash.
  - rewrite includes_char_cons in H. apply orb_false_iff in H. destruct H as [Ha Hs].
    cbn [RegExp.exec]. rewrite header_needs_hash by exact Ha. now apply IH.
Qed.

Lemma includes_char_allChars (x : ascii) (s : string) :
  includes (String x "") s = false <-> allChars (fun c => negb (Ascii.eqb x c)) s = true.
Proof.
  induction s as [|c s IH].
  - split; reflexivity.
  - rewrite includes_char_cons. simpl. rewrite orb_false_iff, andb_true_iff, negb_true_iff.
    now rewrite IH.
Qed.

Lemma splitLoop_chars (p : ascii -> bool) (r : RegExp.regex) (fuel : nat) :
  forall cur rest : string,
    allChars p cur = true -> allChars p rest = true ->
    Forall (fun b => allChars p b = true) (RegExp.splitLoop r fuel cur rest).
Proof.
  induction fuel as [|fuel IH]; intros cur rest Hc Hr; simpl.
  - constructor; [|constructor]. now rewrite allChars_app, Hc, Hr.
  - destruct rest as [|a rest']; [now repeat constructor|].
    assert (Ha : p a = true /\ allChars p rest' = true)
      by (simpl in Hr; now apply andb_true_iff in Hr).
    destruct Ha as [Ha Hr'].
    assert (Hone : allChars p (String a "") = true) by (simpl; now rewrite Ha).
    destruct (RegExp.matchHere r (String a rest') [] (fun s' _ => Some s')) as [s'|] eqn:E.
    + apply matchHere_sound in E. destruct E as (w & s'' & cs & Hw & _ & Hk).
      inversion Hk; subst s''.
      assert (Hs' : allChars p s' = true).
      { rewrite Hw, allChars_app in Hr. now apply andb_true_iff in Hr. }
      destruct (String.length s' =? String.length (String a rest'))%nat.
      * destruct cur; [now apply IH | constructor; [exact Hc | now apply IH]].
      * constructor; [exact Hc | now apply IH].
    + apply IH; [|exact Hr']. now rewrite allChars_app, Hc, Hone.
Qed.

Lemma split_chars (p : ascii -> bool) (r : RegExp.regex) (s : string) :
  allChars p s = true -> Forall (fun b => allChars p b = true) (RegExp.split r s).
Proof.
  intros H. unfold RegExp.split. destruct s as [|a s].
  - destruct (RegExp.matchHere r "" [] (fun _ _ => Some tt)); now repeat constructor.
  - now apply splitLoop_chars.
Qed.

Lemma parseBlocks_without_hash (conceptMap : ConceptMap) (raw : string) :
  includes "#" raw = false -> parseBlocks conceptMap (blocksOf raw) = [].
Proof.
  intros H. rewrite parseBlocks_collect. unfold blocksOf.
  apply includes_char_allChars in H.
  pose proof (split_chars _ Patterns.delimiter raw H) as Hall.
  induction (RegExp.split Patterns.delimiter raw) as [|b bs IH]; [reflexivity|].
  inversion Hall as [|? ? Hb Hbs]; subst. simpl.
  destruct (JSString.truthy (trim b)); [|now apply IH].
  simpl. unfold parseBlock at 1.
  rewrite exec_header_none by (now apply includes_char_allChars). now apply IH.
Qed.

Lemma defaults_ascending (courseTopics : list string) (conceptMap : ConceptMap) (i j : nat) :
  (i <= j)%nat -> (Z.of_nat j < 2 ^ 53)%Z ->
  sortsAfter compareOutlines (defaultOutline courseTopics conceptMap i)
                             (defaultOutline courseTopics conceptMap j) = false.
Proof.
  intros Hij Hj. unfold sortsAfter, compareOutlines, defaultOutline.
  cbn [ChapterOutline.number].
  apply sub_ascending; [apply ofNat_count | apply ofNat_count | now apply ofNat_order].
Qed.

(** X6.  An answer without any number sign has no chapter heading, so no
    block of it gives a record: for a required total below 2^53 the result is
    made of the synthesized records alone, one for each chapter number from 1
    to the total, in ascending order.  The empty answer is such an answer. *)
Theorem parseChapterOutlines_without_headings :
  forall (raw : string) (chapterCount : nat) (courseTopics : list string)
         (conceptMap : ConceptMap),
    includes "#" raw = false -> (Z.of_nat chapterCount < 2 ^ 53)%Z ->
    parseChapterOutlines raw chapterCount courseTopics conceptMap
    = map (defaultOutline courseTopics conceptMap) (seq 1 chapterCount).
Proof.
  intros raw chapterCount courseTopics conceptMap Hraw Hcount.
  unfold parseChapterOutlines. fold (blocksOf raw).
  rewrite (parseBlocks_without_hash conceptMap raw Hraw), fillGaps_eq.
  unfold missingChapters. cbn [map existsb negb app].
  replace (filter (fun _ : nat => true) (seq 1 chapterCount)) with (seq 1 chapterCount).
  - apply sort_ascending. apply StronglySorted_map_seq.
    intros i j Hi Hij Hj. apply defaults_ascending; lia.
  - induction (seq 1 chapterCount) as [|n ns IH]; simpl; [reflexivity | now rewrite <- IH].
Qed.

Lemma parseChapterOutlines_without_headings_witness :
  parseChapterOutlines "" 2 ["Basics"] (fun _ => None)
  = [ChapterOutline.mk (ofZ 1) "Basics" "Chapter 1 covers Basics." [];
     ChapterOutline.mk (ofZ 2) "Chapter 2" "Chapter 2 covers Chapter 2." []].
Proof.
  rewrite (parseChapterOutlines_without_headings "" 2 ["Basics"] (fun _ => None));
    [reflexivity | reflexivity | reflexivity].
Defined.

(** ** The fields of an outline *)

Lemma trimStart_allChars (p : ascii -> bool) (s : string) :
  allChars p s = true -> allChars p (trimStart s) = true.
Proof.
  induction s as [|c s IH]; simpl; [reflexivity|]. intros H.
  apply andb_true_iff in H. destruct H as [Hc Hs].
  destruct (isWhiteSpace c); [now apply IH | simpl; now rewrite Hc, Hs].
Qed.

Lemma trimEnd_allChars (p : ascii -> bool) (s : string) :
  allChars p s = true -> allChars p (trimEnd s) = true.
Proof.
  induction s as [|c s IH]; [reflexivity|]. intros H. simpl in H.
  apply andb_true_iff in H. destruct H as [Hc Hs]. specialize (IH Hs).
  rewrite trimEnd_cons. destruct (trimEnd s) as [|d t].
  - destruct (isWhiteSpace c); simpl; [reflexivity | now rewrite Hc].
  - change (allChars p (String c (String d t))) with (p c && allChars p (String d t)).
    now rewrite Hc, IH.
Qed.

Lemma trim_allChars (p : ascii -> bool) (s : string) :
  allChars p s = true -> allChars p (trim s) = true.
Proof. intros H. unfold trim. now apply trimEnd_allChars, trimStart_allChars. Qed.

Lemma replaceNewlines_single_line (s : string) :
  allChars (fun c => negb (Ascii.eqb "010" c)) (replaceNewlines s) = true.
Proof.
  induction s as [|c s IH]; [reflexivity|].
  cbn [replaceNewlines allChars]. rewrite IH, andb_true_r.
  destruct (Ascii.eqb c "010") eqn:E; [reflexivity|].
  rewrite Ascii.eqb_sym. now rewrite E.
Qed.

Lemma parseConceptIds_filter (field : string) :
  parseConceptIds field
  = filter (fun n => negb (isNaN n) && gt n (ofZ 0))
           (map (fun p => leadingNumber (trim p)) (JSString.split "," field)).
Proof.
  unfold parseConceptIds.
  now rewrite (fold_push_filter (fun p => leadingNumber (trim p))
                 (fun n => negb (isNaN n) && gt n (ofZ 0))).
Qed.

Lemma fallbackConceptIds_filter (concepts : list number) (entries : list string) :
  fallbackConceptIds concepts entries
  = concepts ++ filter (fun n => negb (isNaN n)) (map leadingNumber entries).
Proof.
  unfold fallbackConceptIds.
  now rewrite (fold_push_filter leadingNumber (fun n => negb (isNaN n))).
Qed.

Lemma parseBlock_fields (conceptMap : ConceptMap) (block : string) (o : ChapterOutline.t) :
  parseBlock conceptMap block = Some o ->
  Forall (fun x => isNaN x = false) (ChapterOutline.concepts o) /\
  trim (ChapterOutline.title o) = ChapterOutline.title o /\
  trim (ChapterOutline.summary o) = ChapterOutline.summary o /\
  includes (String "010" "") (ChapterOutline.summary o) = false.
Proof.
  unfold parseBlock. destruct (RegExp.exec Patterns.header block) as [m|]; [|discriminate].
  intros H. inversion H; subst; clear H.
  cbn [ChapterOutline.concepts ChapterOutline.title ChapterOutline.summary].
  split; [|split; [apply trim_idempotent|]].
  - assert (Hids : forall field, Forall (fun x => isNaN x = false) (parseConceptIds field)).
    { intros field. rewrite parseConceptIds_filter, Forall_forall. intros x Hx.
      apply filter_In in Hx. destruct Hx as [_ Hx]. apply andb_true_iff in Hx.
      now apply negb_true_iff. }
    assert (Hfb : forall entries, Forall (fun x => isNaN x = false) (fallbackConceptIds [] entries)).
    { intros entries. rewrite fallbackConceptIds_filter, Forall_forall. intros x Hx.
      simpl in Hx. apply filter_In in Hx. now apply negb_true_iff. }
    destruct (RegExp.exec Patterns.conceptIds block) as [cm|].
    + destruct (parseConceptIds (RegExp.group 1 cm ?? "")) as [|x xs] eqn:E.
      * destruct (conceptMap _); [apply Hfb | constructor].
      * rewrite <- E. apply Hids.
    + destruct (conceptMap _); [apply Hfb | constructor].
  - destruct (RegExp.exec Patterns.summary block) as [sm|]; [|split; reflexivity].
    split; [apply trim_idempotent|].
    apply includes_char_allChars, trim_allChars, replaceNewlines_single_line.
Qed.

(** X7.  No outline of the result lists NaN among its concepts.  An outline
    that comes from a block of the answer has a title and a summary without
    white space around them, and its summary is a single line; every other
    outline is one of the synthesized records. *)
Theorem parseChapterOutlines_fields :
  forall (raw : string) (chapterCount : nat) (courseTopics : list string)
         (conceptMap : ConceptMap) (o : ChapterOutline.t),
    In o (parseChapterOutlines raw chapterCount courseTopics conceptMap) ->
    Forall (fun x => isNaN x = false) (ChapterOutline.concepts o) /\
    ((exists n, (1 <= n <= chapterCount)%nat /\ o = defaultOutline courseTopics conceptMap n) \/
     (trim (ChapterOutline.title o) = ChapterOutline.title o /\
      trim (ChapterOutline.summary o) = ChapterOutline.summary o /\
      includes (String "010" "") (ChapterOutline.summary o) = false)).
Proof.
  intros raw chapterCount courseTopics conceptMap o Hin.
  unfold parseChapterOutlines in Hin. fold (blocksOf raw) in Hin.
  apply (Permutation_in _ (sort_perm compareOutlines _)) in Hin.
  rewrite fillGaps_eq in Hin. apply in_app_or in Hin. destruct Hin as [Hin|Hin].
  - rewrite parseBlocks_collect in Hin. apply in_collect in Hin.
    destruct Hin as [block [_ Hb]]. apply parseBlock_fields in Hb.
    destruct Hb as [Hc Hrest]. split; [exact Hc | now right].
  - apply in_map_iff in Hin. destruct Hin as [n [<- Hn]].
    unfold missingChapters in Hn. apply filter_In in Hn. destruct Hn as [Hn _].
    apply in_seq in Hn. split.
    + unfold defaultOutline. cbn [ChapterOutline.concepts]. rewrite Forall_forall.
      intros x Hx. apply filter_In in Hx. now apply negb_true_iff.
    + left. exists n. split; [lia | reflexivity].
Qed.

Lemma parseChapterOutlines_fields_witness :
  In (ChapterOutline.mk (ofZ 1) "Basics" "About things" [ofZ 4; ofZ 6])
     (parseChapterOutlines
        ("## Chapter 1:  Basics  " ++ String "010" "**Summary:** About" ++ String "010" "things "
           ++ String "010" "**Concept IDs:** 4, abc, 6")
        1 [] (fun _ => None)) /\
  Forall (fun x => isNaN x = false) [ofZ 4; ofZ 6] /\
  trim "Basics" = "Basics" /\
  trim "About things" = "About things" /\
  includes (String "010" "") "About things" = false.
Proof.
  assert (Hin : In (ChapterOutline.mk (ofZ 1) "Basics" "About things" [ofZ 4; ofZ 6])
                   (parseChapterOutlines
                      ("## Chapter 1:  Basics  " ++ String "010" "**Summary:** About"
                         ++ String "010" "things "
                         ++ String "010" "**Concept IDs:** 4, abc, 6")
                      1 [] (fun _ => None)))
    by (vm_compute; left; reflexivity).
  split; [exact Hin|].
  destruct (parseChapterOutlines_fields _ _ _ _ _ Hin) as [Hnan [(n & Hn & Hdef)|Htrim]].
  - exfalso. assert (n = 1)%nat by lia. subst n. vm_compute in Hdef. discriminate Hdef.
  - split; [exact Hnan | exact Htrim].
Defined.

(** ** The field of the concept identifiers *)

Lemma split_full_stop (s : string) :
  nth_error (JSString.split "." s) 0 = Some (beforeFullStop s).
Proof.
  induction s as [|c s IH]; [reflexivity|]. cbn [JSString.split beforeFullStop].
  destruct (Ascii.eqb c "."); [reflexivity|].
  destruct (JSString.split "." s) as [|x xs]; [discriminate|].
  cbn [nth_error] in IH |- *. now inversion IH.
Qed.

Lemma leadingNumber_token (s : string) : leadingNumber s = Number (beforeFullStop s).
Proof. unfold leadingNumber. now rewrite split_full_stop. Qed.

Lemma beforeFullStop_digits (digits : string) :
  allChars isDigit digits = true ->
  beforeFullStop digits = digits /\
  forall rest, beforeFullStop (digits ++ String "." rest) = digits.
Proof.
  induction digits as [|c s IH]; intros H.
  - split; [reflexivity|]. intros rest. reflexivity.
  - simpl in H. apply andb_true_iff in H. destruct H as [Hc Hs].
    destruct (digit_facts c Hc) as (_ & _ & _ & _ & _ & _ & Hdot & _).
    destruct (IH Hs) as [IH1 IH2]. cbn [append beforeFullStop]. rewrite Hdot.
    split; [now rewrite IH1|]. intros rest. now rewrite IH2.
Qed.

Lemma readDigits_run (digits : string) (c : ascii) (rest : string) :
  forall acc cnt,
    allChars isDigit digits = true -> isDigit c = false ->
    exists v,
      readDigits 10 decDigit (digits ++ String c rest) acc cnt
      = (v, (cnt + String.length digits)%nat, String c rest).
Proof.
  induction digits as [|d s IH]; intros acc cnt H Hc.
  - exists acc. cbn [append readDigits]. unfold decDigit. rewrite Hc. now rewrite Nat.add_0_r.
  - simpl in H. apply andb_true_iff in H. destruct H as [Hd Hs].
    destruct (digit_facts d Hd) as (_ & _ & _ & _ & _ & _ & _ & [x Hx]).
    cbn [append readDigits]. rewrite Hx.
    destruct (IH (acc * 10 + x)%N (S cnt) Hs Hc) as [v Hv]. exists v. rewrite Hv.
    cbn [String.length]. now rewrite Nat.add_succ_r.
Qed.

Lemma space_facts (c : ascii) :
  isWhiteSpace c = true ->
  isDigit c = false /\ Ascii.eqb c "." = false /\
  (Ascii.eqb c "e" || Ascii.eqb c "E") = false /\
  (Ascii.eqb c "x" || Ascii.eqb c "X") = false /\
  (Ascii.eqb c "o" || Ascii.eqb c "O") = false /\
  (Ascii.eqb c "b" || Ascii.eqb c "B") = false.
Proof.
  destruct c as [[] [] [] [] [] [] [] []]; intros H; vm_compute in H; try discriminate H;
    repeat split.
Qed.

Lemma trimEnd_text (s : string) :
  allChars isWhiteSpace s = false -> exists d t, trimEnd s = String d t.
Proof.
  induction s as [|c s IH]; [discriminate|]. intros H. cbn [allChars] in H.
  cbn [trimEnd]. destruct (trimEnd s) as [|d t] eqn:E.
  - destruct (isWhiteSpace c) eqn:Ec; [|now exists c, ""].
    cbn [andb] in H. destruct (IH H) as (d & t & Hd). discriminate.
  - now exists c, (String d t).
Qed.

Lemma trimEnd_app_text (a : string) (d : ascii) (t : string) :
  forall s, trimEnd s = String d t -> trimEnd (a ++ s) = (a ++ String d t)%string.
Proof.
  intros s H. induction a as [|c a IH]; [exact H|].
  cbn [append trimEnd]. rewrite IH. destruct a; reflexivity.
Qed.

(** A run of digits followed by white space and by further text is not a
    numeric literal. *)
Lemma Number_digits_then_text (digits : string) (c : ascii) (rest : string) :
  digits <> EmptyString -> allChars isDigit digits = true ->
  isWhiteSpace c = true -> allChars isWhiteSpace rest = false ->
  Number (digits ++ String c rest) = NaN.
Proof.
  intros Hne Hd Hc Hrest.
  destruct (space_facts c Hc) as (Hcd & Hdot & He & Hx & Ho & Hb).
  destruct (trimEnd_text rest Hrest) as (d & t & Ht).
  assert (Htrim : trim (digits ++ String c rest) = (digits ++ String c (String d t))%string).
  { unfold trim. destruct digits as [|x digits]; [congruence|].
    simpl in Hd. apply andb_true_iff in Hd. destruct Hd as [Hx0 _].
    destruct (digit_facts x Hx0) as (Hws & _).
    cbn [append]. rewrite trimStart_fixed by exact Hws.
    change (String x (digits ++ String c rest)) with ((String x digits) ++ String c rest)%string.
    apply (trimEnd_app_text (String x digits) c (String d t)). cbn [trimEnd]. now rewrite Ht. }
  unfold Number. rewrite Htrim.
  destruct digits as [|x digits]; [congruence|].
  pose proof Hd as Hd'. simpl in Hd'. apply andb_true_iff in Hd'. destruct Hd' as [Hx0 Hds].
  assert (Hnd : parseNonDecimal (String x digits ++ String c (String d t)) = None).
  { cbn [append]. destruct digits as [|p ds].
    - cbn [append]. destruct x as [[] [] [] [] [] [] [] []]; try reflexivity.
      cbn -[readDigits]. now rewrite Hx, Ho, Hb.
    - simpl in Hds. apply andb_true_iff in Hds. destruct Hds as [Hp _].
      destruct (digit_facts p Hp) as (_ & _ & _ & Hx' & Ho' & Hb' & _).
      cbn [append]. destruct x as [[] [] [] [] [] [] [] []]; try reflexivity.
      cbn -[readDigits]. now rewrite Hx', Ho', Hb'. }
  rewrite Hnd.
  assert (Hsign : readSign (String x digits ++ String c (String d t))
                  = (false, (String x digits ++ String c (String d t))%string)).
  { cbn [append].
    destruct x as [[] [] [] [] [] [] [] []]; vm_compute in Hx0; try discriminate Hx0;
      reflexivity. }
  rewrite Hsign.
  assert (Hinf : String.eqb (String x digits ++ String c (String d t)) "Infinity" = false).
  { cbn [append]. simpl. destruct (digit_facts x Hx0) as (_ & _ & HI & _). now rewrite HI. }
  rewrite Hinf. unfold parseUnsignedDecimal.
  destruct (readDigits_run (String x digits) c (String d t) 0%N 0%nat Hd Hcd) as [v Hv].
  rewrite Hv. cbn [String.length Nat.add].
  destruct c as [[] [] [] [] [] [] [] []]; vm_compute in Hc; try discriminate Hc;
    reflexivity.
Qed.

(** C9 (as the code has it).  The concept list read from a "Concept IDs:"
    field is obtained by splitting the field on commas, taking of each
    trimmed piece the text before its first full stop, converting that text
    as a whole to a number, and keeping, in order, the numbers that are not
    NaN and are greater than zero, integers or not.  A text before the full
    stop that is a run of digits gives the integer that the digits denote; a
    run of digits followed by white space and further text gives NaN, so the
    piece is dropped.  The field "4, 5, abc, 6" gives [4; 5; 6], also when it
    is read from a block. *)
Theorem parseConceptIds_field :
  forall field : string,
    parseConceptIds field
    = filter (fun n => negb (isNaN n) && gt n (ofZ 0))
             (map (fun piece => Number (beforeFullStop (trim piece)))
                  (JSString.split "," field)) /\
    Forall (fun n => isNaN n = false /\ gt n (ofZ 0) = true) (parseConceptIds field) /\
    (forall digits rest : string,
       digits <> EmptyString -> allChars isDigit digits = true ->
       beforeFullStop digits = digits /\
       beforeFullStop (digits ++ String "." rest) = digits /\
       Number digits = ofN (decimalValue digits)) /\
    (forall (digits : string) (c : ascii) (rest : string),
       digits <> EmptyString -> allChars isDigit digits = true ->
       isWhiteSpace c = true -> allChars isWhiteSpace rest = false ->
       Number (digits ++ String c rest) = NaN) /\
    parseConceptIds "4, 5, abc, 6" = [ofZ 4; ofZ 5; ofZ 6] /\
    map ChapterOutline.concepts
        (parseChapterOutlines
           ("## Chapter 1: Basics" ++ String "010" "**Concept IDs:** 4, 5, abc, 6")
           1 [] (fun _ => None))
    = [[ofZ 4; ofZ 5; ofZ 6]].
Proof.
  intros field.
  assert (Hlist : parseConceptIds field
                  = filter (fun n => negb (isNaN n) && gt n (ofZ 0))
                      (map (fun piece => Number (beforeFullStop (trim piece)))
                           (JSString.split "," field))).
  { unfold parseConceptIds.
    rewrite (fold_push_filter (fun piece => leadingNumber (trim piece))
               (fun n => negb (isNaN n) && gt n (ofZ 0))).
    cbn [app]. f_equal. apply map_ext. intros piece. apply leadingNumber_token. }
  split; [exact Hlist|]. split; [|split; [|split; [|split]]].
  - rewrite Hlist. apply Forall_forall. intros n Hn. apply filter_In in Hn.
    destruct Hn as [_ Hn]. apply andb_true_iff in Hn. destruct Hn as [H1 H2].
    apply negb_true_iff in H1. now split.
  - intros digits rest Hne Hd. destruct (beforeFullStop_digits digits Hd) as [H1 H2].
    split; [exact H1|]. split; [apply H2 | now apply Number_digits].
  - apply Number_digits_then_text.
  - vm_compute. reflexivity.
  - vm_compute. reflexivity.
Qed.

Lemma parseConceptIds_field_witness :
  Number (beforeFullStop ("12" ++ String "." " Gradient Descent")) = ofN 12 /\
  Number "12 Gradient Descent" = NaN.
Proof.
  destruct (parseConceptIds_field "") as (_ & _ & Hdigits & Htext & _).
  split.
  - destruct (Hdigits "12" " Gradient Descent" ltac:(discriminate) eq_refl) as (_ & -> & H).
    exact H.
  - exact (Htext "12" " "%char "Gradient Descent" ltac:(discriminate) eq_refl eq_refl eq_refl).
Defined.

(** C9 as stated fails: a piece that starts with a numeric token is dropped
    when other text follows the token before any full stop, and the results
    that are kept need not be integers. *)
Lemma leading_digits_alone_are_not_read :
  parseConceptIds "12 Gradient Descent, 7 apples" = [] /\
  parseConceptIds "1e-1, Infinity"
  = [S754_finite false 7205759403792794 (-56); S754_infinity false] /\
  gt (S754_finite false 7205759403792794 (-56)) (ofZ 0) = true /\
  lt (S754_finite false 7205759403792794 (-56)) (ofZ 1) = true.
Proof. repeat split. Qed.

(** ** The request and the answer of [generate] *)

Section GenerateProperties.

Variable World : Type.
Variable finalMessage : MessageRequest -> World -> promise (list ContentBlock) * World.

Local Abbreviation generate' := (generate World finalMessage).

Lemma firstText_skips (others : list ContentBlock) (text : string) (rest : list ContentBlock) :
  (forall b, In b others -> exists type, b = OtherBlock type) ->
  firstText (others ++ TextBlock text :: rest) = text.
Proof.
  induction others as [|b bs IH]; intros H; [reflexivity|].
  destruct (H b (or_introl eq_refl)) as [type ->]. simpl. apply IH.
  intros b' Hb'. apply H. now right.
Qed.

Lemma firstText_none (content : list ContentBlock) :
  (forall b, In b content -> exists type, b = OtherBlock type) -> firstText content = "".
Proof.
  induction content as [|b bs IH]; intros H; [reflexivity|].
  destruct (H b (or_introl eq_refl)) as [type ->]. simpl. apply IH.
  intros b' Hb'. apply H. now right.
Qed.

(** X8.  A call of [generate] issues exactly one request, for the prompt it
    was given.  A model or a system text that is missing or empty, and a
    token limit that is missing, zero or NaN, are replaced by the defaults.
    The call is fulfilled with the text of the first text block of the
    answer, or with the empty string when the answer has no text block, and
    it is rejected exactly when the service rejects, with the same reason. *)
Theorem generate_request_and_text :
  forall (prompt : string) (options : GenerateOptions) (env : Env World),
    let request := buildRequest prompt options in
    let run := generate' prompt options env in
    effects (snd run) = effects env ++ [RequestIssued request] /\
    world (snd run) = snd (finalMessage request (world env)) /\
    req_prompt request = prompt /\
    req_model request
    = match opt_model options with
      | Some (String c m) => String c m
      | _ => "claude-sonnet-4-5"
      end /\
    req_system request
    = match opt_system options with
      | Some (String c m) => String c m
      | _ => "You are an expert educational content creator."
      end /\
    req_max_tokens request
    = match opt_maxTokens options with
      | Some (S754_finite s m e) => S754_finite s m e
      | Some (S754_infinity s) => S754_infinity s
      | _ => ofZ 8192
      end /\
    (forall content,
       outcome (fst (finalMessage request (world env))) = Fulfilled content ->
       outcome (fst run) = Fulfilled (firstText content) /\
       (forall others text rest,
          content = others ++ TextBlock text :: rest ->
          (forall b, In b others -> exists type, b = OtherBlock type) ->
          firstText content = text) /\
       ((forall b, In b content -> exists type, b = OtherBlock type) ->
        firstText content = "")) /\
    (forall e,
       outcome (fst (finalMessage request (world env))) = Rejected e <->
       outcome (fst run) = Rejected e).
Proof.
  intros prompt options env request run.
  assert (Hrun : run = (andThen firstText (fst (finalMessage request (world env))),
                        mkEnv (snd (finalMessage request (world env)))
                              (effects env ++ [RequestIssued request]))).
  { unfold run, generate, stream. fold request.
    now destruct (finalMessage request (world env)). }
  rewrite Hrun. cbn [fst snd effects world].
  split; [reflexivity|]. split; [reflexivity|]. split; [reflexivity|].
  split; [|split; [|split; [|split]]].
  - unfold request, buildRequest. cbn [req_model]. unfold orDefault.
    now destruct (opt_model options) as [[|c m]|].
  - unfold request, buildRequest. cbn [req_system]. unfold orDefault.
    now destruct (opt_system options) as [[|c m]|].
  - unfold request, buildRequest. cbn [req_max_tokens].
    now destruct (opt_maxTokens options) as [[[]|[]| |[] m e]|].
  - intros content Hc. unfold andThen. cbn [outcome]. rewrite Hc.
    split; [reflexivity|]. split.
    + intros others text rest -> Ho. now apply firstText_skips.
    + apply firstText_none.
  - intros e. unfold andThen. cbn [outcome].
    destruct (outcome (fst (finalMessage request (world env)))); split; congruence.
Qed.

End GenerateProperties.

(** ** The report on the terminal *)

Section ConsoleProperties.

Variable World : Type.
Variables courseDescription learningGraph chapterStructure chapterContent
          microsims glossary faq quizzes references mkdocsConfig metrics
          readme : StageFn World.
Variable elapsed : World -> World -> string.
Variable numberToString : number -> string.

Local Abbreviation steps' :=
  (steps World courseDescription learningGraph chapterStructure chapterContent
         microsims glossary faq quizzes references mkdocsConfig metrics readme).
Local Abbreviation runSteps' := (runSteps World elapsed).
Local Abbreviation runPipeline' :=
  (runPipeline World courseDescription learningGraph chapterStructure chapterContent
               microsims glossary faq quizzes references mkdocsConfig metrics readme
               elapsed numberToString).

Lemma runSteps_console (total : nat) (todo : list (PipelineStep World)) :
  forall (i : nat) (st : RunState World),
    let result := fst (runSteps' total i todo st) in
    let final := snd (runSteps' total i todo st) in
    exists trace,
      run_console World final = run_console World st ++ trace /\
      forallb isSpinner trace = true /\
      (List.length (filter isStart trace) + List.length (run_calls World st)
       = List.length (run_calls World final))%nat /\
      (result = Fulfilled tt ->
       filter isFail trace = [] /\
       List.length (filter isSucceed trace) = List.length todo /\
       List.length (filter isStart trace) = List.length todo) /\
      (forall error, result = Rejected error ->
         exists before text,
           trace = before ++ [SpinnerFail text] /\
           filter isFail before = [] /\
           S (List.length (filter isSucceed before)) = List.length (filter isStart before)).
Proof.
  induction todo as [|step todo IH]; intros i st; simpl.
  - exists []. rewrite app_nil_r. repeat split; auto. intros error H. discriminate.
  - destruct (fn World step (run_ctx World st) (run_world World st)) as [[ctx'|e] w'] eqn:E.
    + match goal with
      | |- context [runSteps' total (S i) todo ?st1] => specialize (IH (S i) st1)
      end.
      destruct IH as (trace & Hcon & Hsp & Hcalls & Hok & Hko).
      cbn [run_console run_calls] in Hcon, Hcalls.
      eexists (SpinnerStart _ :: SpinnerSucceed _ :: trace).
      split; [rewrite Hcon, <- !app_assoc; reflexivity|].
      split; [exact Hsp|]. split.
      * cbn [filter isStart List.length]. rewrite <- Hcalls, length_app. simpl. lia.
      * split.
        -- intros Hr. destruct (Hok Hr) as (Hf & Hs & Ht). split; [exact Hf|].
           cbn [filter isSucceed isStart List.length]. now rewrite Hs, Ht.
        -- intros error Hr. destruct (Hko error Hr) as (before & text & -> & Hf & Hs).
           eexists (SpinnerStart _ :: SpinnerSucceed _ :: before), text.
           cbn [filter isSucceed isStart isFail List.length].
           split; [reflexivity|]. split; [exact Hf|]. now rewrite Hs.
    + cbn [fst snd run_console run_calls].
      eexists [SpinnerStart _; SpinnerFail _].
      split; [rewrite <- app_assoc; reflexivity|].
      split; [reflexivity|]. split; [simpl; rewrite length_app; simpl; lia|].
      split; [discriminate|]. intros error Hr.
      eexists [SpinnerStart _], _. repeat split.
Qed.

(** X9.  What a run reports on the terminal: after the banner come the
    events of the spinner, one start for each call that was made, and no
    other line in between.  A fulfilled run reports twelve successes and no
    failure, then the time, the output directory and, exactly when the
    deployment target is GitHub Pages, the hint on how to publish.  A
    rejected run ends with its only failure line, after one success for each
    call before the failing one, and reports neither the time nor the hint. *)
Theorem runPipeline_console :
  forall (config : TextbookConfig.t) (w : World),
    let result := fst (runPipeline' config w) in
    let final := snd (runPipeline' config w) in
    exists trace closing,
      run_console World final = banner numberToString config ++ trace ++ closing /\
      forallb isSpinner trace = true /\
      List.length (filter isStart trace) = List.length (run_calls World final) /\
      (result = Fulfilled tt ->
       filter isFail trace = [] /\
       List.length (filter isSucceed trace) = 12%nat /\
       closing
       = [ Log (String "010" "  Done in " ++ elapsed w (run_world World final) ++ "s"
                  ++ String "010" "")%string;
           Log ("  Output: " ++ TextbookConfig.outputDir config)%string ]
         ++ match TextbookConfig.deploy config with
            | GithubPages =>
                [ Log ("  Deploy: Run 'cd " ++ TextbookConfig.outputDir config
                         ++ " && mkdocs gh-deploy' to publish")%string ]
            | NoDeploy => []
            end
         ++ [Log ""]) /\
      (forall error, result = Rejected error ->
         closing = [] /\
         exists before text,
           trace = before ++ [SpinnerFail text] /\
           filter isFail before = [] /\
           S (List.length (filter isSucceed before)) = List.length (filter isStart before)).
Proof.
  intros config w result final. unfold result, final, runPipeline.
  change (List.length steps') with 12%nat.
  match goal with
  | |- context [runSteps' 12 0 steps' ?st0] =>
      destruct (runSteps_console 12 steps' 0 st0) as (trace & Hcon & Hsp & Hcalls & Hok & Hko);
      destruct (runSteps' 12 0 steps' st0) as [[[]|error] st]
  end; cbn [fst snd run_console run_calls run_world] in *.
  - exists trace. eexists. split; [rewrite Hcon; rewrite <- !app_assoc; reflexivity|].
    split; [exact Hsp|]. split; [now rewrite <- Hcalls, Nat.add_0_r|]. split.
    + intros _. destruct (Hok eq_refl) as (Hf & Hs & _). repeat split; assumption.
    + intros error H. discriminate.
  - exists trace, []. rewrite app_nil_r. split; [exact Hcon|].
    split; [exact Hsp|]. split; [now rewrite <- Hcalls, Nat.add_0_r|]. split.
    + intros H. discriminate.
    + intros e H. split; [reflexivity|]. destruct (Hko e H) as (before & text & Ht & Hf & Hs).
      exists before, text. split; [exact Ht|]. now split.
Qed.

End ConsoleProperties.

(** ** The files of the Chapter Content stage *)

Lemma all_fulfilled_length {A : Type} (ps : list (promise A)) (vs : list A) :
  outcome (Promise.all ps) = Fulfilled vs -> List.length vs = List.length ps.
Proof.
  unfold Promise.all. destruct (firstRejection ps) as [[e t]|] eqn:E; [discriminate|].
  cbn [outcome]. intros H. inversion H; subst; clear H.
  induction ps as [|p ps IH]; [reflexivity|]. simpl in E |- *.
  destruct (outcome p) as [v|e].
  - simpl. now rewrite IH.
  - destruct (firstRejection ps) as [[e' t']|]; [destruct (t' <? settledAt p)%nat|]; discriminate.
Qed.

Lemma skipn_head {A : Type} (n : nat) :
  forall (l : list A) (x : A) (l' : list A),
    skipn n l = x :: l' -> nth_error l n = Some x /\ skipn (S n) l = l'.
Proof.
  induction n as [|n IH]; intros l x l' H.
  - simpl in H. subst l. now split.
  - destruct l as [|y l]; [discriminate|]. simpl in H. now apply IH.
Qed.

Lemma indexed_contents {A B : Type} (F : A -> string -> B) (fb : A -> string)
      (all : list string) (xs : list A) :
  forall (start : nat) (rs : list string),
    skipn start all = rs -> List.length rs = List.length xs ->
    map (fun '(x, i) => F x (nth_error all i ?? fb x)) (combine xs (seq start (List.length xs)))
    = map (fun '(x, text) => F x text) (combine xs rs).
Proof.
  induction xs as [|x xs IH]; intros start rs Hs Hl; [reflexivity|].
  destruct rs as [|r rs]; [discriminate|].
  destruct (skipn_head start all r rs Hs) as [Hn Hs'].
  simpl. rewrite Hn. cbn [nullish]. f_equal. apply IH; [exact Hs' | simpl in Hl; lia].
Qed.

Section ChapterFilesProperties.

Variable World : Type.
Variable finalMessage : MessageRequest -> World -> promise (list ContentBlock) * World.
Variable fsMkdir : string -> World -> settled unit * World.
Variable fsWriteFile : string -> string -> World -> promise unit * World.
Variable buildChapterPrompt : ChapterOutline.t -> list Concept.t -> string -> string -> string.
Variable join : list string -> string.
Variable numberToString : number -> string.

Local Abbreviation generateChapterContent' :=
  (generateChapterContent World finalMessage fsMkdir fsWriteFile buildChapterPrompt join
                          numberToString).
Local Abbreviation chapterPrompts' := (chapterPrompts buildChapterPrompt).
Local Abbreviation generateParallel' := (generateParallel World finalMessage).
Local Abbreviation writeFile' := (writeFile World fsWriteFile).

Lemma startAll_writes {A : Type} (f : A -> Env World -> promise unit * Env World)
      (path content : A -> string) (xs : list A) :
  (forall x env, f x env = writeFile' (path x) (content x) env) ->
  forall env,
    effects (snd (startAll World f xs env))
    = effects env ++ map (fun x => FileWritten (path x) (content x)) xs.
Proof.
  intros Hf. induction xs as [|x xs IH]; intros env; simpl.
  - now rewrite app_nil_r.
  - rewrite Hf. unfold writeFile at 1.
    destruct (fsWriteFile (path x) (content x) (world env)) as [p w1].
    match goal with
    | |- context [startAll World f xs ?e1] =>
        specialize (IH e1); destruct (startAll World f xs e1) as [ps e2]
    end.
    cbn [snd effects] in IH |- *. now rewrite IH, <- app_assoc.
Qed.

Lemma generateChapterContent_effects :
  forall (ctx ctx' : PipelineContext.t) (env env' : Env World),
    generateChapterContent' ctx env = (Fulfilled ctx', env') ->
    let chapters := PipelineContext.chapters ctx ?? [] in
    let chaptersDir := join [PipelineContext.outputDir ctx; "docs"; "chapters"] in
    ctx' = ctx /\ chapters <> [] /\
    exists results,
      outcome (fst (generateParallel' (chapterPrompts' ctx chapters) (chapterOptions ctx) env))
      = Fulfilled results /\
      List.length results = List.length chapters /\
      effects env'
      = effects env
          ++ map (fun p => RequestIssued (requestOf (chapterOptions ctx) p))
                 (chapterPrompts' ctx chapters)
          ++ [DirectoryMade chaptersDir]
          ++ map (fun '(ch, text) =>
                    FileWritten
                      (join [chaptersDir;
                             ("chapter-" ++ padStart2 (numberToString (ChapterOutline.number ch))
                                ++ ".md")%string])
                      text)
                 (combine chapters results).
Proof.
  intros ctx ctx' env env' H chapters chaptersDir.
  unfold generateChapterContent in H. fold chapters in H.
  destruct chapters as [|ch rest] eqn:Ech; [discriminate|].
  cbn [List.length Nat.eqb] in H.
  fold (chapterPrompts' ctx (ch :: rest)) in H. fold (chapterOptions ctx) in H.
  fold chaptersDir in H.
  pose proof (startAll_generate World finalMessage (chapterOptions ctx)
                (chapterPrompts' ctx (ch :: rest)) env) as [_ [Heff _]].
  pose proof (startAll_length World (generateOne World finalMessage (chapterOptions ctx))
                (chapterPrompts' ctx (ch :: rest)) env) as Hlen.
  unfold generateParallel in H |- *.
  destruct (startAll World (generateOne World finalMessage (chapterOptions ctx))
                     (chapterPrompts' ctx (ch :: rest)) env) as [pending env1].
  cbn [fst snd] in Heff, Hlen |- *.
  destruct (outcome (Promise.all pending)) as [results|e] eqn:Eall; [|discriminate].
  pose proof (all_fulfilled_length pending results Eall) as Hres.
  rewrite Hlen in Hres. unfold chapterPrompts in Hres. rewrite length_map in Hres.
  unfold mkdir in H. destruct (fsMkdir chaptersDir (world env1)) as [[u|e] w2]; [|discriminate].
  match type of H with
  | context [startAll World ?f ?xs ?e0] =>
      pose proof (startAll_writes f
                    (fun '(c, i) =>
                       join [chaptersDir;
                             ("chapter-" ++ padStart2 (numberToString (ChapterOutline.number c))
                                ++ ".md")%string])
                    (fun '(c, i) =>
                       nth_error results i ??
                         ("# Chapter " ++ numberToString (ChapterOutline.number c) ++ ": "
                            ++ ChapterOutline.title c
                            ++ String "010" (String "010" "Content generation failed."))%string)
                    xs) as Hw;
      destruct (startAll World f xs e0) as [writes env3] eqn:Ew
  end.
  assert (Hw' := Hw (fun x env0 => match x with (c, i) => eq_refl end)
                    (mkEnv w2 (effects env1 ++ [DirectoryMade chaptersDir]))).
  clear Hw. rewrite Ew in Hw'. cbn [snd effects] in Hw'.
  destruct (outcome (Promise.all writes)); [|discriminate].
  inversion H; subst ctx' env'; clear H.
  split; [reflexivity|]. split; [discriminate|].
  exists results. split; [reflexivity|]. split; [exact Hres|].
  rewrite Hw', Heff, <- !app_assoc. do 3 f_equal.
  unfold indexed.
  rewrite <- (indexed_contents
                (fun c text =>
                   FileWritten
                     (join [chaptersDir;
                            ("chapter-" ++ padStart2 (numberToString (ChapterOutline.number c))
                               ++ ".md")%string]) text)
                (fun c =>
                   ("# Chapter " ++ numberToString (ChapterOutline.number c) ++ ": "
                      ++ ChapterOutline.title c
                      ++ String "010" (String "010" "Content generation failed."))%string)
                results (ch :: rest) 0 results eq_refl Hres).
  apply map_ext. now intros [c i].
Qed.


Lemma generateChapterContent_requests :
  forall (ctx : PipelineContext.t) (env : Env World) (ch : ChapterOutline.t)
         (rest : list ChapterOutline.t),
    PipelineContext.chapters ctx = Some (ch :: rest) ->
    exists later,
      effects (snd (generateChapterContent' ctx env))
      = effects env
          ++ map (fun p => RequestIssued (requestOf (chapterOptions ctx) p))
                 (chapterPrompts' ctx (ch :: rest))
          ++ later.
Proof.
  intros ctx env ch rest H. unfold generateChapterContent. rewrite H.
  cbn [nullish List.length Nat.eqb].
  fold (chapterPrompts' ctx (ch :: rest)). fold (chapterOptions ctx).
  pose proof (startAll_generate World finalMessage (chapterOptions ctx)
                (chapterPrompts' ctx (ch :: rest)) env) as [_ [Heff _]].
  unfold generateParallel.
  destruct (startAll World (generateOne World finalMessage (chapterOptions ctx))
                     (chapterPrompts' ctx (ch :: rest)) env) as [pending env1].
  cbn [fst snd] in Heff |- *.
  destruct (outcome (Promise.all pending)) as [results|e].
  - unfold mkdir.
    destruct (fsMkdir (join [PipelineContext.outputDir ctx; "docs"; "chapters"]) (world env1))
      as [[u|e] w2].
    + match goal with
      | |- context [startAll World ?f ?xs ?e0] =>
          pose proof (startAll_writes f
                        (fun '(c, i) =>
                           join [join [PipelineContext.outputDir ctx; "docs"; "chapters"];
                                 ("chapter-"
                                    ++ padStart2 (numberToString (ChapterOutline.number c))
                                    ++ ".md")%string])
                        (fun '(c, i) =>
                           nth_error results i ??
                             ("# Chapter " ++ numberToString (ChapterOutline.number c) ++ ": "
                                ++ ChapterOutline.title c
                                ++ String "010" (String "010" "Content generation failed."))%string)
                        xs (fun x env0 => match x with (c, i) => eq_refl end) e0) as Hw;
          destruct (startAll World f xs e0) as [writes env3]
      end.
      cbn [snd effects] in Hw.
      destruct (outcome (Promise.all writes)); cbn [snd];
        eexists; rewrite Hw, Heff, <- !app_assoc; reflexivity.
    + cbn [snd effects]. eexists. rewrite Heff, <- !app_assoc. reflexivity.
  - cbn [snd]. exists []. now rewrite Heff, app_nil_r.
Qed.

(** X10.  When the Chapter Content stage is fulfilled it leaves the context
    as it was, and its effects are, in this order: one request for each
    outline, the creation of the directory of the chapters, and one file for
    each outline, named after the chapter number padded to two digits and
    holding the text generated for that outline.  There are as many texts as
    outlines, so the text "Content generation failed." is never written. *)
Theorem generateChapterContent_files :
  forall (ctx ctx' : PipelineContext.t) (env env' : Env World),
    generateChapterContent' ctx env = (Fulfilled ctx', env') ->
    let chapters := PipelineContext.chapters ctx ?? [] in
    let chaptersDir := join [PipelineContext.outputDir ctx; "docs"; "chapters"] in
    ctx' = ctx /\ chapters <> [] /\
    exists results,
      outcome (fst (generateParallel' (chapterPrompts' ctx chapters) (chapterOptions ctx) env))
      = Fulfilled results /\
      List.length results = List.length chapters /\
      effects env'
      = effects env
          ++ map (fun p => RequestIssued (requestOf (chapterOptions ctx) p))
                 (chapterPrompts' ctx chapters)
          ++ [DirectoryMade chaptersDir]
          ++ map (fun '(ch, text) =>
                    FileWritten
                      (join [chaptersDir;
                             ("chapter-" ++ padStart2 (numberToString (ChapterOutline.number ch))
                                ++ ".md")%string])
                      text)
                 (combine chapters results).
Proof. exact generateChapterContent_effects. Qed.

End ChapterFilesProperties.

Lemma generateChapterContent_files_witness :
  exists results,
    List.length results = 2%nat /\
    effects (snd (sampleChapterContent twoChapters (mkEnv tt [])))
    = [] ++ map (fun p => RequestIssued (requestOf (chapterOptions twoChapters) p))
                (chapterPrompts (fun ch _ _ _ => ChapterOutline.title ch) twoChapters
                   [ChapterOutline.mk (ofZ 1) "One" "" []; ChapterOutline.mk (ofZ 1) "Uno" "" []])
         ++ [DirectoryMade "widgets/docs/chapters"]
         ++ map (fun '(ch, text) => FileWritten "widgets/docs/chapters/chapter-01.md" text)
                (combine [ChapterOutline.mk (ofZ 1) "One" "" []; ChapterOutline.mk (ofZ 1) "Uno" "" []]
                         results).
Proof.
  destruct (generateChapterContent_files unit quietService quietMkdir quietWriteFile
              (fun ch _ _ _ => ChapterOutline.title ch) (JSString.join "/") (fun _ => "1")
              twoChapters twoChapters (mkEnv tt [])
              (snd (sampleChapterContent twoChapters (mkEnv tt []))) eq_refl)
    as (_ & _ & results & _ & Hlen & Heff).
  exists results. split; [exact Hlen | exact Heff].
Defined.

(** ** The slug of a topic *)

Section SlugProperties.
Import RegExp JSRegExp SlugPatterns.

Local Abbreviation bad := (fun c : ascii => negb (isLowerAlnum c)).

Lemma star_class (p : ascii -> bool) (s : string) (c : captures) :
  matchHere (Star (Char p)) s c (fun s' _ => Some s') = Some (skipClass p s).
Proof.
  cbn [matchHere]. remember (String.length s) as fuel eqn:Hf.
  assert (Hle : (String.length s <= fuel)%nat) by lia. clear Hf.
  revert s c Hle. induction fuel as [|fuel IH]; intros s c Hle.
  - destruct s; [reflexivity | simpl in Hle; lia].
  - destruct s as [|a r]; [reflexivity|]. cbn [skipClass].
    destruct (p a) eqn:Ep; [|reflexivity].
    replace (String.length r <? String.length (String a r))%nat with true
      by (symmetry; apply Nat.ltb_lt; simpl; lia).
    rewrite IH by (simpl in Hle; lia). reflexivity.
Qed.

Lemma skipClass_length (p : ascii -> bool) (s : string) :
  (String.length (skipClass p s) <= String.length s)%nat.
Proof.
  induction s as [|a r IH]; simpl; [lia|]. destruct (p a); simpl; lia.
Qed.

Lemma separators_match (input s : string) :
  matchAt input separators s [] (fun s' _ => Some s')
  = match s with
    | String a r => if bad a then Some (skipClass bad r) else None
    | EmptyString => None
    end.
Proof.
  unfold separators, Plus. cbn [matchAt].
  change (matchHere (Seq ?r1 ?r2) s [] ?k)
    with (matchHere r1 s [] (fun s1 c1 => matchHere r2 s1 c1 k)).
  destruct s as [|a r]; [reflexivity|]. cbn [matchHere].
  destruct (negb (isLowerAlnum a)); [|reflexivity]. apply star_class.
Qed.

Lemma separators_step (input : string) (fuel : nat) (s : string) :
  replaceLoop separators "-" input (S fuel) s
  = match s with
    | String a r =>
        if bad a
        then String "-" (replaceLoop separators "-" input fuel (skipClass bad r))
        else String a (replaceLoop separators "-" input fuel r)
    | EmptyString => EmptyString
    end.
Proof.
  cbn [replaceLoop]. rewrite separators_match. destruct s as [|a r]; [reflexivity|].
  destruct (negb (isLowerAlnum a)); [|reflexivity].
  replace (String.length (skipClass bad r) <? String.length (String a r))%nat with true;
    [reflexivity|].
  symmetry. apply Nat.ltb_lt. pose proof (skipClass_length bad r). simpl. lia.
Qed.

Lemma skipClass_head (p : ascii -> bool) (s : string) :
  match skipClass p s with String d _ => p d = false | EmptyString => True end.
Proof.
  induction s as [|a r IH]; simpl; [exact I|]. destruct (p a) eqn:E; [exact IH | exact E].
Qed.

Lemma separators_head (input : string) (fuel : nat) (d : ascii) (r : string) :
  isLowerAlnum d = true ->
  replaceLoop separators "-" input (S fuel) (String d r)
  = String d (replaceLoop separators "-" input fuel r).
Proof. intros H. rewrite separators_step. now rewrite H. Qed.

Lemma separators_hyphens (input : string) (fuel : nat) :
  forall s, (String.length s < fuel)%nat ->
            hyphens true (replaceLoop separators "-" input fuel s) = true.
Proof.
  induction fuel as [|fuel IH]; intros s Hlt; [lia|].
  rewrite separators_step. destruct s as [|a r]; [reflexivity|].
  simpl in Hlt. destruct (negb (isLowerAlnum a)) eqn:Ea.
  - pose proof (skipClass_length bad r) as Hl. pose proof (skipClass_head bad r) as Hh.
    cbn [hyphens]. rewrite IH by lia. rewrite andb_true_r.
    apply orb_true_iff. right. rewrite Ascii.eqb_refl. cbn [andb].
    destruct (skipClass bad r) as [|d r'] eqn:Es.
    + destruct fuel; reflexivity.
    + apply negb_false_iff in Hh. destruct fuel as [|fuel']; [simpl in Hl; lia|].
      now rewrite (separators_head input fuel' d r' Hh).
  - apply negb_false_iff in Ea. cbn [hyphens]. rewrite Ea. cbn [orb andb]. apply IH. lia.
Qed.

Lemma allChars_skipClass (p : ascii -> bool) (s : string) :
  allChars p (skipClass p s) = allChars p s.
Proof.
  induction s as [|a r IH]; [reflexivity|]. simpl. destruct (p a) eqn:E; [exact IH|].
  simpl. now rewrite E.
Qed.

Lemma separators_allBad (input : string) (fuel : nat) :
  forall s, (String.length s < fuel)%nat ->
            allChars bad (replaceLoop separators "-" input fuel s) = allChars bad s.
Proof.
  induction fuel as [|fuel IH]; intros s Hlt; [lia|].
  rewrite separators_step. destruct s as [|a r]; [reflexivity|].
  simpl in Hlt. cbn [allChars]. destruct (negb (isLowerAlnum a)) eqn:Ea.
  - pose proof (skipClass_length bad r) as Hl. cbn [allChars].
    rewrite IH by lia. now rewrite allChars_skipClass.
  - cbn [allChars]. now rewrite Ea.
Qed.

Lemma separators_fixed (input : string) (fuel : nat) :
  forall s, (String.length s < fuel)%nat -> hyphens true s = true ->
            replaceLoop separators "-" input fuel s = s.
Proof.
  induction fuel as [|fuel IH]; intros s Hlt Hs; [lia|].
  rewrite separators_step. destruct s as [|a r]; [reflexivity|].
  simpl in Hlt. cbn [hyphens] in Hs. apply andb_true_iff in Hs. destruct Hs as [Ha Hr].
  destruct (negb (isLowerAlnum a)) eqn:Ea.
  - apply negb_true_iff in Ea. rewrite Ea in Ha. cbn [orb] in Ha.
    apply andb_true_iff in Ha. destruct Ha as [Ha Hd]. apply Ascii.eqb_eq in Ha. subst a.
    f_equal. destruct r as [|d r'].
    + destruct fuel; reflexivity.
    + cbn [skipClass]. rewrite Hd. cbn [negb]. apply IH; [lia | exact Hr].
  - f_equal. apply IH; [lia | exact Hr].
Qed.

Lemma edgeHyphen_inside (input s : string) :
  (String.length s < String.length input)%nat ->
  matchAt input edgeHyphen s [] (fun s' _ => Some s')
  = match s with
    | String a EmptyString => if Ascii.eqb "-" a then Some EmptyString else None
    | _ => None
    end.
Proof.
  intros Hlt. unfold edgeHyphen. cbn [matchAt]. unfold atLineStart.
  replace (String.length input - String.length s =? 0)%nat with false
    by (symmetry; apply Nat.eqb_neq; lia).
  cbn [orb andb]. unfold chr. cbn [matchHere].
  destruct s as [|a r]; [reflexivity|]. destruct (Ascii.eqb "-" a); destruct r; reflexivity.
Qed.

Lemma edgeHyphen_inside_loop (input : string) (fuel : nat) :
  forall s, (String.length s < fuel)%nat -> (String.length s < String.length input)%nat ->
            replaceLoop edgeHyphen "" input fuel s = dropLastHyphen s.
Proof.
  induction fuel as [|fuel IH]; intros s Hlt Hin; [lia|].
  cbn [replaceLoop]. rewrite edgeHyphen_inside by exact Hin.
  destruct s as [|a r]; [reflexivity|]. simpl in Hlt, Hin.
  destruct r as [|b r'].
  - rewrite Ascii.eqb_sym. cbn [dropLastHyphen]. destruct (Ascii.eqb a "-").
    + change (String.length "" <? String.length (String a ""))%nat with true.
      rewrite IH by (simpl in *; lia). reflexivity.
    + rewrite IH by (simpl in *; lia). reflexivity.
  - rewrite IH by (simpl in *; lia). reflexivity.
Qed.

Lemma edgeHyphen_replaceAll (t : string) :
  replaceAll edgeHyphen "" t = dropLastHyphen (dropFirstHyphen t).
Proof.
  unfold replaceAll. cbn [replaceLoop]. unfold edgeHyphen at 1. cbn [matchAt].
  unfold atLineStart. rewrite Nat.sub_diag. cbn [Nat.eqb orb]. unfold chr. cbn [matchHere].
  destruct t as [|a r]; [reflexivity|]. cbn [dropFirstHyphen].
  rewrite (Ascii.eqb_sym a "-"). destruct (Ascii.eqb "-" a) eqn:Ea.
  - replace (String.length r <? String.length (String a r))%nat with true
      by (symmetry; apply Nat.ltb_lt; simpl; lia).
    cbn [append]. apply edgeHyphen_inside_loop; simpl; lia.
  - rewrite edgeHyphen_inside_loop by (simpl; lia).
    destruct r as [|b r']; [|reflexivity].
    cbn [dropLastHyphen]. rewrite Ascii.eqb_sym, Ea. reflexivity.
Qed.

Lemma alnum_not_hyphen (c : ascii) : isLowerAlnum c = true -> Ascii.eqb c "-" = false.
Proof. destruct c as [[] [] [] [] [] [] [] []]; vm_compute; congruence. Qed.

Lemma slug_char_lower (c : ascii) :
  isLowerAlnum c || Ascii.eqb c "-" = true -> lowerChar c = c.
Proof. destruct c as [[] [] [] [] [] [] [] []]; vm_compute; congruence. Qed.

Lemma dropLastHyphen_head (c : ascii) (r : string) :
  isLowerAlnum c = true -> exists r', dropLastHyphen (String c r) = String c r'.
Proof.
  intros H. cbn [dropLastHyphen]. destruct r as [|d r].
  - rewrite (alnum_not_hyphen c H). now eexists.
  - now eexists.
Qed.

Lemma dropLastHyphen_hyphens (s : string) :
  hyphens true s = true -> hyphens false (dropLastHyphen s) = true.
Proof.
  induction s as [|c r IH]; [reflexivity|]. intros H.
  cbn [hyphens] in H. apply andb_true_iff in H. destruct H as [Hc Hr].
  destruct r as [|d r'].
  - cbn [dropLastHyphen]. destruct (Ascii.eqb c "-") eqn:Ec; [reflexivity|].
    rewrite andb_false_l, orb_false_r in Hc. cbn [hyphens]. now rewrite Hc.
  - change (dropLastHyphen (String c (String d r')))
      with (String c (dropLastHyphen (String d r'))).
    cbn [hyphens]. rewrite (IH Hr), andb_true_r.
    destruct (isLowerAlnum c); [reflexivity|]. cbn [orb] in Hc |- *.
    apply andb_true_iff in Hc. destruct Hc as [Hc Hd]. rewrite Hc. cbn [andb].
    destruct (dropLastHyphen_head d r' Hd) as [r'' ->]. exact Hd.
Qed.

Lemma hyphens_weaken (s : string) : hyphens false s = true -> hyphens true s = true.
Proof.
  induction s as [|c r IH]; [reflexivity|]. cbn [hyphens]. intros H.
  apply andb_true_iff in H. destruct H as [Hc Hr]. rewrite (IH Hr), andb_true_r.
  destruct (isLowerAlnum c); [reflexivity|]. cbn [orb] in Hc |- *.
  apply andb_true_iff in Hc. destruct Hc as [Hc Hd]. rewrite Hc. cbn [andb].
  destruct r; [discriminate | exact Hd].
Qed.

Lemma dropLastHyphen_fixed (s : string) :
  hyphens false s = true -> dropLastHyphen s = s.
Proof.
  induction s as [|c r IH]; [reflexivity|]. cbn [hyphens]. intros H.
  apply andb_true_iff in H. destruct H as [Hc Hr]. destruct r as [|d r'].
  - cbn [dropLastHyphen]. destruct (Ascii.eqb c "-") eqn:Ec; [|reflexivity].
    rewrite andb_false_r, orb_false_r in Hc. rewrite (alnum_not_hyphen c Hc) in Ec.
    discriminate.
  - change (dropLastHyphen (String c (String d r')))
      with (String c (dropLastHyphen (String d r'))).
    now rewrite (IH Hr).
Qed.

Lemma edges_slug (u : string) :
  hyphens true u = true -> isSlug (dropLastHyphen (dropFirstHyphen u)) = true.
Proof.
  intros H.
  assert (Hv : hyphens true (dropFirstHyphen u) = true /\
               match dropFirstHyphen u with
               | String d _ => isLowerAlnum d = true
               | EmptyString => True
               end).
  { destruct u as [|c r]; [now split|]. cbn [dropFirstHyphen].
    cbn [hyphens] in H. apply andb_true_iff in H. destruct H as [Hc Hr].
    destruct (Ascii.eqb c "-") eqn:Ec.
    - split; [exact Hr|]. destruct r as [|d r']; [exact I|].
      destruct (isLowerAlnum c) eqn:Eo; [now rewrite (alnum_not_hyphen c Eo) in Ec|].
      cbn [orb andb] in Hc. exact Hc.
    - split; [cbn [hyphens]; rewrite Ec; now rewrite Hc, Hr|].
      now rewrite andb_false_l, orb_false_r in Hc. }
  destruct Hv as [Hv Hh]. pose proof (dropLastHyphen_hyphens _ Hv) as Hw.
  destruct (dropFirstHyphen u) as [|d r]; [reflexivity|].
  destruct (dropLastHyphen_head d r Hh) as [r' E]. rewrite E in Hw |- *.
  unfold isSlug. now rewrite Hh, Hw.
Qed.

Lemma dropFirstHyphen_allBad (u : string) :
  allChars bad (dropFirstHyphen u) = allChars bad u.
Proof.
  destruct u as [|c r]; [reflexivity|]. cbn [dropFirstHyphen].
  destruct (Ascii.eqb c "-") eqn:E; [|reflexivity].
  apply Ascii.eqb_eq in E. subst c. reflexivity.
Qed.

Lemma dropLastHyphen_allBad (u : string) :
  allChars bad (dropLastHyphen u) = allChars bad u.
Proof.
  induction u as [|c r IH]; [reflexivity|]. destruct r as [|d r'].
  - cbn [dropLastHyphen]. destruct (Ascii.eqb c "-") eqn:E; [|reflexivity].
    apply Ascii.eqb_eq in E. subst c. reflexivity.
  - change (dropLastHyphen (String c (String d r')))
      with (String c (dropLastHyphen (String d r'))).
    cbn [allChars] in IH |- *. now rewrite IH.
Qed.

Lemma toLowerCase_slug (s : string) : hyphens true s = true -> toLowerCase s = s.
Proof.
  induction s as [|c r IH]; [reflexivity|]. cbn [hyphens]. intros H.
  apply andb_true_iff in H. destruct H as [Hc Hr]. simpl. rewrite (IH Hr). f_equal.
  apply slug_char_lower. destruct (isLowerAlnum c); [reflexivity|].
  cbn [orb] in Hc |- *. now apply andb_true_iff in Hc.
Qed.

Lemma allChars_toLowerCase (p : ascii -> bool) (s : string) :
  allChars p (toLowerCase s) = allChars (fun c => p (lowerChar c)) s.
Proof. induction s as [|c r IH]; [reflexivity|]. simpl. now rewrite IH. Qed.

Lemma slugify_eq (text : string) :
  slugify text
  = dropLastHyphen
      (dropFirstHyphen
         (replaceLoop separators "-" (toLowerCase text)
            (S (String.length (toLowerCase text))) (toLowerCase text))).
Proof. unfold slugify. now rewrite edgeHyphen_replaceAll. Qed.

(** X11.  The slug of a topic is made of lower-case letters and digits with
    single hyphens between them: it neither starts nor ends with a hyphen.
    Taking the slug of a slug changes nothing.  The slug is not empty when
    the topic holds a letter from A to Z, in either case, or a digit. *)
Theorem slugify_slug :
  forall text : string,
    isSlug (slugify text) = true /\
    slugify (slugify text) = slugify text /\
    (allChars (fun c => negb (isLowerAlnum (lowerChar c))) text = false ->
     slugify text <> "").
Proof.
  intros text.
  assert (Hslug : forall t, isSlug (slugify t) = true).
  { intros t. rewrite slugify_eq. apply edges_slug, separators_hyphens. lia. }
  assert (Hbad : forall t, allChars bad (slugify t)
                           = allChars (fun c => negb (isLowerAlnum (lowerChar c))) t).
  { intros t. rewrite slugify_eq, dropLastHyphen_allBad, dropFirstHyphen_allBad.
    rewrite separators_allBad by lia. apply allChars_toLowerCase. }
  split; [apply Hslug|]. split.
  - specialize (Hslug text). destruct (slugify text) as [|c r] eqn:E; [reflexivity|].
    unfold isSlug in Hslug. apply andb_true_iff in Hslug. destruct Hslug as [Hc Hh].
    rewrite slugify_eq, (toLowerCase_slug _ (hyphens_weaken _ Hh)).
    rewrite separators_fixed by (try lia; now apply hyphens_weaken).
    cbn [dropFirstHyphen]. rewrite (alnum_not_hyphen c Hc). now apply dropLastHyphen_fixed.
  - rewrite <- Hbad. intros H E. rewrite E in H. discriminate H.
Qed.

End SlugProperties.

Lemma slugify_slug_witness :
  isSlug (slugify "  Intro to C++ & Rust! ") = true /\
  slugify (slugify "  Intro to C++ & Rust! ") = slugify "  Intro to C++ & Rust! " /\
  JSString.truthy (slugify "  Intro to C++ & Rust! ") = true.
Proof.
  destruct (slugify_slug "  Intro to C++ & Rust! ") as (Hslug & Hfix & Hfull).
  split; [exact Hslug|]. split; [exact Hfix|].
  specialize (Hfull eq_refl).
  destruct (slugify "  Intro to C++ & Rust! "); [congruence | reflexivity].
Defined.

(** ** The action of the command *)

Section CommandLineProperties.

Variable World : Type.
Variables courseDescription learningGraph chapterStructure chapterContent
          microsims glossary faq quizzes references mkdocsConfig metrics
          readme : StageFn World.
Variable elapsed : World -> World -> string.
Variable numberToString : number -> string.
Variable resolve : string -> string -> string.

Local Abbreviation steps' :=
  (steps World courseDescription learningGraph chapterStructure chapterContent
         microsims glossary faq quizzes references mkdocsConfig metrics readme).
Local Abbreviation runPipeline' :=
  (runPipeline World courseDescription learningGraph chapterStructure chapterContent
               microsims glossary faq quizzes references mkdocsConfig metrics readme
               elapsed numberToString).
Local Abbreviation action' :=
  (action World courseDescription learningGraph chapterStructure chapterContent
          microsims glossary faq quizzes references mkdocsConfig metrics readme
          elapsed numberToString resolve).

(** X12.  The command ends in one of three ways.  Without an API key (absent
    or empty) it exits with status 1 after two lines on the error stream,
    and the orchestrator is not started, so no stage is called.  With a key
    it runs the orchestrator on the configuration built from the options:
    when the run is fulfilled the command ends without calling
    [process.exit] and writes nothing on the error stream; when the run is
    rejected it exits with status 1 after the line "Pipeline failed: "
    followed by the message of the reason, which is the reason of a stage
    that was called and rejected. *)
Theorem action_exit_status :
  forall (topic : string) (opts : CliOptions.t) (proc : Process) (w : World),
    let done := action' topic opts proc w in
    let run := runPipeline' (configOf resolve topic opts proc) w in
    (apiKey proc = None \/ apiKey proc = Some "" ->
     exitStatus World done = Some 1%nat /\ pipeline World done = None /\
     List.length (stderr World done) = 2%nat) /\
    (forall key, apiKey proc = Some key -> key <> "" ->
       pipeline World done = Some run /\
       (fst run = Fulfilled tt ->
        exitStatus World done = None /\ stderr World done = []) /\
       (forall error, fst run = Rejected error ->
          exitStatus World done = Some 1%nat /\
          stderr World done
          = [(String "010" "  Pipeline failed: " ++ messageOf error ++ String "010" "")%string] /\
          exists j step ctx w0 w',
            nth_error steps' j = Some step /\
            fn World step ctx w0 = (Rejected error, w') /\
            In (mkInvocation World step ctx w0) (run_calls World (snd run)))).
Proof.
  intros topic opts proc w done run. split.
  - intros [H|H]; unfold done, action; rewrite H; now repeat split.
  - intros key Hkey Hne. unfold done, action. rewrite Hkey. cbn [nullish].
    destruct key as [|c key]; [congruence|]. cbn [JSString.truthy negb]. fold run.
    split; [now destruct (fst run)|]. split.
    + intros Hr. now rewrite Hr.
    + intros error Hr. rewrite Hr. split; [reflexivity|]. split; [reflexivity|].
      assert (E : runSteps World elapsed 12 0 steps'
                    (mkRun World
                       (PipelineContext.mk (configOf resolve topic opts proc) None None None
                          (TextbookConfig.outputDir (configOf resolve topic opts proc)))
                       w (banner numberToString (configOf resolve topic opts proc)) [])
                  = (Rejected error, snd run)).
      { revert Hr. unfold run, runPipeline. change (List.length steps') with 12%nat.
        destruct (runSteps World elapsed 12 0 steps' _) as [[[]|e] st]; cbn [fst snd];
          intros Hr; [discriminate | congruence]. }
      apply runSteps_rejected in E.
      destruct E as (j & step & ctx & w0 & w' & before & Hn & Hf & Hin & _).
      now exists j, step, ctx, w0, w'.
Qed.

End CommandLineProperties.

Lemma action_exit_status_witness :
  exitStatus unit (sampleAction (mkProcess "/home" None)) = Some 1%nat /\
  pipeline unit (sampleAction (mkProcess "/home" None)) = None /\
  exitStatus unit (sampleAction (mkProcess "/home" (Some "key"))) = Some 1%nat /\
  stderr unit (sampleAction (mkProcess "/home" (Some "key")))
  = [(String "010" "  Pipeline failed: boom" ++ String "010" "")%string].
Proof.
  pose proof (action_exit_status unit passStage (failStage "boom") passStage passStage
                passStage passStage passStage passStage passStage passStage passStage
                passStage (fun _ _ => "0.0") (fun _ => "n")
                (fun a b => (a ++ "/" ++ b)%string) "Widgets" sampleOptions) as H.
  destruct (H (mkProcess "/home" None) tt) as [Hnone _].
  destruct (Hnone (or_introl eq_refl)) as (E1 & E2 & _).
  destruct (H (mkProcess "/home" (Some "key")) tt) as [_ Hkey].
  destruct (Hkey "key" eq_refl ltac:(discriminate)) as (_ & _ & Hfail).
  destruct (Hfail (ErrorObject "boom") eq_refl) as (E3 & E4 & _).
  repeat split; assumption.
Defined.

(** ** The course description *)

Lemma padTopics_eq (fuel chapters : nat) :
  forall topics : list string,
    (chapters - List.length topics <= fuel)%nat ->
    padTopics fuel chapters topics
    = topics ++ map (fun k => ("Chapter " ++ natToString k)%string)
                    (seq (List.length topics + 1) (chapters - List.length topics)).
Proof.
  induction fuel as [|fuel IH]; intros topics Hle.
  - replace (chapters - List.length topics)%nat with 0%nat by lia.
    simpl. now rewrite app_nil_r.
  - cbn [padTopics]. destruct (List.length topics <? chapters)%nat eqn:E.
    + apply Nat.ltb_lt in E. rewrite IH by (rewrite length_app; simpl; lia).
      rewrite length_app. cbn [List.length].
      replace (chapters - List.length topics)%nat
        with (S (chapters - (List.length topics + 1)))%nat by lia.
      cbn [seq map]. rewrite <- app_assoc.
      replace (List.length topics + 1 + 1)%nat with (S (List.length topics + 1)) by lia.
      reflexivity.
    + apply Nat.ltb_ge in E.
      replace (chapters - List.length topics)%nat with 0%nat by lia.
      simpl. now rewrite app_nil_r.
Qed.

(** X13.  The topics of a course description are the topics listed in the
    answer, all of them and in their order, followed by the generic titles
    "Chapter k" for the positions k up to the chapter count that the answer
    left open.  So there are never fewer topics than chapters, and topics
    beyond the chapter count are kept.  The answer itself is kept unchanged as
    the raw text. *)
Theorem parseCourseDescription_topics :
  forall (raw topic : string) (chapters : nat),
    let description := parseCourseDescription raw topic chapters in
    let listed := listedTopics raw in
    CourseDescription.topics description
    = listed ++ map (fun k => ("Chapter " ++ natToString k)%string)
                    (seq (List.length listed + 1) (chapters - List.length listed)) /\
    List.length (CourseDescription.topics description)
    = Nat.max (List.length listed) chapters /\
    CourseDescription.rawMarkdown description = raw.
Proof.
  intros raw topic chapters description listed.
  assert (E : CourseDescription.topics description
              = listed ++ map (fun k => ("Chapter " ++ natToString k)%string)
                              (seq (List.length listed + 1) (chapters - List.length listed))).
  { unfold description, parseCourseDescription. cbn [CourseDescription.topics].
    fold (listedTopics raw). fold listed. apply padTopics_eq. lia. }
  split; [exact E|]. split; [|reflexivity].
  rewrite E, length_app, length_map, length_seq. lia.
Qed.

Section CourseDescriptionProperties.
Import RegExp JSRegExp CoursePatterns.

Lemma heading_needs_hash {R : Type} (name s : string) (c : captures)
      (k : string -> captures -> option R) :
  match s with String a _ => Ascii.eqb "#" a = false | EmptyString => True end ->
  matchHere (heading name) s c k = None.
Proof.
  destruct s as [|a s]; intros H; [reflexivity|].
  apply upper_hash in H. unfold heading, seqs.
  cbn [fold_right liti matchHere]. unfold chri at 1.
  cbn [matchHere]. now rewrite H.
Qed.

Lemma exec_line_none (name s : string) :
  includes "#" s = false -> RegExp.exec (line name) s = None.
Proof.
  induction s as [|a s IH]; intros H.
  - cbn [RegExp.exec]. unfold line. cbn [matchHere]. now rewrite heading_needs_hash.
  - rewrite includes_char_cons in H. apply orb_false_iff in H. destruct H as [Ha Hs].
    cbn [RegExp.exec]. unfold line at 1. cbn [matchHere].
    rewrite heading_needs_hash by exact Ha. now apply IH.
Qed.

Lemma execFrom_heading_none (name : string) (rest : list pattern) (input s : string) :
  includes "#" s = false ->
  execFrom (cats (Atom (heading name) :: rest)) input s = None.
Proof.
  induction s as [|a s IH]; intros H.
  - cbn [execFrom cats fold_right matchAt]. now rewrite heading_needs_hash.
  - rewrite includes_char_cons in H. apply orb_false_iff in H. destruct H as [Ha Hs].
    cbn [execFrom]. cbn [cats fold_right matchAt].
    rewrite heading_needs_hash by exact Ha. now apply IH.
Qed.

(** X14.  An answer without any number sign has no heading, so nothing is
    read from it: the title is the topic, the subtitle, the target audience
    and the prerequisites are empty, the topics are the generic titles
    "Chapter 1" to "Chapter n", and there is no learning outcome. *)
Theorem parseCourseDescription_without_headings :
  forall (raw topic : string) (chapters : nat),
    includes "#" raw = false ->
    parseCourseDescription raw topic chapters
    = CourseDescription.mk topic "" "" ""
        (map (fun k => ("Chapter " ++ natToString k)%string) (seq 1 chapters)) [] raw.
Proof.
  intros raw topic chapters H.
  unfold parseCourseDescription, lineOf, sectionOf, JSRegExp.exec.
  rewrite !exec_line_none by exact H.
  unfold section, lastSection. rewrite !execFrom_heading_none by exact H.
  cbn [itemsOf]. rewrite padTopics_eq by (simpl; lia).
  cbn [List.length app]. now rewrite Nat.sub_0_r.
Qed.

End CourseDescriptionProperties.

Lemma parseCourseDescription_topics_witness :
  CourseDescription.topics (parseCourseDescription sampleCourse "Widgets" 5)
  = ["Bolts"; "Nuts and Washers"; "Assemblies"; "Chapter 4"; "Chapter 5"] /\
  CourseDescription.topics (parseCourseDescription sampleCourse "Widgets" 2)
  = ["Bolts"; "Nuts and Washers"; "Assemblies"].
Proof.
  split.
  - exact (proj1 (parseCourseDescription_topics sampleCourse "Widgets" 5)).
  - exact (proj1 (parseCourseDescription_topics sampleCourse "Widgets" 2)).
Defined.

Lemma parseCourseDescription_without_headings_witness :
  parseCourseDescription "I cannot help with that." "Widgets" 2
  = CourseDescription.mk "Widgets" "" "" "" ["Chapter 1"; "Chapter 2"] []
      "I cannot help with that.".
Proof.
  exact (parseCourseDescription_without_headings "I cannot help with that." "Widgets" 2
           eq_refl).
Defined.

(** ** The topics of the MicroSims *)

Lemma indexed_length {A : Type} (xs : list A) : List.length (indexed xs) = List.length xs.
Proof. unfold indexed. rewrite length_combine, length_seq. lia. Qed.

Lemma nth_error_combine_seq {A : Type} (xs : list A) :
  forall (start i : nat) (x : A) (j : nat),
    nth_error (combine xs (seq start (List.length xs))) i = Some (x, j) ->
    nth_error xs i = Some x /\ j = (start + i)%nat.
Proof.
  induction xs as [|y xs IH]; intros start i x j H; [destruct i; discriminate|].
  destruct i as [|i]; simpl in H.
  - inversion H; subst. split; [reflexivity | lia].
  - apply IH in H. destruct H as [H ->]. split; [exact H | lia].
Qed.

Lemma firstn_subset {A : Type} (n : nat) (l : list A) (x : A) :
  In x (firstn n l) -> In x l.
Proof.
  revert l. induction n as [|n IH]; intros [|y l] H; simpl in H; try contradiction.
  destruct H as [<-|H]; [now left | right; now apply IH].
Qed.

Lemma pickByChapter_subset (count : nat) (prioritized : list Concept.t) (c : Concept.t) :
  In c (fst (pickByChapter count prioritized)) -> In c prioritized.
Proof.
  unfold pickByChapter.
  assert (H : forall (st : list Concept.t * list number),
             In c (fst (fold_left
                          (fun '(selected, usedChapters) c =>
                             if (count <=? List.length selected)%nat then (selected, usedChapters)
                             else if negb (existsb (sameValueZero (Concept.chapter c)) usedChapters)
                                  then (selected ++ [c], usedChapters ++ [Concept.chapter c])
                                  else (selected, usedChapters))
                          prioritized st)) ->
             In c (fst st) \/ In c prioritized).
  { induction prioritized as [|p ps IH]; intros [selected used] Hin; simpl in Hin; [now left|].
    destruct (count <=? List.length selected)%nat.
    - destruct (IH _ Hin) as [Hs|Hp]; [now left | right; now right].
    - destruct (negb (existsb (sameValueZero (Concept.chapter p)) used)).
      + destruct (IH _ Hin) as [Hs|Hp]; [|right; now right].
        cbn [fst] in Hs. apply in_app_or in Hs. destruct Hs as [Hs|[<-|[]]];
          [now left | right; now left].
      + destruct (IH _ Hin) as [Hs|Hp]; [now left | right; now right]. }
  intros Hin. destruct (H _ Hin) as [[]|Hp]. exact Hp.
Qed.

Lemma fillFromConcepts_subset (count : nat) (concepts : list Concept.t) (c : Concept.t) :
  forall selected,
    In c (fillFromConcepts count concepts selected) -> In c selected \/ In c concepts.
Proof.
  unfold fillFromConcepts. induction concepts as [|p ps IH]; intros selected Hin;
    simpl in Hin; [now left|].
  destruct (count <=? List.length selected)%nat.
  - destruct (IH _ Hin) as [Hs|Hp]; [now left | right; now right].
  - destruct (negb (existsb (fun s => strictEq (Concept.id s) (Concept.id p)) selected)).
    + destruct (IH _ Hin) as [Hs|Hp]; [|right; now right].
      apply in_app_or in Hs. destruct Hs as [Hs|[<-|[]]]; [now left | right; now left].
    + destruct (IH _ Hin) as [Hs|Hp]; [now left | right; now right].
Qed.

Lemma fillGeneric_length (fuel count : nat) (topic : string) :
  forall selected,
    (count - List.length selected <= fuel)%nat ->
    (count <= List.length (fillGeneric fuel count topic selected))%nat.
Proof.
  induction fuel as [|fuel IH]; intros selected Hle; [simpl; lia|].
  cbn [fillGeneric]. destruct (List.length selected <? count)%nat eqn:E.
  - apply IH. rewrite length_app. simpl. lia.
  - apply Nat.ltb_ge in E. exact E.
Qed.

Lemma fillGeneric_elements (fuel count : nat) (topic : string) (c : Concept.t) :
  forall selected,
    In c (fillGeneric fuel count topic selected) ->
    In c selected \/
    exists k, (1 <= k <= count)%nat /\
              c = Concept.mk (ofNat k) (topic ++ " Concept " ++ natToString k)%string
                             (ofZ 1) [] "Core" "Apply".
Proof.
  induction fuel as [|fuel IH]; intros selected Hin; [now left|].
  cbn [fillGeneric] in Hin. destruct (List.length selected <? count)%nat eqn:E; [|now left].
  apply Nat.ltb_lt in E. destruct (IH _ Hin) as [Hs|Hk]; [|now right].
  apply in_app_or in Hs. destruct Hs as [Hs|[<-|[]]]; [now left|].
  right. exists (List.length selected + 1)%nat. split; [lia | reflexivity].
Qed.

Lemma fillGeneric_empty (fuel count : nat) (topic : string) :
  forall selected,
    (count - List.length selected <= fuel)%nat ->
    fillGeneric fuel count topic selected
    = selected ++
      map (fun k => Concept.mk (ofNat k) (topic ++ " Concept " ++ natToString k)%string
                               (ofZ 1) [] "Core" "Apply")
          (seq (List.length selected + 1) (count - List.length selected)).
Proof.
  induction fuel as [|fuel IH]; intros selected Hle.
  - replace (count - List.length selected)%nat with 0%nat by lia.
    simpl. now rewrite app_nil_r.
  - cbn [fillGeneric]. destruct (List.length selected <? count)%nat eqn:E.
    + apply Nat.ltb_lt in E. rewrite IH by (rewrite length_app; simpl; lia).
      rewrite length_app. cbn [List.length].
      replace (count - List.length selected)%nat
        with (S (count - (List.length selected + 1)))%nat by lia.
      cbn [seq map]. rewrite <- app_assoc.
      replace (List.length selected + 1 + 1)%nat with (S (List.length selected + 1)) by lia.
      reflexivity.
    + apply Nat.ltb_ge in E.
      replace (count - List.length selected)%nat with 0%nat by lia.
      simpl. now rewrite app_nil_r.
Qed.

(** X15.  For a count that is a natural number, [selectSimTopics] returns
    exactly that many topics.  The topic at the position i has the chart type
    at the position i modulo 6 of the list of chart types.  Every topic
    illustrates a concept of the learning graph, with the chapter of that
    concept, or else a generic concept "<topic> Concept k" of chapter 1. *)
Theorem selectSimTopics_topics :
  forall (count : nat) (concepts : list Concept.t) (chapters : list ChapterOutline.t)
         (topic : string),
    let sims := selectSimTopics count concepts chapters topic in
    List.length sims = count /\
    (forall i sim, nth_error sims i = Some sim ->
       SimTopic.chartType sim = nth (i mod 6) chartTypes "") /\
    (forall sim, In sim sims ->
       SimTopic.name sim = (SimTopic.conceptName sim ++ " Explorer")%string /\
       ((exists c, In c concepts /\ SimTopic.conceptName sim = Concept.name c /\
                   SimTopic.chapter sim = Concept.chapter c) \/
        (exists k, (1 <= k <= count)%nat /\
                   SimTopic.conceptName sim = (topic ++ " Concept " ++ natToString k)%string /\
                   SimTopic.chapter sim = ofZ 1))).
Proof.
  intros count concepts chapters topic sims. unfold sims, selectSimTopics.
  set (prioritized := firstn (count * 2) _).
  set (selected := fillGeneric count count topic _).
  assert (Hlen : (count <= List.length selected)%nat)
    by (apply fillGeneric_length; lia).
  split; [|split].
  - rewrite length_map, indexed_length, length_firstn. lia.
  - intros i sim H. rewrite nth_error_map in H.
    destruct (nth_error (indexed (firstn count selected)) i) as [[c j]|] eqn:E; [|discriminate].
    apply nth_error_combine_seq in E. destruct E as [_ ->].
    cbn [option_map] in H. inversion H; subst. reflexivity.
  - intros sim H. apply in_map_iff in H. destruct H as [[c j] [<- H]].
    cbn [SimTopic.name SimTopic.conceptName SimTopic.chapter]. split; [reflexivity|].
    apply in_combine_l in H. apply firstn_subset in H.
    apply fillGeneric_elements in H. destruct H as [H|[k [Hk ->]]].
    + left. exists c. split; [|now split].
      apply fillFromConcepts_subset in H. destruct H as [H|H]; [|exact H].
      apply pickByChapter_subset in H. unfold prioritized in H.
      apply firstn_subset in H. now apply filter_In in H.
    + right. exists k. now repeat split.
Qed.

Lemma seq_indexed_map {A B : Type} (f : nat -> A) (g : A * nat -> B) (len : nat) :
  forall start offset,
    map g (combine (map f (seq start len)) (seq offset len))
    = map (fun i => g (f (start + i)%nat, (offset + i)%nat)) (seq 0 len).
Proof.
  induction len as [|len IH]; intros start offset; [reflexivity|].
  cbn [seq map combine]. rewrite !Nat.add_0_r. f_equal.
  rewrite IH, <- seq_shift, map_map. apply map_ext. intros i.
  now rewrite !Nat.add_succ_r.
Qed.

(** X16.  Without concepts every topic is generic: for a count n the result
    is made of the topics "<topic> Concept 1 Explorer" to "<topic> Concept n
    Explorer", all of chapter 1, with the chart types in rotation. *)
Theorem selectSimTopics_without_concepts :
  forall (count : nat) (chapters : list ChapterOutline.t) (topic : string),
    selectSimTopics count [] chapters topic = map (genericTopic topic) (seq 1 count).
Proof.
  intros count chapters topic. unfold selectSimTopics.
  rewrite firstn_nil. cbn [filter firstn pickByChapter fold_left fst fillFromConcepts].
  rewrite fillGeneric_empty by (simpl; lia). cbn [List.length app].
  replace (count - 0)%nat with count by lia. cbn [Nat.add].
  rewrite firstn_all2 by (rewrite length_map, length_seq; lia).
  unfold indexed. rewrite length_map, length_seq.
  rewrite (seq_indexed_map
             (fun k => Concept.mk (ofNat k) (topic ++ " Concept " ++ natToString k)%string
                                  (ofZ 1) [] "Core" "Apply")
             (fun '(c, i) =>
                SimTopic.mk (Concept.name c ++ " Explorer")%string
                  ("An interactive simulation for exploring " ++ Concept.name c
                     ++ " in the context of " ++ topic ++ ".")%string
                  (Concept.name c) (Concept.chapter c)
                  (nth (i mod List.length chartTypes) chartTypes ""))
             count 1 0).
  rewrite <- seq_shift, map_map. apply map_ext. intros i.
  unfold genericTopic. cbn [Concept.name Concept.chapter Nat.add List.length chartTypes].
  replace (S i - 1)%nat with i by lia. reflexivity.
Qed.

(** ** Keys of the concept map *)

Lemma sameValueZero_eq (x y : number) :
  sameValueZero x y = true <->
  x = y \/ exists s t, x = S754_zero s /\ y = S754_zero t.
Proof.
  split.
  - destruct x as [s|s| |s m e], y as [t|t| |t m' e'];
      try (intros H; discriminate H);
      try (destruct s; intros H; discriminate H);
      try (destruct t; intros H; discriminate H).
    + intros _. right. now exists s, t.
    + destruct s, t; intros H; try discriminate H; now left.
    + now left.
    + unfold sameValueZero, SFeqb, SFcompare.
      destruct s, t; intros H; try discriminate H;
        destruct (Z.compare_spec e e') as [->|?|?]; try discriminate H;
        rewrite Pos.compare_cont_spec in H; cbn [Pos.switch_Eq] in H;
        destruct (Pos.compare_spec m m') as [->|?|?]; try discriminate H; now left.
  - intros [->|(s & t & -> & ->)]; [apply sameValueZero_refl | reflexivity].
Qed.

Lemma sameValueZero_sym (x y : number) : sameValueZero x y = sameValueZero y x.
Proof.
  destruct (sameValueZero x y) eqn:E, (sameValueZero y x) eqn:F; try reflexivity.
  - apply sameValueZero_eq in E. rewrite <- F. symmetry. apply sameValueZero_eq.
    destruct E as [->|(s & t & -> & ->)]; [now left | right; now exists t, s].
  - apply sameValueZero_eq in F. rewrite <- E. apply sameValueZero_eq.
    destruct F as [->|(s & t & -> & ->)]; [now left | right; now exists t, s].
Qed.

Lemma sameValueZero_trans (x y z : number) :
  sameValueZero x y = true -> sameValueZero y z = true -> sameValueZero x z = true.
Proof.
  intros Hxy Hyz. apply sameValueZero_eq in Hxy, Hyz. apply sameValueZero_eq.
  destruct Hxy as [->|(s & t & -> & ->)]; [exact Hyz|].
  destruct Hyz as [<-|(s' & t' & _ & ->)]; right; eauto.
Qed.

Lemma sameValueZero_congr (x y z : number) :
  sameValueZero x y = true -> sameValueZero x z = sameValueZero y z.
Proof.
  intros H. destruct (sameValueZero y z) eqn:E.
  - now apply (sameValueZero_trans x y z).
  - destruct (sameValueZero x z) eqn:F; [|reflexivity].
    rewrite <- E. symmetry. apply (sameValueZero_trans y x z); [|exact F].
    now rewrite sameValueZero_sym.
Qed.

Section ConceptMapProperties.

Variable numberToString : number -> string.

Local Abbreviation chapterConceptMap' := (ChapterStructure.chapterConceptMap numberToString).
Local Abbreviation entryOf :=
  (fun c : Concept.t => (numberToString (Concept.id c) ++ ". " ++ Concept.name c)%string).

Lemma chapterConceptMap_lookup (concepts : list Concept.t) (n : number) :
  chapterConceptMap' concepts n ?? []
  = map entryOf (filter (fun c => sameValueZero n (Concept.chapter c)) concepts).
Proof.
  unfold ChapterStructure.chapterConceptMap.
  assert (H : forall (start : ConceptMap),
             (forall a b, sameValueZero a b = true -> start a = start b) ->
             let final :=
               fold_left
                 (fun (conceptMap : ConceptMap) c =>
                    let key := Concept.chapter c in
                    let entries := conceptMap key ?? [] in
                    let entry := entryOf c in
                    fun n => if sameValueZero n key then Some (entries ++ [entry])
                             else conceptMap n)
                 concepts start in
             final n ?? []
             = start n ?? []
               ++ map entryOf (filter (fun c => sameValueZero n (Concept.chapter c)) concepts)).
  { induction concepts as [|c cs IH]; intros start Hstart; cbn [fold_left filter map].
    - now rewrite app_nil_r.
    - cbv zeta in IH |- *. rewrite IH.
      + destruct (sameValueZero n (Concept.chapter c)) eqn:E.
        * cbn [nullish map]. rewrite <- app_assoc. cbn [app].
          now rewrite (Hstart n (Concept.chapter c) E).
        * reflexivity.
      + intros a b Hab. rewrite (sameValueZero_congr a b _ Hab).
        destruct (sameValueZero b (Concept.chapter c)); [reflexivity | now apply Hstart]. }
  apply (H (fun _ => None)). reflexivity.
Qed.

End ConceptMapProperties.

(** ** Numbers written by the program and read back *)

Lemma digit_char (d : nat) :
  (d < 10)%nat ->
  isDigit (ascii_of_nat (48 + d)) = true /\
  decDigit (ascii_of_nat (48 + d)) = Some (N.of_nat d).
Proof.
  intros H. do 10 (destruct d as [|d]; [split; reflexivity|]). lia.
Qed.

Lemma readDigits_acc (s : string) :
  allChars isDigit s = true ->
  forall (acc : N) (cnt : nat),
    fst (fst (readDigits 10 decDigit s acc cnt))
    = (acc * 10 ^ N.of_nat (String.length s) + decimalValue s)%N.
Proof.
  unfold decimalValue. induction s as [|c s IH]; intros H acc cnt.
  - simpl. lia.
  - simpl in H. apply andb_true_iff in H. destruct H as [Hc Hs].
    destruct (digit_facts c Hc) as (_ & _ & _ & _ & _ & _ & _ & [d Hd]).
    cbn [readDigits]. rewrite Hd. rewrite (IH Hs (acc * 10 + d)%N (S cnt)).
    rewrite (IH Hs (0 * 10 + d)%N 1%nat).
    cbn [String.length].
    replace (N.of_nat (S (String.length s))) with (N.of_nat (String.length s) + 1)%N by lia.
    rewrite N.pow_add_r. change (10 ^ 1)%N with 10%N. ring.
Qed.

Lemma decimalValue_cons (d : nat) (acc : string) :
  (d < 10)%nat -> allChars isDigit acc = true ->
  decimalValue (String (ascii_of_nat (48 + d)) acc)
  = (N.of_nat d * 10 ^ N.of_nat (String.length acc) + decimalValue acc)%N.
Proof.
  intros Hd Hacc. destruct (digit_char d Hd) as [_ Hdec].
  unfold decimalValue at 1. cbn [readDigits]. rewrite Hdec.
  rewrite (readDigits_acc acc Hacc). ring.
Qed.

Lemma decimalDigits_value (fuel : nat) :
  forall (n : nat) (acc : string),
    (n < fuel)%nat -> allChars isDigit acc = true ->
    allChars isDigit (decimalDigits fuel n acc) = true /\
    decimalDigits fuel n acc <> "" /\
    decimalValue (decimalDigits fuel n acc)
    = (N.of_nat n * 10 ^ N.of_nat (String.length acc) + decimalValue acc)%N.
Proof.
  induction fuel as [|fuel IH]; intros n acc Hn Hacc; [lia|].
  cbn [decimalDigits].
  assert (Hmod : (n mod 10 < 10)%nat) by (apply Nat.mod_upper_bound; lia).
  destruct (digit_char (n mod 10) Hmod) as [Hdig _].
  assert (Hacc' : allChars isDigit (String (ascii_of_nat (48 + n mod 10)) acc) = true)
    by (cbn [allChars]; now rewrite Hdig, Hacc).
  pose proof (decimalValue_cons (n mod 10) acc Hmod Hacc) as Hval.
  pose proof (Nat.div_mod_eq n 10) as Hdm.
  destruct (n / 10)%nat as [|q] eqn:Eq.
  - split; [exact Hacc'|]. split; [discriminate|]. rewrite Hval.
    replace (n mod 10)%nat with n by lia. reflexivity.
  - assert (Hq : (S q < fuel)%nat) by lia.
    destruct (IH (S q) _ Hq Hacc') as (H1 & H2 & H3).
    split; [exact H1|]. split; [exact H2|]. rewrite H3, Hval.
    cbn [String.length].
    replace (N.of_nat (S (String.length acc))) with (N.of_nat (String.length acc) + 1)%N by lia.
    rewrite N.pow_add_r. change (10 ^ 1)%N with 10%N.
    replace (N.of_nat n) with (10 * N.of_nat (S q) + N.of_nat (n mod 10))%N by lia.
    ring.
Qed.

Lemma natToString_value (n : nat) :
  allChars isDigit (natToString n) = true /\ natToString n <> "" /\
  decimalValue (natToString n) = N.of_nat n.
Proof.
  unfold natToString.
  destruct (decimalDigits_value (S n) n "" (Nat.lt_succ_diag_r n) eq_refl) as (H1 & H2 & H3).
  split; [exact H1|]. split; [exact H2|]. rewrite H3.
  change (decimalValue "") with 0%N. change (10 ^ N.of_nat (String.length ""))%N with 1%N. lia.
Qed.

Lemma Number_natToString (n : nat) : Number (natToString n) = ofNat n.
Proof.
  destruct (natToString_value n) as (H1 & H2 & H3).
  rewrite (Number_digits _ H2 H1), H3. unfold ofN, ofNat. f_equal. lia.
Qed.

Lemma leadingNumber_entry (n : nat) (name : string) :
  leadingNumber (natToString n ++ ". " ++ name) = ofNat n.
Proof.
  destruct (natToString_value n) as (H1 & _ & _).
  unfold leadingNumber. change (". " ++ name)%string with (String "." (" " ++ name)).
  rewrite split_app, (split_without_separator "." _ (digits_without_dot _ H1)).
  cbn [app nth_error NumberOf]. apply Number_natToString.
Qed.

Lemma ofNat_not_NaN (n : nat) : isNaN (ofNat n) = false.
Proof.
  destruct (ofNat_count n) as [->|[->|(m & e & -> & _)]]; reflexivity.
Qed.

Section ConceptMapRoundTrip.

Variable numberToString : number -> string.

(** The conversion of a Number to a string gives the decimal digits of a
    natural number below 2^53. *)
Hypothesis numberToString_integer :
  forall k : nat, (Z.of_nat k < 2 ^ 53)%Z -> numberToString (ofNat k) = natToString k.

Local Abbreviation chapterConceptMap' := (ChapterStructure.chapterConceptMap numberToString).

(** X17.  The identifiers survive the trip through the concept map.  When
    the identifiers of the concepts are natural numbers below 2^53, the
    entries "<id>. <name>" that the Chapter Structure stage files under a
    chapter are read back as those identifiers: the synthesized outline of a
    chapter lists the identifiers of the concepts of that chapter, all of
    them and in their order. *)
Theorem conceptMap_round_trip :
  forall (concepts : list Concept.t) (courseTopics : list string) (n : nat),
    Forall (fun c => exists k : nat, (Z.of_nat k < 2 ^ 53)%Z /\ Concept.id c = ofNat k)
           concepts ->
    ChapterOutline.concepts (defaultOutline courseTopics (chapterConceptMap' concepts) n)
    = map Concept.id
          (filter (fun c => sameValueZero (ofNat n) (Concept.chapter c)) concepts).
Proof.
  intros concepts courseTopics n Hids.
  unfold defaultOutline. cbn [ChapterOutline.concepts].
  rewrite chapterConceptMap_lookup.
  induction concepts as [|c cs IH]; [reflexivity|].
  inversion Hids as [|? ? Hc Hcs]; subst. cbn [filter].
  destruct (sameValueZero (ofNat n) (Concept.chapter c)); [|now apply IH].
  cbn [map filter]. destruct Hc as [k [Hk Hid]].
  rewrite Hid, (numberToString_integer k Hk), leadingNumber_entry, ofNat_not_NaN.
  cbn [negb]. f_equal. now apply IH.
Qed.

End ConceptMapRoundTrip.

Lemma integerToString_integer (k : nat) :
  (Z.of_nat k < 2 ^ 53)%Z -> integerToString (ofNat k) = natToString k.
Proof.
  intros Hk. destruct k as [|k]; [reflexivity|].
  unfold ofNat. destruct (ofZ_exact (Z.of_nat (S k))) as (m & e & -> & _ & He & Hm & _); [lia|].
  unfold integerToString. f_equal.
  rewrite Z.shiftl_div_pow2 by lia. rewrite Hm, Z.div_mul; [lia|].
  apply Z.pow_nonzero; lia.
Qed.

Lemma conceptMap_round_trip_witness :
  ChapterOutline.concepts
    (defaultOutline []
       (ChapterStructure.chapterConceptMap integerToString
          [Concept.mk (ofNat 3) "Bolts" (ofNat 1) [] "Core" "Apply";
           Concept.mk (ofNat 4) "Nuts" (ofNat 2) [] "Core" "Apply";
           Concept.mk (ofNat 12) "Washers v1.5" (ofNat 1) [] "Core" "Apply"]) 1)
  = [ofNat 3; ofNat 12].
Proof.
  apply (conceptMap_round_trip integerToString integerToString_integer
           [Concept.mk (ofNat 3) "Bolts" (ofNat 1) [] "Core" "Apply";
            Concept.mk (ofNat 4) "Nuts" (ofNat 2) [] "Core" "Apply";
            Concept.mk (ofNat 12) "Washers v1.5" (ofNat 1) [] "Core" "Apply"] [] 1).
  repeat constructor; eexists; (split; [|reflexivity]); reflexivity.
Defined.

(** ** From the Chapter Structure stage to the Chapter Content stage *)

Lemma Contains_app_l (needle a b : string) : Contains needle a -> Contains needle (a ++ b).
Proof.
  intros [x [y ->]]. exists x, (y ++ b)%string. now rewrite !string_app_assoc.
Qed.

Lemma Contains_app_r (needle a b : string) : Contains needle b -> Contains needle (a ++ b).
Proof.
  intros [x [y ->]]. exists (a ++ x)%string, y. now rewrite !string_app_assoc.
Qed.

Lemma Contains_join (sep x : string) (xs : list string) :
  In x xs -> Contains x (JSString.join sep xs).
Proof.
  induction xs as [|y [|z r] IH]; intros H.
  - contradiction.
  - destruct H as [->|[]]. exists "", "". simpl. now rewrite string_app_nil_r.
  - change (JSString.join sep (y :: z :: r))
      with (y ++ sep ++ JSString.join sep (z :: r))%string.
    destruct H as [->|H].
    + exists "", (sep ++ JSString.join sep (z :: r))%string. reflexivity.
    + apply Contains_app_r, Contains_app_r, IH, H.
Qed.

Lemma parseChapterOutlines_nonempty (raw : string) (chapterCount : nat)
      (courseTopics : list string) (conceptMap : ConceptMap) :
  (1 <= chapterCount)%nat ->
  parseChapterOutlines raw chapterCount courseTopics conceptMap <> [].
Proof.
  intros Hc E. unfold parseChapterOutlines in E. fold (blocksOf raw) in E.
  pose proof (sort_perm compareOutlines
                (fillGaps (map ChapterOutline.number (parseBlocks conceptMap (blocksOf raw)))
                          chapterCount courseTopics conceptMap
                          (parseBlocks conceptMap (blocksOf raw)))) as P.
  rewrite E in P. apply Permutation_nil in P. rewrite fillGaps_eq in P.
  apply app_eq_nil in P. destruct P as [P1 P2]. rewrite P1 in P2.
  unfold missingChapters in P2. cbn [map existsb negb] in P2.
  destruct chapterCount as [|n]; [lia|]. discriminate P2.
Qed.

Section StageComposition.

Variable World : Type.
Variable finalMessage : MessageRequest -> World -> promise (list ContentBlock) * World.
Variable fsMkdir : string -> World -> settled unit * World.
Variable fsWriteFile : string -> string -> World -> promise unit * World.
Variable join : list string -> string.
Variable numberToString : number -> string.
Variable outlinePrompt : string -> string -> string -> number -> string.
Variable buildChapterPrompt : ChapterOutline.t -> list Concept.t -> string -> string -> string.

Local Abbreviation generateChapterStructure' :=
  (ChapterStructure.generateChapterStructure World finalMessage fsMkdir fsWriteFile join
                                             numberToString outlinePrompt).
Local Abbreviation generateChapterContent' :=
  (generateChapterContent World finalMessage fsMkdir fsWriteFile buildChapterPrompt join
                          numberToString).
Local Abbreviation buildChaptersIndex' := (ChapterStructure.buildChaptersIndex numberToString).
Local Abbreviation chapterConceptMap' := (ChapterStructure.chapterConceptMap numberToString).
Local Abbreviation chapterPrompts' := (chapterPrompts buildChapterPrompt).

Lemma buildChaptersIndex_links (title : string) (chapters : list ChapterOutline.t)
      (ch : ChapterOutline.t) :
  In ch chapters ->
  Contains ("](" ++ chapterFile numberToString ch ++ ")") (buildChaptersIndex' title chapters).
Proof.
  intros H. unfold ChapterStructure.buildChaptersIndex.
  do 7 apply Contains_app_r. apply Contains_app_l.
  eapply Contains_trans; [|apply Contains_join, in_map, H].
  unfold chapterFile.
  exists ("- [Chapter " ++ numberToString (ChapterOutline.number ch) ++ ": "
            ++ ChapterOutline.title ch)%string, "".
  rewrite string_app_nil_r, !string_app_assoc. reflexivity.
Qed.

Lemma generateChapterStructure_fulfilled (ctx ctx1 : PipelineContext.t) (env env1 : Env World) :
  generateChapterStructure' ctx env = (Fulfilled ctx1, env1) ->
  exists count request content,
    arrayFromLength (TextbookConfig.chapters (PipelineContext.config ctx)) = Some count /\
    outcome (fst (finalMessage request (world env))) = Fulfilled content /\
    let outlines :=
      parseChapterOutlines (firstText content) count (topicsOf ctx)
        (chapterConceptMap' (PipelineContext.concepts ctx ?? [])) in
    let chaptersDir := join [PipelineContext.outputDir ctx; "docs"; "chapters"] in
    ctx1 = withChapters ctx outlines /\
    effects env1
    = effects env ++ [RequestIssued request; DirectoryMade chaptersDir;
                      FileWritten (join [chaptersDir; "index.md"])
                                  (buildChaptersIndex' (titleOf ctx) outlines)].
Proof.
  unfold ChapterStructure.generateChapterStructure. fold (titleOf ctx). fold (topicsOf ctx).
  destruct (arrayFromLength (TextbookConfig.chapters (PipelineContext.config ctx)))
    as [count|]; [|discriminate].
  unfold generate, stream.
  match goal with
  | |- context [finalMessage ?r (world env)] =>
      set (request := r); destruct (finalMessage request (world env)) as [answer w1] eqn:Ef
  end.
  unfold andThen. cbn [outcome].
  destruct (outcome answer) as [content|e] eqn:Ea; [|discriminate].
  unfold mkdir. cbn [world effects].
  destruct (fsMkdir _ w1) as [[u|e] w2]; [|discriminate].
  unfold writeFile. cbn [world effects].
  destruct (fsWriteFile _ _ w2) as [written w3].
  destruct (outcome written); [|discriminate].
  intros H. inversion H; subst ctx1 env1; clear H.
  exists count, request, content. rewrite Ef. cbn [fst].
  split; [reflexivity|]. split; [exact Ea|]. cbn zeta. split; [reflexivity|].
  cbn [effects]. now rewrite <- !app_assoc.
Qed.

(** X18.  The Chapter Structure stage prepares the Chapter Content stage.
    When it is fulfilled on a configuration whose chapter count is at least
    1, the context it leaves holds outlines, at least one, so the Chapter
    Content stage passes its guard on that context and issues one request
    for each outline.  The index that the Chapter Structure stage wrote links
    the file of every outline, and when the Chapter Content stage is
    fulfilled the files it writes are the files of the outlines, under the
    names that the index links. *)
Theorem structure_then_content :
  forall (ctx ctx1 : PipelineContext.t) (env env1 : Env World) (count : nat),
    generateChapterStructure' ctx env = (Fulfilled ctx1, env1) ->
    arrayFromLength (TextbookConfig.chapters (PipelineContext.config ctx)) = Some count ->
    (1 <= count)%nat ->
    let chaptersDir := join [PipelineContext.outputDir ctx; "docs"; "chapters"] in
    exists outlines indexMd,
      PipelineContext.chapters ctx1 = Some outlines /\ outlines <> [] /\
      In (FileWritten (join [chaptersDir; "index.md"]) indexMd) (effects env1) /\
      (forall ch, In ch outlines ->
                  Contains ("](" ++ chapterFile numberToString ch ++ ")") indexMd) /\
      (exists later,
         effects (snd (generateChapterContent' ctx1 env1))
         = effects env1
             ++ map (fun p => RequestIssued (requestOf (chapterOptions ctx1) p))
                    (chapterPrompts' ctx1 outlines)
             ++ later) /\
      (forall ctx2 env2,
         generateChapterContent' ctx1 env1 = (Fulfilled ctx2, env2) ->
         exists results,
           List.length results = List.length outlines /\
           effects env2
           = effects env1
               ++ map (fun p => RequestIssued (requestOf (chapterOptions ctx1) p))
                      (chapterPrompts' ctx1 outlines)
               ++ [DirectoryMade chaptersDir]
               ++ map (fun '(ch, text) =>
                         FileWritten (join [chaptersDir; chapterFile numberToString ch]) text)
                      (combine outlines results)).
Proof.
  intros ctx ctx1 env env1 count H Hcount Hpos chaptersDir.
  apply generateChapterStructure_fulfilled in H.
  destruct H as (count' & request & content & Hc & _ & H). cbn zeta in H.
  rewrite Hcount in Hc. inversion Hc; subst count'; clear Hc.
  destruct H as [-> Heff].
  set (outlines := parseChapterOutlines (firstText content) count (topicsOf ctx)
                     (chapterConceptMap' (PipelineContext.concepts ctx ?? []))) in *.
  assert (Hne : outlines <> []) by (now apply parseChapterOutlines_nonempty).
  exists outlines, (buildChaptersIndex' (titleOf ctx) outlines).
  split; [reflexivity|]. split; [exact Hne|]. split.
  { rewrite Heff. apply in_or_app. right. fold chaptersDir. simpl. auto. }
  split; [intros ch Hch; now apply buildChaptersIndex_links|]. split.
  - destruct outlines as [|o rest] eqn:Eo; [congruence|].
    apply (generateChapterContent_requests World finalMessage fsMkdir fsWriteFile
             buildChapterPrompt join numberToString (withChapters ctx (o :: rest)) env1 o rest).
    reflexivity.
  - intros ctx2 env2 H2.
    destruct (generateChapterContent_effects World finalMessage fsMkdir fsWriteFile
                buildChapterPrompt join numberToString _ _ _ _ H2)
      as (_ & _ & results & _ & Hlen & Heff2).
    exists results. split; [exact Hlen|]. exact Heff2.
Qed.

End StageComposition.

Lemma structure_then_content_witness :
  exists outlines indexMd,
    PipelineContext.chapters sampleAfterStructure = Some outlines /\
    outlines <> [] /\
    In (FileWritten "widgets/docs/chapters/index.md" indexMd)
       (effects (snd (sampleChapterStructure freshContext (mkEnv tt [])))) /\
    forall ch, In ch outlines ->
      Contains ("](" ++ chapterFile integerToString ch ++ ")") indexMd.
Proof.
  destruct (structure_then_content unit quietService quietMkdir quietWriteFile
              (JSString.join "/") integerToString (fun title _ _ _ => title)
              (fun ch _ _ _ => ChapterOutline.title ch)
              freshContext sampleAfterStructure (mkEnv tt [])
              (snd (sampleChapterStructure freshContext (mkEnv tt []))) 2
              eq_refl eq_refl (le_S 1 1 (le_n 1)))
    as (outlines & indexMd & H1 & H2 & H3 & H4 & _).
  exists outlines, indexMd. repeat split; assumption.
Defined.

(** ** The counts of the command line *)

Lemma parseInt10_natToString (n : nat) : parseInt10 (natToString n) = ofNat n.
Proof.
  destruct (natToString_value n) as (H1 & H2 & H3).
  unfold parseInt10. rewrite (trimStart_digits _ H1), (readSign_digits _ H2 H1).
  destruct (readDigits_all (natToString n) 0%N 0%nat H1) as [v Hv].
  assert (Hval : v = N.of_nat n).
  { rewrite <- H3. unfold decimalValue. now rewrite Hv. }
  rewrite Hv. cbn [Nat.add].
  destruct (String.length (natToString n)) as [|len] eqn:El.
  - destruct (natToString n); [congruence | discriminate El].
  - subst v. unfold ofNat, ofZ. destruct n as [|n]; [reflexivity|].
    cbn [N.of_nat Z.of_nat binary_normalize]. reflexivity.
Qed.

Lemma toLength_ofNat (n : nat) :
  (Z.of_nat n < 2 ^ 53)%Z -> toLength (ofNat n) = N.of_nat n.
Proof.
  intros Hn. destruct n as [|n]; [reflexivity|].
  unfold ofNat. destruct (ofZ_exact (Z.of_nat (S n))) as (m & e & -> & _ & He & Hm & _); [lia|].
  unfold toLength. rewrite Z.shiftl_div_pow2 by lia.
  rewrite Hm, Z.div_mul by (apply Z.pow_nonzero; lia).
  rewrite N.min_l; lia.
Qed.

Lemma arrayFromLength_ofNat (n : nat) :
  (N.of_nat n < 2 ^ 32)%N -> arrayFromLength (ofNat n) = Some n.
Proof.
  intros Hn. unfold arrayFromLength. rewrite toLength_ofNat by lia.
  apply N.ltb_lt in Hn. rewrite Hn. now rewrite Nat2N.id.
Qed.

Lemma parseInt10_no_digit (s : string) :
  match trimStart s with
  | String c _ => isDigit c = false /\ Ascii.eqb c "+" = false /\ Ascii.eqb c "-" = false
  | EmptyString => True
  end ->
  parseInt10 s = NaN.
Proof.
  unfold parseInt10. destruct (trimStart s) as [|c rest]; [reflexivity|].
  intros (Hd & Hp & Hm).
  assert (Hs : readSign (String c rest) = (false, String c rest)).
  { destruct c as [[] [] [] [] [] [] [] []]; try reflexivity; discriminate. }
  rewrite Hs. cbn [readDigits]. unfold decDigit. now rewrite Hd.
Qed.

Section CountProperties.

Variable resolve : string -> string -> string.

(** X19.  From the option to the number of chapters.  When the text of the
    option [--chapters] is the decimal notation of a natural number n below
    2^32, the configuration carries the Number n and the stages count n
    chapters.  When the text, after leading white space, is empty or starts
    with a character that is neither a digit nor a sign, the configuration
    carries NaN and the stages count no chapter at all. *)
Theorem option_chapter_count :
  forall (topic : string) (opts : CliOptions.t) (proc : Process),
    let chapters := TextbookConfig.chapters (configOf resolve topic opts proc) in
    (forall n : nat,
       CliOptions.chapters opts = natToString n -> (N.of_nat n < 2 ^ 32)%N ->
       chapters = ofNat n /\ arrayFromLength chapters = Some n) /\
    (match trimStart (CliOptions.chapters opts) with
     | String c _ => isDigit c = false /\ Ascii.eqb c "+" = false /\ Ascii.eqb c "-" = false
     | EmptyString => True
     end ->
     chapters = NaN /\ arrayFromLength chapters = Some 0%nat).
Proof.
  intros topic opts proc chapters. unfold chapters, configOf.
  cbn [TextbookConfig.chapters]. split.
  - intros n Hn Hlt. rewrite Hn, parseInt10_natToString.
    split; [reflexivity | now apply arrayFromLength_ofNat].
  - intros H. rewrite (parseInt10_no_digit _ H). now split.
Qed.

End CountProperties.

Lemma option_chapter_count_witness :
  arrayFromLength
    (TextbookConfig.chapters
       (configOf (fun a b => (a ++ "/" ++ b)%string) "Widgets" sampleOptions
                 (mkProcess "/home" None)))
  = Some 12%nat /\
  arrayFromLength
    (TextbookConfig.chapters
       (configOf (fun a b => (a ++ "/" ++ b)%string) "Widgets"
                 (CliOptions.mk " many" "5" "200" "" "claude-sonnet-4-5" "none" None)
                 (mkProcess "/home" None)))
  = Some 0%nat.
Proof.
  split.
  - apply (proj1 (option_chapter_count (fun a b => (a ++ "/" ++ b)%string) "Widgets"
                    sampleOptions (mkProcess "/home" None)) 12%nat); reflexivity.
  - apply (proj2 (option_chapter_count (fun a b => (a ++ "/" ++ b)%string) "Widgets"
                    (CliOptions.mk " many" "5" "200" "" "claude-sonnet-4-5" "none" None)
                    (mkProcess "/home" None))).
    repeat split.
Defined.

(** ** The HTML of a MicroSim *)

Section ExtractHtmlProperties.
Import RegExp JSRegExp.

Lemma Contains_refl (s : string) : Contains s s.
Proof. exists "", "". simpl. now rewrite string_app_nil_r. Qed.

Lemma Matches_captures (r : regex) (w : string) (cs : captures) :
  Matches r w cs -> forall i v, In (i, v) cs -> Contains v w.
Proof.
  induction 1; intros j v Hin; simpl in Hin; try contradiction.
  - apply in_app_or in Hin. destruct Hin as [Hin|Hin].
    + apply Contains_app_r. eapply IHMatches2; eassumption.
    + apply Contains_app_l. eapply IHMatches1; eassumption.
  - apply in_app_or in Hin. destruct Hin as [Hin|Hin].
    + apply Contains_app_r. eapply IHMatches2; eassumption.
    + apply Contains_app_l. eapply IHMatches1; eassumption.
  - destruct Hin as [E|Hin].
    + inversion E; subst. apply Contains_refl.
    + eapply IHMatches; eassumption.
Qed.

Lemma getCapture_In (i : nat) (m : captures) (v : string) :
  getCapture i m = Some v -> In (i, v) m.
Proof.
  induction m as [|[j u] m IH]; simpl; [discriminate|].
  destruct (Nat.eqb i j) eqn:E.
  - intros H. inversion H; subst. apply Nat.eqb_eq in E. subst. now left.
  - intros H. right. now apply IH.
Qed.

(** Whatever the matcher hands to its continuation is a suffix of the text it
    started from, and every capture it adds is a part of that text. *)
Lemma matchAt_sound (input : string) (p : pattern) :
  forall (R : Type) (s : string) (c : captures) (k : string -> captures -> option R) (res : R),
    matchAt input p s c k = Some res ->
    exists s' c',
      k s' c' = Some res /\
      (exists w, s = (w ++ s')%string) /\
      (forall i v, In (i, v) c' -> In (i, v) c \/ Contains v s).
Proof.
  induction p as [r | p1 IH1 p2 IH2 | p1 IH1 p2 IH2 | p1 IH1 | i p1 IH1 | p1 IH1 | m | m];
    intros R s c k res H; cbn [matchAt] in H.
  - apply matchHere_sound in H. destruct H as (w & s' & cs & -> & M & H).
    exists s', (cs ++ c). split; [exact H|]. split; [now exists w|].
    intros j v Hin. apply in_app_or in Hin. destruct Hin as [Hin|Hin]; [|now left].
    right. apply Contains_app_l. eapply Matches_captures; eassumption.
  - apply IH1 in H. destruct H as (s1 & c1 & H & [w1 ->] & Hc1).
    apply IH2 in H. destruct H as (s2 & c2 & H & [w2 ->] & Hc2).
    exists s2, c2. split; [exact H|]. split.
    + exists (w1 ++ w2)%string. now rewrite string_app_assoc.
    + intros j v Hin. apply Hc2 in Hin. destruct Hin as [Hin|Hin].
      * now apply Hc1.
      * right. now apply Contains_app_r.
  - destruct (matchAt input p1 s c k) as [res1|] eqn:E.
    + inversion H; subst res1. now apply IH1.
    + now apply IH2.
  - revert H. generalize (String.length s) at 1. intros fuel. revert s c.
    induction fuel as [|fuel IHf]; intros s c H.
    + exists s, c. split; [exact H|]. split; [now exists ""|]. intros j v Hin. now left.
    + destruct (k s c) as [res1|] eqn:Ek.
      * inversion H; subst res1. exists s, c. split; [exact Ek|].
        split; [now exists ""|]. intros j v Hin. now left.
      * apply IH1 in H. destruct H as (s1 & c1 & H & [w1 ->] & Hc1).
        destruct (String.length s1 <? String.length (w1 ++ s1))%nat; [|discriminate].
        apply IHf in H. destruct H as (s2 & c2 & H & [w2 ->] & Hc2).
        exists s2, c2. split; [exact H|]. split.
        -- exists (w1 ++ w2)%string. now rewrite string_app_assoc.
        -- intros j v Hin. apply Hc2 in Hin. destruct Hin as [Hin|Hin].
           ++ now apply Hc1.
           ++ right. now apply Contains_app_r.
  - apply IH1 in H. destruct H as (s1 & c1 & H & [w1 ->] & Hc1).
    rewrite substring_prefix in H.
    exists s1, ((i, w1) :: c1). split; [exact H|]. split; [now exists w1|].
    intros j v [E|Hin].
    + inversion E; subst. right. apply Contains_app_l, Contains_refl.
    + now apply Hc1.
  - destruct (matchAt input p1 s c (fun _ c1 => Some c1)) as [c1|] eqn:E; [|discriminate].
    apply IH1 in E. destruct E as (s1 & c1' & E & _ & Hc1). inversion E; subst c1'.
    exists s, c1. split; [exact H|]. split; [now exists ""|]. exact Hc1.
  - destruct (atLineStart m input s); [|discriminate].
    exists s, c. split; [exact H|]. split; [now exists ""|]. intros j v Hin. now left.
  - destruct (atLineEnd m s); [|discriminate].
    exists s, c. split; [exact H|]. split; [now exists ""|]. intros j v Hin. now left.
Qed.

Lemma execFrom_captures (p : pattern) (input s : string) (m : captures) :
  execFrom p input s = Some m -> forall i v, In (i, v) m -> Contains v s.
Proof.
  induction s as [|a s IH]; cbn [execFrom]; intros H i v Hin.
  - destruct (matchAt input p "" [] (fun _ c => Some c)) as [c|] eqn:E; [|discriminate].
    inversion H; subst c. apply matchAt_sound in E.
    destruct E as (s' & c' & E & _ & Hc). inversion E; subst c'.
    destruct (Hc i v Hin) as [[]|Hv]. exact Hv.
  - destruct (matchAt input p (String a s) [] (fun _ c => Some c)) as [c|] eqn:E.
    + inversion H; subst c. apply matchAt_sound in E.
      destruct E as (s' & c' & E & _ & Hc). inversion E; subst c'.
      destruct (Hc i v Hin) as [[]|Hv]. exact Hv.
    + destruct (IH H i v Hin) as (x & y & ->). now exists (String a x), y.
Qed.

Lemma Contains_trim (s : string) : Contains (trim s) s.
Proof. destruct (trim_decompose s) as (pre & post & H). now exists pre, post. Qed.

Lemma Contains_substring (n m : nat) (s : string) : Contains (substring n m s) s.
Proof.
  revert n m. induction s as [|a s IH]; intros n m.
  - destruct n, m; apply Contains_refl.
  - destruct n as [|n].
    + destruct m as [|m].
      * exists "", (String a s). reflexivity.
      * cbn [substring]. destruct (IH 0%nat m) as (x & y & E).
        (* the part starts at the head, so nothing precedes it *)
        assert (P : forall t k, exists y, t = (substring 0 k t ++ y)%string).
        { clear. induction t as [|b t IHt]; intros k.
          - destruct k; now exists "".
          - destruct k as [|k]; [now exists (String b t)|].
            destruct (IHt k) as [y Hy]. exists y. cbn [substring]. simpl. now rewrite <- Hy. }
        destruct (P s m) as [z Hz]. exists "", z. simpl. now rewrite <- Hz.
    + cbn [substring]. destruct (IH n m) as (x & y & E).
      exists (String a x), y. simpl. now rewrite <- E.
Qed.

(** Where [indexOf] and [lastIndexOf] find the needle, it is there. *)
Lemma prefix_app (needle s : string) :
  String.prefix needle s = true -> exists rest, s = (needle ++ rest)%string.
Proof.
  revert s. induction needle as [|a needle IH]; intros s H.
  - now exists s.
  - destruct s as [|b s]; [discriminate|]. simpl in H.
    destruct (ascii_dec a b) as [->|]; [|discriminate].
    destruct (IH s H) as [rest ->]. now exists rest.
Qed.

Lemma indexOf_found (needle s : string) (i : nat) :
  indexOf needle s = Some i ->
  exists before rest, s = (before ++ needle ++ rest)%string /\ String.length before = i.
Proof.
  revert i. induction s as [|a s IH]; intros i H; cbn [indexOf] in H.
  - destruct (String.prefix needle "") eqn:P; [|discriminate]. inversion H; subst.
    destruct (prefix_app _ _ P) as [rest E]. now exists "", rest.
  - destruct (String.prefix needle (String a s)) eqn:P.
    + inversion H; subst. destruct (prefix_app _ _ P) as [rest E]. now exists "", rest.
    + destruct (indexOf needle s) as [j|]; [|discriminate]. inversion H; subst.
      destruct (IH j eq_refl) as (before & rest & -> & L).
      exists (String a before), rest. simpl. now rewrite L.
Qed.

Lemma lastIndexOf_found (needle s : string) (i : nat) :
  lastIndexOf needle s = Some i ->
  exists before rest, s = (before ++ needle ++ rest)%string /\ String.length before = i.
Proof.
  revert i. induction s as [|a s IH]; intros i H; cbn [lastIndexOf] in H.
  - destruct (String.prefix needle "") eqn:P; [|discriminate]. inversion H; subst.
    destruct (prefix_app _ _ P) as [rest E]. now exists "", rest.
  - destruct (lastIndexOf needle s) as [j|].
    + inversion H; subst. destruct (IH j eq_refl) as (before & rest & -> & L).
      exists (String a before), rest. simpl. now rewrite L.
    + destruct (String.prefix needle (String a s)) eqn:P; [|discriminate].
      inversion H; subst. destruct (prefix_app _ _ P) as [rest E]. now exists "", rest.
Qed.

Lemma substring_none (n : nat) (s : string) : substring n 0 s = "".
Proof.
  revert n. induction s as [|a s IH]; intros [|n]; try reflexivity. cbn [substring]. apply IH.
Qed.

Lemma substring_skip (before s : string) (m : nat) :
  substring (String.length before) m (before ++ s) = substring 0 m s.
Proof. induction before as [|a before IH]; [reflexivity | exact IH]. Qed.

Lemma substring_last (x : string) (c : ascii) (y : string) :
  forall d : nat,
    (d <= String.length x)%nat ->
    substring d (String.length x + 1 - d) (x ++ String c y) =
    (substring d (String.length x - d) x ++ String c "")%string.
Proof.
  induction x as [|a x IH]; intros d Hd.
  - simpl in Hd. assert (d = 0)%nat by lia. subst d. cbn. now rewrite substring_none.
  - destruct d as [|d].
    + specialize (IH 0%nat (Nat.le_0_l _)). rewrite !Nat.sub_0_r in IH.
      cbn [String.length]. rewrite !Nat.sub_0_r.
      replace (S (String.length x) + 1)%nat with (S (String.length x + 1)) by lia.
      cbn [append substring]. now rewrite IH.
    + cbn [String.length] in *.
      replace (S (String.length x) + 1 - S d)%nat with (String.length x + 1 - d)%nat by lia.
      replace (S (String.length x) - S d)%nat with (String.length x - d)%nat by lia.
      cbn [append substring]. apply IH. lia.
Qed.

Lemma trimEnd_last (v : string) (e : ascii) :
  isWhiteSpace e = false -> trimEnd (v ++ String e "") = (v ++ String e "")%string.
Proof.
  intros W. induction v as [|a v IH].
  - cbn. now rewrite W.
  - cbn [append]. rewrite trimEnd_cons, IH. destruct v; reflexivity.
Qed.

(** The text from the first [<!DOCTYPE] to the end of the last [</html>] has no
    white space at its ends; it is empty when the closing tag ends before the
    declaration starts. *)
Lemma slice_document_trimmed (raw : string) (doctypeIdx htmlCloseIdx : nat) :
  indexOf "<!DOCTYPE" raw = Some doctypeIdx ->
  lastIndexOf "</html>" raw = Some htmlCloseIdx ->
  trim (slice doctypeIdx (htmlCloseIdx + String.length "</html>") raw) =
  slice doctypeIdx (htmlCloseIdx + String.length "</html>") raw.
Proof.
  intros Hd Hh. unfold slice.
  destruct (indexOf_found _ _ _ Hd) as (b1 & r1 & E1 & L1).
  destruct (lastIndexOf_found _ _ _ Hh) as (b2 & r2 & E2 & L2).
  change (String.length "</html>") with 7%nat.
  destruct (htmlCloseIdx + 7 - doctypeIdx)%nat as [|n] eqn:En.
  - now rewrite substring_none.
  - assert (Hhead : exists u, substring doctypeIdx (S n) raw = String "<" u).
    { rewrite E1, <- L1, substring_skip. cbn. eauto. }
    assert (Hlast : exists v, substring doctypeIdx (S n) raw = (v ++ String ">" "")%string).
    { rewrite <- En.
      replace raw with ((b2 ++ "</html") ++ String ">" r2)%string
        by (rewrite E2, string_app_assoc; reflexivity).
      assert (L : String.length (b2 ++ "</html") = (htmlCloseIdx + 6)%nat)
        by (rewrite string_app_length, L2; reflexivity).
      replace (htmlCloseIdx + 7 - doctypeIdx)%nat
        with (String.length (b2 ++ "</html") + 1 - doctypeIdx)%nat by lia.
      rewrite substring_last by lia. eauto. }
    destruct Hhead as [u Hu]. destruct Hlast as [v Hv].
    unfold trim. rewrite Hu, trimStart_fixed by reflexivity.
    rewrite <- Hu, Hv. now apply trimEnd_last.
Qed.

(** X20.  What [extractHtml] returns is a part of the answer that it was given,
    and it has no white space at either end: the stage writes text of the
    model only, trimmed, whichever of the four ways the function takes. *)
Theorem extractHtml_trimmed_part (raw : string) :
  Contains (extractHtml raw) raw /\ trim (extractHtml raw) = extractHtml raw.
Proof.
  unfold extractHtml.
  destruct (JSRegExp.exec HtmlPatterns.fence raw) as [fenceMatch|] eqn:Ef.
  - split; [|apply trim_idempotent].
    unfold group, nullish. destruct (getCapture 1 fenceMatch) as [v|] eqn:Ev.
    + eapply Contains_trans; [apply Contains_trim|].
      eapply execFrom_captures; [exact Ef | apply getCapture_In, Ev].
    + exists "", raw. reflexivity.
  - destruct (String.prefix "<!DOCTYPE" (trimStart raw) || String.prefix "<html" (trimStart raw)).
    + split; [apply Contains_trim | apply trim_idempotent].
    + destruct (indexOf "<!DOCTYPE" raw) as [doctypeIdx|] eqn:Ed;
        [|split; [apply Contains_trim | apply trim_idempotent]].
      destruct (lastIndexOf "</html>" raw) as [htmlCloseIdx|] eqn:Eh;
        [|split; [apply Contains_trim | apply trim_idempotent]].
      split; [apply Contains_substring | now apply slice_document_trimmed].
Qed.

End ExtractHtmlProperties.

(** ** The files of the Quizzes stage *)

Section QuizProperties.

Variable World : Type.
Variable finalMessage : MessageRequest -> World -> promise (list ContentBlock) * World.
Variable fsMkdir : string -> World -> settled unit * World.
Variable fsWriteFile : string -> string -> World -> promise unit * World.
Variable join : list string -> string.
Variable numberToString : number -> string.
Variable SYSTEM : string.
Variable buildQuizPrompt : number -> string -> string -> list string -> string.

Local Abbreviation generateQuizzes' :=
  (Quizzes.generateQuizzes World finalMessage fsMkdir fsWriteFile join numberToString SYSTEM
                           buildQuizPrompt).
Local Abbreviation quizPrompts' := (Quizzes.quizPrompts SYSTEM buildQuizPrompt).
Local Abbreviation writeQuiz' := (Quizzes.writeQuiz World fsWriteFile join numberToString).
Local Abbreviation QuizReason :=
  (EnvironmentReason World finalMessage fsMkdir fsWriteFile).

(** With as many results as chapters, no round of the mapping throws: every
    result is written, trimmed, to the file of the chapter at its index. *)
Lemma startEach_quizzes (quizzesDir : string) (chapterList : list Quizzes.ChapterRef) :
  forall (rs : list string) (start : nat) (refs : list Quizzes.ChapterRef) (env : Env World),
    skipn start chapterList = refs -> List.length rs = List.length refs ->
    exists writes env',
      Quizzes.startEach World
        (fun '(content, index) => writeQuiz' quizzesDir chapterList content index)
        (combine rs (seq start (List.length rs))) env
      = (Fulfilled writes, env') /\
      effects env'
      = effects env
          ++ map (fun '(ch, text) =>
                    FileWritten (join [quizzesDir; quizFile numberToString ch]) (trim text))
                 (combine refs rs) /\
      forall q e, In q writes -> outcome q = Rejected e -> QuizReason e.
Proof.
  induction rs as [|r rs IH]; intros start refs env Hs Hl.
  - exists [], env. split; [reflexivity|]. split.
    + destruct refs; simpl; now rewrite app_nil_r.
    + intros q e [].
  - destruct refs as [|ch refs]; [discriminate|].
    destruct (skipn_head start chapterList ch refs Hs) as [Hn Hs'].
    cbn [List.length seq combine Quizzes.startEach]. unfold Quizzes.writeQuiz at 1.
    rewrite Hn. unfold writeFile at 1.
    destruct (fsWriteFile (join [quizzesDir;
                                 ("quiz-" ++ padStart2 (numberToString (Quizzes.number ch))
                                    ++ ".md")%string])
                          (trim r) (world env)) as [pw ww] eqn:Efw.
    match goal with
    | |- context [Quizzes.startEach World _ _ ?e1] =>
        destruct (IH (S start) refs e1 Hs' ltac:(simpl in Hl; lia))
          as (writes & env' & Hrun & Heff & Hreason)
    end.
    rewrite Hrun. exists (pw :: writes), env'. split; [reflexivity|]. split.
    + rewrite Heff. cbn [effects combine map]. now rewrite <- app_assoc.
    + intros q e [<-|Hin] Hq; [|now apply (Hreason q e)].
      right. right. do 3 eexists. rewrite Efw. exact Hq.
Qed.

(** The course of the stage once its list of chapters is built. *)
Lemma generateQuizzes_run (ctx : PipelineContext.t) (env : Env World)
      (refs : list Quizzes.ChapterRef) :
  Quizzes.chapterList ctx = Some refs ->
  let run := generateQuizzes' ctx env in
  let quizzesDir := join [PipelineContext.outputDir ctx; "docs"; "quizzes"] in
  exists later,
    effects (snd run)
    = effects env
        ++ map (fun p => RequestIssued (requestOf (Quizzes.quizOptions ctx) p))
               (quizPrompts' ctx refs)
        ++ later /\
    ((exists results,
        outcome (fst (generateParallel World finalMessage (quizPrompts' ctx refs)
                        (Quizzes.quizOptions ctx) env))
        = Fulfilled results /\
        fst run = Fulfilled ctx /\ List.length results = List.length refs /\
        later
        = DirectoryMade quizzesDir
            :: map (fun '(ch, text) =>
                      FileWritten (join [quizzesDir; quizFile numberToString ch]) (trim text))
                   (combine refs results)) \/
     (exists e, fst run = Rejected e /\ QuizReason e)).
Proof.
  intros Hrefs run quizzesDir. subst run. unfold Quizzes.generateQuizzes. rewrite Hrefs.
  fold quizzesDir. unfold generateParallel.
  pose proof (startAll_generate World finalMessage (Quizzes.quizOptions ctx)
                (quizPrompts' ctx refs) env) as [_ [Heff _]].
  pose proof (startAll_length World (generateOne World finalMessage (Quizzes.quizOptions ctx))
                (quizPrompts' ctx refs) env) as Hlen.
  pose proof (startAll_reasons World (generateOne World finalMessage (Quizzes.quizOptions ctx))
                QuizReason (quizPrompts' ctx refs) env) as Hreq.
  destruct (startAll World (generateOne World finalMessage (Quizzes.quizOptions ctx))
                     (quizPrompts' ctx refs) env) as [pending env1].
  cbn [fst snd] in Heff, Hlen, Hreq |- *.
  assert (Hreq' : forall q e, In q pending -> outcome q = Rejected e -> QuizReason e).
  { apply Hreq. intros p env0 e. rewrite generateOne_eq. simpl.
    destruct (outcome (fst (finalMessage _ (world env0)))) eqn:E; [discriminate|].
    intros He. inversion He; subst. left. eauto. }
  destruct (outcome (Promise.all pending)) as [results|e] eqn:Eall.
  - pose proof (all_fulfilled_length pending results Eall) as Hres.
    rewrite Hlen in Hres. unfold Quizzes.quizPrompts in Hres. rewrite length_map in Hres.
    unfold mkdir. destruct (fsMkdir quizzesDir (world env1)) as [[u|e] w2] eqn:Emk.
    + unfold indexed.
      destruct (startEach_quizzes quizzesDir refs results 0 refs
                  (mkEnv w2 (effects env1 ++ [DirectoryMade quizzesDir])) eq_refl Hres)
        as (writes & env3 & Hrun & Hw & Hreason).
      rewrite Hrun. cbn [effects] in Hw.
      destruct (outcome (Promise.all writes)) as [done|e] eqn:Ewr; cbn [fst snd].
      * eexists. split; [rewrite Hw, Heff, <- !app_assoc; reflexivity|].
        left. exists results. repeat split. exact Hres.
      * eexists. split; [rewrite Hw, Heff, <- !app_assoc; reflexivity|].
        right. exists e. split; [reflexivity|].
        now apply (all_reason writes QuizReason e).
    + cbn [fst snd effects]. eexists. split; [rewrite Heff, <- !app_assoc; reflexivity|].
      right. exists e. split; [reflexivity|]. right. left.
      exists quizzesDir, (world env1). now rewrite Emk.
  - cbn [fst snd]. exists []. split; [now rewrite Heff, app_nil_r|].
    right. exists e. split; [reflexivity|]. now apply (all_reason pending QuizReason e).
Qed.

(** X21.  When the Quizzes stage is fulfilled it leaves the context as it
    was, and its effects are, in this order: one request for each element of
    its list of chapters, the creation of the directory of the quizzes, and
    one file for each element, named after the chapter number padded to two
    digits and holding the answer to the request of that element without
    the white space around it: the contents are the texts with which the
    batch of requests is fulfilled, as many as elements, in their order. *)
Theorem generateQuizzes_files :
  forall (ctx ctx' : PipelineContext.t) (env env' : Env World),
    generateQuizzes' ctx env = (Fulfilled ctx', env') ->
    let quizzesDir := join [PipelineContext.outputDir ctx; "docs"; "quizzes"] in
    exists chapterList results,
      Quizzes.chapterList ctx = Some chapterList /\
      ctx' = ctx /\
      outcome (fst (generateParallel World finalMessage (quizPrompts' ctx chapterList)
                      (Quizzes.quizOptions ctx) env))
      = Fulfilled results /\
      List.length results = List.length chapterList /\
      effects env'
      = effects env
          ++ map (fun p => RequestIssued (requestOf (Quizzes.quizOptions ctx) p))
                 (quizPrompts' ctx chapterList)
          ++ [DirectoryMade quizzesDir]
          ++ map (fun '(ch, text) =>
                    FileWritten (join [quizzesDir; quizFile numberToString ch]) (trim text))
                 (combine chapterList results).
Proof.
  intros ctx ctx' env env' H quizzesDir.
  destruct (Quizzes.chapterList ctx) as [refs|] eqn:Hrefs.
  - destruct (generateQuizzes_run ctx env refs Hrefs) as (later & Heff & Hcase).
    rewrite H in Heff, Hcase. cbn [fst snd] in Heff, Hcase.
    destruct Hcase as [(results & Hout & Hf & Hl & ->)|(e & Hr & _)]; [|discriminate].
    exists refs, results. split; [reflexivity|]. split; [now inversion Hf|].
    split; [exact Hout|]. split; [exact Hl|]. exact Heff.
  - unfold Quizzes.generateQuizzes in H. rewrite Hrefs in H. discriminate.
Qed.

(** X22.  The Quizzes stage has no guard of its own.  On a context without
    outlines it asks for one quiz for each configured chapter, numbered from
    1 and titled with the topic of the course description at that position
    or else "Chapter k".  It is rejected only with a reason that comes from
    the service or from the file system, or, when there are no outlines and
    the chapter count is 2^32 or more, with the RangeError of the array
    construction, before anything is done. *)
Theorem generateQuizzes_without_outlines :
  forall (ctx : PipelineContext.t) (env : Env World),
    let chapters := TextbookConfig.chapters (PipelineContext.config ctx) in
    (forall count,
       PipelineContext.chapters ctx ?? [] = [] -> arrayFromLength chapters = Some count ->
       let chapterList :=
         map (fun k => Quizzes.mkRef (ofNat k)
                         (nth_error (topicsOf ctx) (k - 1) ?? ("Chapter " ++ natToString k)%string))
             (seq 1 count) in
       exists later,
         effects (snd (generateQuizzes' ctx env))
         = effects env
             ++ map (fun p => RequestIssued (requestOf (Quizzes.quizOptions ctx) p))
                    (quizPrompts' ctx chapterList)
             ++ later) /\
    (forall e,
       fst (generateQuizzes' ctx env) = Rejected e ->
       QuizReason e \/
       (e = ErrorObject "Invalid array length" /\
        PipelineContext.chapters ctx ?? [] = [] /\ arrayFromLength chapters = None /\
        snd (generateQuizzes' ctx env) = env)).
Proof.
  intros ctx env chapters. split.
  - intros count Hnone Hcount chapterList.
    assert (Hrefs : Quizzes.chapterList ctx = Some chapterList).
    { unfold Quizzes.chapterList. rewrite Hnone. cbn [List.length Nat.ltb Nat.leb].
      fold chapters. rewrite Hcount. f_equal. subst chapterList.
      rewrite <- seq_shift, map_map. apply map_ext. intros i.
      replace (S i - 1)%nat with i by lia. replace (i + 1)%nat with (S i) by lia.
      unfold topicsOf.
      destruct (PipelineContext.courseDescription ctx); [reflexivity | now destruct i]. }
    destruct (generateQuizzes_run ctx env chapterList Hrefs) as (later & Heff & _).
    now exists later.
  - intros e He.
    destruct (Quizzes.chapterList ctx) as [refs|] eqn:Hrefs.
    + destruct (generateQuizzes_run ctx env refs Hrefs) as (later & _ & Hcase).
      rewrite He in Hcase.
      destruct Hcase as [(results & _ & Hf & _)|(e' & Hr & Hreason)]; [discriminate|].
      left. now inversion Hr; subst.
    + right. unfold Quizzes.generateQuizzes in He |- *. rewrite Hrefs in He |- *.
      cbn [fst snd] in He |- *. inversion He; subst. split; [reflexivity|].
      unfold Quizzes.chapterList in Hrefs. fold chapters in Hrefs.
      destruct (PipelineContext.chapters ctx ?? []) as [|ch rest]; [|discriminate].
      cbn [List.length Nat.ltb Nat.leb] in Hrefs.
      destruct (arrayFromLength chapters); [discriminate|]. now repeat split.
Qed.

End QuizProperties.

Lemma generateQuizzes_files_witness :
  effects (snd (sampleQuizzes twoChapters (mkEnv tt [])))
  = [RequestIssued (mkRequest "claude-sonnet-4-5" (ofZ 4096) "system"
                      (" One" ++ String "010" ""));
     RequestIssued (mkRequest "claude-sonnet-4-5" (ofZ 4096) "system"
                      (" Uno" ++ String "010" ""));
     DirectoryMade "widgets/docs/quizzes";
     FileWritten "widgets/docs/quizzes/quiz-01.md" "One";
     FileWritten "widgets/docs/quizzes/quiz-01.md" "Uno"].
Proof.
  destruct (generateQuizzes_files unit quietService quietMkdir quietWriteFile
              (JSString.join "/") integerToString "system"
              (fun _ title _ _ => (" " ++ title ++ String "010" "")%string)
              twoChapters twoChapters (mkEnv tt [])
              (snd (sampleQuizzes twoChapters (mkEnv tt []))) eq_refl)
    as (chapterList & results & Hlist & _ & Hout & _ & Heff).
  assert (E : [Quizzes.mkRef (ofZ 1) "One"; Quizzes.mkRef (ofZ 1) "Uno"] = chapterList)
    by exact (f_equal (fun o => o ?? []) Hlist).
  subst chapterList.
  assert (E : [(" One" ++ String "010" "")%string; (" Uno" ++ String "010" "")%string] = results)
    by exact (f_equal (fun o => match o with Fulfilled rs => rs | Rejected _ => [] end) Hout).
  subst results. exact Heff.
Defined.

Lemma generateQuizzes_without_outlines_witness :
  exists later,
    effects (snd (sampleQuizzes freshContext (mkEnv tt [])))
    = [RequestIssued (mkRequest "claude-sonnet-4-5" (ofZ 4096) "system"
                        (" Chapter 1" ++ String "010" ""));
       RequestIssued (mkRequest "claude-sonnet-4-5" (ofZ 4096) "system"
                        (" Chapter 2" ++ String "010" ""))]
      ++ later.
Proof.
  destruct (generateQuizzes_without_outlines unit quietService quietMkdir quietWriteFile
              (JSString.join "/") integerToString "system"
              (fun _ title _ _ => (" " ++ title ++ String "010" "")%string)
              freshContext (mkEnv tt [])) as [Hfall _].
  destruct (Hfall 2%nat eq_refl eq_refl) as [later Hlater].
  exists later. exact Hlater.
Defined.

(** ** The header of the glossary *)

Section GlossaryProperties.
Import RegExp JSRegExp GlossaryPatterns.

Variable numberToString : number -> string.

(** A greedy iteration over a class of characters hands the text after the
    longest run to its continuation first. *)
Lemma star_class_then {R : Type} (p : ascii -> bool) (s : string) (c : captures)
      (k : string -> captures -> option R) (res : R) :
  k (skipClass p s) c = Some res -> matchHere (Star (Char p)) s c k = Some res.
Proof.
  cbn [matchHere]. remember (String.length s) as fuel eqn:Hf.
  assert (Hle : (String.length s <= fuel)%nat) by lia. clear Hf.
  revert s c Hle. induction fuel as [|fuel IH]; intros s c Hle Hk.
  - destruct s; [exact Hk | simpl in Hle; lia].
  - destruct s as [|a r]; [exact Hk|]. cbn [skipClass] in Hk.
    destruct (p a) eqn:Ep; [|exact Hk].
    replace (String.length r <? String.length (String a r))%nat with true
      by (symmetry; apply Nat.ltb_lt; simpl; lia).
    rewrite (IH r c) by (simpl in Hle; lia || exact Hk). reflexivity.
Qed.

Lemma matchHere_seq {R : Type} (r1 r2 : regex) (s : string) (c : captures)
      (k : string -> captures -> option R) :
  matchHere (Seq r1 r2) s c k = matchHere r1 s c (fun s1 c1 => matchHere r2 s1 c1 k).
Proof. reflexivity. Qed.

Lemma matchHere_char {R : Type} (p : ascii -> bool) (a : ascii) (s : string) (c : captures)
      (k : string -> captures -> option R) :
  matchHere (Char p) (String a s) c k = if p a then k s c else None.
Proof. reflexivity. Qed.

Lemma skipClass_run (p : ascii -> bool) (run : string) (c : ascii) (rest : string) :
  allChars p run = true -> p c = false ->
  skipClass p (run ++ String c rest) = String c rest.
Proof.
  intros Hrun Hc. induction run as [|a run IH]; simpl.
  - now rewrite Hc.
  - simpl in Hrun. apply andb_true_iff in Hrun. destruct Hrun as [Ha Hrun].
    rewrite Ha. now apply IH.
Qed.

Lemma upper_not_space (c : ascii) : isUpperAZ c = true -> isWhiteSpace c = false.
Proof.
  unfold isUpperAZ, isWhiteSpace. intros H. apply andb_true_iff in H. destruct H as [H1 H2].
  apply N.leb_le in H1. apply N.leb_le in H2.
  repeat (apply orb_false_iff; split); try apply andb_false_iff;
    try (apply N.eqb_neq; lia).
  right. apply N.leb_gt. lia.
Qed.

Lemma Matches_lit (t w : string) (c : captures) : Matches (lit t) w c -> w = t /\ c = [].
Proof.
  revert w c. induction t as [|a t IH]; intros w c H; cbn [lit] in H.
  - inversion H; subst. now split.
  - apply Matches_seq_inv in H. destruct H as (w1 & w2 & c1 & c2 & -> & -> & M1 & M2).
    apply IH in M2. destruct M2 as [-> ->]. inversion M1; subst.
    match goal with Hp : Ascii.eqb a _ = true |- _ => apply Ascii.eqb_eq in Hp; subst end.
    now split.
Qed.

Lemma get_last (b : string) (t : ascii) (rest : string) :
  String.get (String.length b) (b ++ String t rest) = Some t.
Proof. induction b as [|a b IH]; [reflexivity | exact IH]. Qed.

Lemma string_last (s : string) : s <> "" -> exists b t, s = (b ++ String t "")%string.
Proof.
  induction s as [|a s IH]; intros H; [congruence|].
  destruct s as [|a' s'].
  - now exists "", a.
  - destruct IH as (b & t & E); [discriminate|]. exists (String a b), t. simpl. now rewrite <- E.
Qed.

(** The assertion [^] under the flag [m] holds exactly at the start of the
    text and after a line terminator. *)
Lemma atLineStart_iff (before s : string) :
  atLineStart true (before ++ s) s = true <->
  (before = "" \/ exists b t, before = (b ++ String t "")%string /\ isLineTerminator t = true).
Proof.
  unfold atLineStart. rewrite string_app_length.
  replace (String.length before + String.length s - String.length s)%nat
    with (String.length before) by lia.
  destruct before as [|a before'].
  - split; [now left | reflexivity].
  - destruct (string_last (String a before')) as (b & t & E); [discriminate|].
    rewrite E. rewrite string_app_length. cbn [String.length].
    replace (String.length b + 1 =? 0)%nat with false by (symmetry; apply Nat.eqb_neq; lia).
    replace (String.length b + 1 - 1)%nat with (String.length b) by lia.
    rewrite string_app_assoc. cbn [append orb andb]. rewrite get_last.
    split.
    + intros H. right. now exists b, t.
    + intros [H|(b' & t' & E' & H)].
      * destruct b; discriminate.
      * assert (Hl : t = t' /\ b = b').
        { clear - E'. revert b' E'. induction b as [|x b IH]; intros [|y b'] E'.
          - now inversion E'.
          - inversion E'. destruct b'; discriminate.
          - inversion E'. destruct b; discriminate.
          - inversion E'. subst. destruct (IH b' H1) as [-> ->]. now split. }
        destruct Hl as [-> _]. exact H.
Qed.

(** The search finds a match wherever there is one, and where it finds one
    there is one. *)
Lemma execFrom_found (p : pattern) (input before s : string) :
  matchAt input p s [] (fun _ c => Some c) <> None ->
  execFrom p input (before ++ s) <> None.
Proof.
  intros H. induction before as [|a before IH].
  - destruct s; cbn [append execFrom];
      destruct (matchAt input p _ [] (fun _ c => Some c)); congruence.
  - cbn [append execFrom].
    destruct (matchAt input p (String a (before ++ s)) [] (fun _ c => Some c));
      [discriminate | exact IH].
Qed.

Lemma execFrom_position (p : pattern) (input s : string) (m : captures) :
  execFrom p input s = Some m ->
  exists before s',
    s = (before ++ s')%string /\ matchAt input p s' [] (fun _ c => Some c) = Some m.
Proof.
  induction s as [|a s IH]; cbn [execFrom]; intros H.
  - destruct (matchAt input p "" [] (fun _ c => Some c)) as [c|] eqn:E; [|discriminate].
    inversion H; subst. now exists "", "".
  - destruct (matchAt input p (String a s) [] (fun _ c => Some c)) as [c|] eqn:E.
    + inversion H; subst. now exists "", (String a s).
    + destruct (IH H) as (before & s' & -> & Hm). now exists (String a before), s'.
Qed.

Lemma alphaHeader_test (raw : string) :
  test alphaHeader raw = true <-> AlphaHeading raw.
Proof.
  unfold test, exec. split.
  - destruct (execFrom alphaHeader raw raw) as [m|] eqn:E; [intros _|discriminate].
    apply execFrom_position in E. destruct E as (before & s & Hraw & Hm).
    unfold alphaHeader in Hm. cbn [matchAt] in Hm.
    destruct (atLineStart true raw s) eqn:Hstart; [|discriminate].
    apply matchHere_sound in Hm. destruct Hm as (w & s' & cs & -> & M & _).
    unfold seqs in M. cbn [fold_right] in M.
    apply Matches_seq_inv in M. destruct M as (w1 & t1 & c1 & d1 & -> & -> & M1 & M).
    apply Matches_seq_inv in M. destruct M as (w2 & t2 & c2 & d2 & -> & -> & M2 & M).
    apply Matches_seq_inv in M. destruct M as (w3 & t3 & c3 & d3 & -> & -> & M3 & M).
    apply Matches_lit in M1. destruct M1 as [-> _].
    apply Matches_plus_chars in M2. destruct M2 as (Hne & Hws & _).
    inversion M3; subst. inversion M; subst.
    exists before, w2, a, s'. repeat split; try assumption.
    + now rewrite !string_app_assoc.
    + now apply atLineStart_iff in Hstart.
  - intros (before & space & c & rest & -> & Hstart & Hne & Hws & Hc).
    destruct (execFrom alphaHeader _ _) eqn:E; [reflexivity|]. exfalso. revert E.
    apply execFrom_found. unfold alphaHeader. cbn [matchAt].
    rewrite (proj2 (atLineStart_iff before _) Hstart).
    unfold seqs. cbn [fold_right lit append matchHere Ascii.eqb]. unfold chr. cbn [matchHere].
    rewrite !Ascii.eqb_refl.
    destruct space as [|w0 space]; [congruence|].
    cbn [allChars] in Hws. apply andb_true_iff in Hws. destruct Hws as [Hw0 Hws].
    unfold Plus, ws. cbn [append].
    rewrite matchHere_seq, matchHere_char, Hw0.
    erewrite star_class_then; [discriminate|].
    rewrite skipClass_run by (assumption || now apply upper_not_space).
    cbn [matchHere]. rewrite Hc. reflexivity.
Qed.

(** X24.  The page of the glossary gets the long header, which announces the
    alphabetical organization and ends with a rule, exactly when some line
    of the answer starts with [##], white space and a capital letter from A
    to Z; otherwise it gets the short header.  In both cases the answer
    follows the header unchanged, with a line break after it. *)
Theorem buildGlossaryMd_header :
  forall (title topic raw : string) (conceptCount : number),
    let page := buildGlossaryMd numberToString title topic raw conceptCount in
    (AlphaHeading raw ->
     page = ("# Glossary: " ++ title ++ "

This glossary defines " ++ numberToString conceptCount ++ " key concepts from the domain of " ++ topic ++ ",
following ISO 11179 metadata standards for precision and non-circularity.
Definitions are organized alphabetically and cross-referenced to the chapter where each concept is introduced.

---

" ++ raw ++ String "010" "")%string) /\
    (~ AlphaHeading raw ->
     page = ("# Glossary: " ++ title ++ "

This glossary covers " ++ numberToString conceptCount ++ " concepts from the domain of " ++ topic ++ ".

" ++ raw ++ String "010" "")%string).
Proof.
  intros title topic raw conceptCount page. subst page. unfold buildGlossaryMd.
  pose proof (alphaHeader_test raw) as H.
  destruct (test alphaHeader raw).
  - split; [reflexivity|]. intros Hn. exfalso. apply Hn. now apply H.
  - split; [|reflexivity]. intros Ha. apply H in Ha. discriminate.
Qed.

End GlossaryProperties.

Lemma buildGlossaryMd_header_witness :
  buildGlossaryMd integerToString "Widgets" "widgets" "Intro
##  Alpha" (ofZ 3)
  = "# Glossary: Widgets

This glossary defines 3 key concepts from the domain of widgets,
following ISO 11179 metadata standards for precision and non-circularity.
Definitions are organized alphabetically and cross-referenced to the chapter where each concept is introduced.

---

Intro
##  Alpha
".
Proof.
  apply (buildGlossaryMd_header integerToString "Widgets" "widgets" "Intro
##  Alpha" (ofZ 3)).
  exists ("Intro" ++ String "010" "")%string, "  ", "A"%char, "lpha".
  split; [reflexivity|]. split; [right; now exists "Intro", "010"%char|].
  split; [discriminate|]. split; reflexivity.
Defined.

(** ** The word count *)

Section WordCountProperties.
Import RegExp JSRegExp MetricsPatterns.

Lemma spaces_match (input s : string) :
  matchAt input spaces s [] (fun s' _ => Some s')
  = match s with
    | String a r => if isWhiteSpace a then Some (skipClass isWhiteSpace r) else None
    | EmptyString => None
    end.
Proof.
  unfold spaces, Plus, ws. cbn [matchAt]. rewrite matchHere_seq.
  destruct s as [|a r]; [reflexivity|]. rewrite matchHere_char.
  destruct (isWhiteSpace a); [|reflexivity]. apply star_class.
Qed.

Lemma spaces_step (input : string) (fuel : nat) (s : string) :
  replaceLoop spaces " " input (S fuel) s
  = match s with
    | String a r =>
        if isWhiteSpace a
        then String " " (replaceLoop spaces " " input fuel (skipClass isWhiteSpace r))
        else String a (replaceLoop spaces " " input fuel r)
    | EmptyString => EmptyString
    end.
Proof.
  cbn [replaceLoop]. rewrite spaces_match. destruct s as [|a r]; [reflexivity|].
  destruct (isWhiteSpace a); [|reflexivity].
  replace (String.length (skipClass isWhiteSpace r) <? String.length (String a r))%nat
    with true; [reflexivity|].
  symmetry. apply Nat.ltb_lt. pose proof (skipClass_length isWhiteSpace r). simpl. lia.
Qed.

Lemma squeezeFrom_skip (s : string) :
  squeezeFrom false (skipClass isWhiteSpace s) = squeezeFrom true s.
Proof.
  induction s as [|a r IH]; [reflexivity|]. cbn [skipClass squeezeFrom].
  destruct (isWhiteSpace a) eqn:E; [exact IH|]. cbn [squeezeFrom]. now rewrite E.
Qed.

Lemma spaces_squeeze (input : string) (fuel : nat) :
  forall s, (String.length s < fuel)%nat ->
            replaceLoop spaces " " input fuel s = squeezeFrom false s.
Proof.
  induction fuel as [|fuel IH]; intros s Hlt; [lia|].
  rewrite spaces_step. destruct s as [|a r]; [reflexivity|].
  simpl in Hlt. cbn [squeezeFrom]. destruct (isWhiteSpace a).
  - pose proof (skipClass_length isWhiteSpace r). rewrite IH by lia.
    now rewrite squeezeFrom_skip.
  - now rewrite IH by lia.
Qed.

Lemma squeezeFrom_head (s : string) :
  match squeezeFrom true s with
  | String d _ => isWhiteSpace d = false
  | EmptyString => True
  end.
Proof.
  induction s as [|a r IH]; [exact I|]. cbn [squeezeFrom].
  destruct (isWhiteSpace a) eqn:E; [exact IH | exact E].
Qed.

Lemma trimStart_squeeze (s : string) :
  trimStart (squeezeFrom false s) = squeezeFrom true s.
Proof.
  assert (H : trimStart (squeezeFrom true s) = squeezeFrom true s).
  { pose proof (squeezeFrom_head s) as Hh. destruct (squeezeFrom true s) as [|d r];
      [reflexivity | now apply trimStart_fixed]. }
  destruct s as [|a r]; [reflexivity|]. cbn [squeezeFrom] in H |- *.
  destruct (isWhiteSpace a) eqn:E; [|exact H].
  cbn [trimStart]. change (isWhiteSpace " ") with true. cbn iota. exact H.
Qed.

Lemma split_spaces (s : string) :
  List.length (JSString.split " " s) = S (spacesIn s).
Proof.
  induction s as [|a r IH]; [reflexivity|]. cbn [JSString.split spacesIn].
  destruct (Ascii.eqb a " ").
  - cbn [List.length]. now rewrite IH.
  - destruct (JSString.split " " r) as [|x xs]; [discriminate|]. exact IH.
Qed.

Lemma space_is_white (a : ascii) : Ascii.eqb a " " = true -> isWhiteSpace a = true.
Proof. intros H. apply Ascii.eqb_eq in H. now subst. Qed.

(** The words of a text can be counted on its squeezed and trimmed form:
    inside a word every space that is left announces another word. *)
Lemma squeezed_words (text : string) :
  spacesIn (trimEnd (squeezeFrom false text)) = wordsFrom true text /\
  match trimEnd (squeezeFrom true text) with
  | EmptyString => wordsFrom false text = 0%nat
  | String a r => S (spacesIn (String a r)) = wordsFrom false text
  end.
Proof.
  induction text as [|a r [IHa IHb]]; [now split|].
  cbn [squeezeFrom wordsFrom]. destruct (isWhiteSpace a) eqn:E.
  - split; [|exact IHb].
    rewrite trimEnd_cons. destruct (trimEnd (squeezeFrom true r)) as [|b x].
    + change (isWhiteSpace " ") with true. cbn iota. now rewrite IHb.
    + cbn [spacesIn Ascii.eqb] in *. change (Ascii.eqb " " " ") with true. cbn iota.
      exact IHb.
  - assert (Ea : Ascii.eqb a " " = false).
    { destruct (Ascii.eqb a " ") eqn:Ea; [|reflexivity].
      apply space_is_white in Ea. congruence. }
    rewrite trimEnd_cons. destruct (trimEnd (squeezeFrom false r)) as [|b x].
    + rewrite E. cbn [spacesIn] in *. rewrite Ea. split; [exact IHa | now rewrite <- IHa].
    + cbn [spacesIn] in *. rewrite Ea. cbn [Nat.add]. split; [exact IHa | now rewrite IHa].
Qed.

Lemma countWords_squeezed (content : string) :
  countWords content = words (stripMarkdown content).
Proof.
  unfold countWords, words, replaceAll.
  rewrite spaces_squeeze by lia. unfold trim. rewrite trimStart_squeeze.
  destruct (squeezed_words (stripMarkdown content)) as [_ Hb].
  destruct (trimEnd (squeezeFrom true (stripMarkdown content))) as [|a r].
  - now rewrite Hb.
  - cbn [JSString.truthy]. now rewrite split_spaces.
Qed.

(** X25.  The word count of a file is the number of words of its content
    after the five removals, a word being a longest run of characters that
    are not white space: no empty word is counted, and white space at the
    ends or repeated between words changes nothing.  A file that cannot be
    read counts no word. *)
Theorem countWords_words :
  forall content : string,
    countWords content = words (stripMarkdown content) /\
    (forall (World : Type) (fsReadFile : string -> World -> settled string * World)
            (filePath : string) (w : World),
        fst (countWordsInFile World fsReadFile filePath w)
        = match fst (fsReadFile filePath w) with
          | Fulfilled text => words (stripMarkdown text)
          | Rejected _ => 0%nat
          end).
Proof.
  intros content. split; [apply countWords_squeezed|].
  intros World fsReadFile filePath w. unfold countWordsInFile.
  destruct (fsReadFile filePath w) as [[text|e] w']; cbn [fst];
    [apply countWords_squeezed | reflexivity].
Qed.

(** ** Text without markup *)

Lemma replaceLoop_without_match (p : pattern) (replacement input : string) (ok : ascii -> bool) :
  (forall s, match s with String a _ => ok a = true | EmptyString => True end ->
             matchAt input p s [] (fun s' _ => Some s') = None) ->
  forall fuel s, allChars ok s = true -> replaceLoop p replacement input fuel s = s.
Proof.
  intros Hp. induction fuel as [|fuel IH]; intros s Hs; [reflexivity|].
  cbn [replaceLoop]. rewrite Hp.
  - destruct s as [|a r]; [reflexivity|]. cbn [allChars] in Hs.
    apply andb_true_iff in Hs. destruct Hs as [_ Hr]. now rewrite IH.
  - destruct s as [|a r]; [exact I|]. cbn [allChars] in Hs.
    apply andb_true_iff in Hs. now destruct Hs.
Qed.

Lemma replaceLoop_without_prefix (p : pattern) (replacement input needle : string) :
  (forall s, String.prefix needle s = false ->
             matchAt input p s [] (fun s' _ => Some s') = None) ->
  forall fuel s, includes needle s = false -> replaceLoop p replacement input fuel s = s.
Proof.
  intros Hp. induction fuel as [|fuel IH]; intros s Hs; [reflexivity|].
  cbn [replaceLoop]. destruct s as [|a r].
  - rewrite Hp; [reflexivity|]. rewrite includes_nil, orb_false_r in Hs. exact Hs.
  - rewrite includes_cons in Hs. apply orb_false_iff in Hs. destruct Hs as [Hpre Hr].
    rewrite Hp by exact Hpre. now rewrite IH.
Qed.

Lemma lit_needs_prefix {R : Type} (t s : string) (c : captures)
      (k : string -> captures -> option R) :
  String.prefix t s = false -> matchHere (lit t) s c k = None.
Proof.
  revert s c k. induction t as [|a t IH]; intros s c k H.
  - destruct s; discriminate.
  - cbn [lit]. rewrite matchHere_seq. destruct s as [|b s]; [reflexivity|].
    unfold chr. rewrite matchHere_char. simpl in H.
    destruct (ascii_dec a b) as [->|Hne].
    + rewrite Ascii.eqb_refl. now apply IH.
    + apply Ascii.eqb_neq in Hne. now rewrite Hne.
Qed.

Lemma markupChar_false (a : ascii) :
  negb (markupChar a) = true ->
  Ascii.eqb "`" a = false /\ Ascii.eqb "#" a = false /\ charIn "*_~[]()#>|" a = false.
Proof.
  unfold markupChar. cbn [charIn]. intros H. apply negb_true_iff in H.
  repeat (apply orb_false_iff in H; destruct H as [? H]). repeat split; try assumption.
  repeat (apply orb_false_iff; split); assumption.
Qed.

(** X26.  A text that holds none of the markup characters and nowhere the
    letters "http" passes the five removals unchanged, so its word count is
    the number of its words. *)
Theorem stripMarkdown_plain :
  forall content : string,
    allChars (fun c => negb (markupChar c)) content = true ->
    includes "http" content = false ->
    stripMarkdown content = content /\ countWords content = words content.
Proof.
  intros content Hplain Hhttp.
  assert (Hstrip : stripMarkdown content = content).
  { unfold stripMarkdown, replaceAll.
    rewrite (replaceLoop_without_match codeBlock "" content (fun c => negb (markupChar c)));
      [|intros [|a r] Ha | exact Hplain].
    2: reflexivity.
    2: { apply markupChar_false in Ha. destruct Ha as (Hb & _ & _).
         unfold codeBlock. cbn [cats fold_right matchAt lit]. rewrite matchHere_seq.
         unfold chr at 1. rewrite matchHere_char. now rewrite Hb. }
    rewrite (replaceLoop_without_match inlineCode "" content (fun c => negb (markupChar c)));
      [|intros [|a r] Ha | exact Hplain].
    2: reflexivity.
    2: { apply markupChar_false in Ha. destruct Ha as (Hb & _ & _).
         unfold inlineCode, seqs. cbn [fold_right matchAt]. rewrite matchHere_seq.
         unfold chr at 1. rewrite matchHere_char. now rewrite Hb. }
    rewrite (replaceLoop_without_match headingMark "" content (fun c => negb (markupChar c)));
      [|intros [|a r] Ha | exact Hplain].
    2: reflexivity.
    2: { apply markupChar_false in Ha. destruct Ha as (_ & Hh & _).
         unfold headingMark. cbn [cats fold_right matchAt]. unfold chr at 1.
         rewrite matchHere_char. now rewrite Hh. }
    rewrite (replaceLoop_without_match symbol "" content (fun c => negb (markupChar c)));
      [|intros [|a r] Ha | exact Hplain].
    2: reflexivity.
    2: { apply markupChar_false in Ha. destruct Ha as (_ & _ & Hs).
         unfold symbol. cbn [matchAt]. rewrite matchHere_char. now rewrite Hs. }
    apply (replaceLoop_without_prefix url "" content "http"); [|exact Hhttp].
    intros s Hs. unfold url. cbn [cats fold_right matchAt]. now apply lit_needs_prefix. }
  split; [exact Hstrip|]. rewrite countWords_squeezed. now rewrite Hstrip.
Qed.

End WordCountProperties.

Lemma stripMarkdown_plain_witness :
  countWords "  one two
three  " = 3%nat.
Proof.
  exact (proj2 (stripMarkdown_plain "  one two
three  " eq_refl eq_refl)).
Defined.

(** ** Instances *)

Lemma generate_request_and_text_witness :
  outcome (fst (generate unit (constantService [OtherBlock "tool_use"; TextBlock "Hello"]) "Hi"
                  (mkOptions (Some "") None (Some (ofZ 0))) (mkEnv tt [])))
  = Fulfilled "Hello" /\
  req_max_tokens (buildRequest "Hi" (mkOptions (Some "") None (Some (ofZ 0)))) = ofZ 8192.
Proof.
  destruct (generate_request_and_text unit
              (constantService [OtherBlock "tool_use"; TextBlock "Hello"]) "Hi"
              (mkOptions (Some "") None (Some (ofZ 0))) (mkEnv tt []))
    as (_ & _ & _ & _ & _ & Ht & Hf & _).
  split; [|exact Ht].
  destruct (Hf [OtherBlock "tool_use"; TextBlock "Hello"] eq_refl) as (Ho & _).
  exact Ho.
Defined.

Lemma runPipeline_console_witness :
  exists trace closing,
    run_console unit (snd sampleRun) = banner (fun _ => "n") sampleConfig ++ trace ++ closing /\
    forallb isSpinner trace = true /\
    List.length (filter isStart trace) = 2%nat /\
    closing = [].
Proof.
  destruct (runPipeline_console unit passStage (failStage "boom") passStage passStage passStage
              passStage passStage passStage passStage passStage passStage passStage
              (fun _ _ => "0.0") (fun _ => "n") sampleConfig tt)
    as (trace & closing & H1 & H2 & H3 & _ & Hrej).
  exists trace, closing. split; [exact H1|]. split; [exact H2|]. split; [exact H3|].
  destruct (Hrej (ErrorObject "boom") eq_refl) as [Hc _]. exact Hc.
Defined.

Lemma selectSimTopics_topics_witness :
  List.length
    (selectSimTopics 3 [Concept.mk (ofZ 1) "Bolts" (ofZ 2) [] "Core" "Apply"] [] "Widgets")
  = 3%nat /\
  exists sim,
    nth_error
      (selectSimTopics 3 [Concept.mk (ofZ 1) "Bolts" (ofZ 2) [] "Core" "Apply"] [] "Widgets") 1
    = Some sim /\
    SimTopic.conceptName sim = "Widgets Concept 2" /\
    SimTopic.chartType sim = "line".
Proof.
  destruct (selectSimTopics_topics 3 [Concept.mk (ofZ 1) "Bolts" (ofZ 2) [] "Core" "Apply"]
              [] "Widgets") as (Hlen & Hchart & _).
  split; [exact Hlen|].
  eexists. split; [reflexivity|]. split; [reflexivity|].
  apply (Hchart 1%nat). reflexivity.
Defined.

Lemma dependencies_positive_and_not_self_witness :
  parseConceptTable "| 7 | Alpha | 1 | 7, 0, x, 3 | Core | Apply |"
  = [Concept.mk (ofZ 7) "Alpha" (ofZ 1) [ofZ 3] "Core" "Apply"] /\
  isNaN (ofZ 3) = false /\ gt (ofZ 3) (ofZ 0) = true /\ strictNeq (ofZ 3) (ofZ 7) = true.
Proof.
  split; [reflexivity|].
  apply (dependencies_positive_and_not_self
           "| 7 | Alpha | 1 | 7, 0, x, 3 | Core | Apply |"
           (Concept.mk (ofZ 7) "Alpha" (ofZ 1) [ofZ 3] "Core" "Apply") (ofZ 3));
    [left; reflexivity | left; reflexivity].
Defined.
